(** * Tilemap: tile classification, autotile expansion and repaint control

    A shallow embedding of [Tilemap] (the tile-grid renderer of the
    engine) and the properties of its classifier, its autotile tables, its
    map reads, its spot expansion, its repaint memoization and its child
    ordering.

    Conventions of the embedding.
    - Tile ids, map cells, pixel coordinates and flags are JavaScript numbers
      holding integers: they are [Z].  [Math.floor (a / b)] is [Z.div]
      (floor division) and the [%] operator is [Z.rem] (truncating
      remainder, sign of the dividend).
    - A double holds the integers exactly up to 2^53 in magnitude, and the
      numbers are taken within that bound.  The two computations that are
      followed beyond it, the sum of [makeAutotileId] and the increment of
      [update], are rounded as double arithmetic rounds them:
      [roundToDouble].
    - A number that may be [NaN] (a source coordinate computed from an
      undefined water surface index) is a [jsnum]: [option Z], [None]
      being [NaN].
    - A property that may be [undefined] is an [option].
    - Methods that write to the draw layers, and may raise a [TypeError],
      are computations in the monad [M]: explicit passing of the [Tilemap]
      object, with a [Thrown] outcome that keeps the object as the
      exception left it.
    - [Array.prototype.sort] and the [update] method of the sprites are not
      code of this object: the first is a parameter [sort] of
      [_sortChildren] and [updateTransform], the second a parameter
      [spriteUpdate] of [update].
    - The tileset bitmaps ([setBitmaps], [isReady], [_updateBitmaps]) are
      treated apart, on [TilemapWithBitmaps]; [destroy] and the transform
      of [PIXI.Container] belong to the renderer and are left out;
      [Weather], which moves its sprites with floating-point sines and
      random numbers, is not treated. *)

From Stdlib Require Import ZArith QArith Qround List Bool Lia Permutation Sorted.
Import ListNotations.

#[local] Open Scope Z_scope.

(** ** JavaScript values *)

(** A number that may be [NaN]. *)
Definition jsnum := option Z.

Definition NaN : jsnum := None.

Definition jsnum_add (a b : jsnum) : jsnum :=
  match a, b with
  | Some x, Some y => Some (x + y)
  | _, _ => NaN
  end.

Definition jsnum_mul (a b : jsnum) : jsnum :=
  match a, b with
  | Some x, Some y => Some (x * y)
  | _, _ => NaN
  end.

Definition jsnum_sub (a b : jsnum) : jsnum :=
  match a, b with
  | Some x, Some y => Some (x - y)
  | _, _ => NaN
  end.

(** The integer that double arithmetic gives for an operation whose exact
    result is the integer [z]: [z] itself up to 2^53 in magnitude; beyond,
    [z] rounded to 53 significant bits, to the nearest and to the even
    significand on a tie.  (A double overflows at 2^1024 only, far from what
    the sums and products of this file reach.) *)
Definition roundToDouble (z : Z) : Z :=
  let a := Z.abs z in
  if a <=? 9007199254740992 then z
  else
    let e := Z.log2 a - 52 in
    let q := a / 2 ^ e in
    let r := a - q * 2 ^ e in
    let half := 2 ^ (e - 1) in
    let q' :=
      if r <? half then q
      else if half <? r then q + 1
      else if Z.even q then q else q + 1 in
    Z.sgn z * (q' * 2 ^ e).

(** [a[i]] on an array of numbers, [None] being [undefined]: a negative
    index or one past the end reads [undefined]. *)
Definition array_get {A : Type} (a : list A) (i : Z) : option A :=
  if i <? 0 then None else nth_error a (Z.to_nat i).

(** [v !== w] on two properties that hold an integer or [undefined]. *)
Definition strict_neq (v w : option Z) : bool :=
  match v, w with
  | Some a, Some b => negb (a =? b)
  | None, None => false
  | _, _ => true
  end.

(** ** Tile type checkers *)

Definition TILE_ID_B : Z := 0.
Definition TILE_ID_C : Z := 256.
Definition TILE_ID_D : Z := 512.
Definition TILE_ID_E : Z := 768.
Definition TILE_ID_A5 : Z := 1536.
Definition TILE_ID_A1 : Z := 2048.
Definition TILE_ID_A2 : Z := 2816.
Definition TILE_ID_A3 : Z := 4352.
Definition TILE_ID_A4 : Z := 5888.
Definition TILE_ID_MAX : Z := 8192.

Definition isVisibleTile (tileId : Z) : bool :=
  (tileId >? 0) && (tileId <? TILE_ID_MAX).

Definition isAutotile (tileId : Z) : bool :=
  tileId >=? TILE_ID_A1.

Definition getAutotileKind (tileId : Z) : Z :=
  (tileId - TILE_ID_A1) / 48.

Definition getAutotileShape (tileId : Z) : Z :=
  Z.rem (tileId - TILE_ID_A1) 48.

(** [TILE_ID_A1 + kind * 48 + shape] in double arithmetic: the product,
    then the two sums from the left, each rounded. *)
Definition makeAutotileId (kind shape : Z) : Z :=
  roundToDouble
    (roundToDouble (TILE_ID_A1 + roundToDouble (kind * 48)) + shape).

Definition isSameKindTile (tileID1 tileID2 : Z) : bool :=
  if isAutotile tileID1 && isAutotile tileID2
  then getAutotileKind tileID1 =? getAutotileKind tileID2
  else tileID1 =? tileID2.

Definition isTileA1 (tileId : Z) : bool :=
  (tileId >=? TILE_ID_A1) && (tileId <? TILE_ID_A2).

Definition isTileA2 (tileId : Z) : bool :=
  (tileId >=? TILE_ID_A2) && (tileId <? TILE_ID_A3).

Definition isTileA3 (tileId : Z) : bool :=
  (tileId >=? TILE_ID_A3) && (tileId <? TILE_ID_A4).

Definition isTileA4 (tileId : Z) : bool :=
  (tileId >=? TILE_ID_A4) && (tileId <? TILE_ID_MAX).

Definition isTileA5 (tileId : Z) : bool :=
  (tileId >=? TILE_ID_A5) && (tileId <? TILE_ID_A1).

Definition isWaterTile (tileId : Z) : bool :=
  if isTileA1 tileId
  then negb ((tileId >=? TILE_ID_A1 + 96) && (tileId <? TILE_ID_A1 + 192))
  else false.

Definition isWaterfallTile (tileId : Z) : bool :=
  if (tileId >=? TILE_ID_A1 + 192) && (tileId <? TILE_ID_A2)
  then Z.rem (getAutotileKind tileId) 2 =? 1
  else false.

Definition isGroundTile (tileId : Z) : bool :=
  isTileA1 tileId || isTileA2 tileId || isTileA5 tileId.

Definition isShadowingTile (tileId : Z) : bool :=
  isTileA3 tileId || isTileA4 tileId.

Definition isRoofTile (tileId : Z) : bool :=
  isTileA3 tileId && (Z.rem (getAutotileKind tileId) 16 <? 8).

Definition isWallTopTile (tileId : Z) : bool :=
  isTileA4 tileId && (Z.rem (getAutotileKind tileId) 16 <? 8).

Definition isWallSideTile (tileId : Z) : bool :=
  (isTileA3 tileId || isTileA4 tileId) &&
  (Z.rem (getAutotileKind tileId) 16 >=? 8).

Definition isWallTile (tileId : Z) : bool :=
  isWallTopTile tileId || isWallSideTile tileId.

Definition isFloorTypeAutotile (tileId : Z) : bool :=
  (isTileA1 tileId && negb (isWaterfallTile tileId)) ||
  isTileA2 tileId ||
  isWallTopTile tileId.

Definition isWallTypeAutotile (tileId : Z) : bool :=
  isRoofTile tileId || isWallSideTile tileId.

Definition isWaterfallTypeAutotile (tileId : Z) : bool :=
  isWaterfallTile tileId.

(** ** Autotile shape number to coordinates of tileset images *)

(** One table entry: the quadrant coordinates [[qsx, qsy]] of the four
    quarter tiles. *)
Definition AutotileEntry := list (Z * Z).
Definition AutotileTable := list AutotileEntry.

Definition FLOOR_AUTOTILE_TABLE : AutotileTable := [
  [(2, 4); (1, 4); (2, 3); (1, 3)];
  [(2, 0); (1, 4); (2, 3); (1, 3)];
  [(2, 4); (3, 0); (2, 3); (1, 3)];
  [(2, 0); (3, 0); (2, 3); (1, 3)];
  [(2, 4); (1, 4); (2, 3); (3, 1)];
  [(2, 0); (1, 4); (2, 3); (3, 1)];
  [(2, 4); (3, 0); (2, 3); (3, 1)];
  [(2, 0); (3, 0); (2, 3); (3, 1)];
  [(2, 4); (1, 4); (2, 1); (1, 3)];
  [(2, 0); (1, 4); (2, 1); (1, 3)];
  [(2, 4); (3, 0); (2, 1); (1, 3)];
  [(2, 0); (3, 0); (2, 1); (1, 3)];
  [(2, 4); (1, 4); (2, 1); (3, 1)];
  [(2, 0); (1, 4); (2, 1); (3, 1)];
  [(2, 4); (3, 0); (2, 1); (3, 1)];
  [(2, 0); (3, 0); (2, 1); (3, 1)];
  [(0, 4); (1, 4); (0, 3); (1, 3)];
  [(0, 4); (3, 0); (0, 3); (1, 3)];
  [(0, 4); (1, 4); (0, 3); (3, 1)];
  [(0, 4); (3, 0); (0, 3); (3, 1)];
  [(2, 2); (1, 2); (2, 3); (1, 3)];
  [(2, 2); (1, 2); (2, 3); (3, 1)];
  [(2, 2); (1, 2); (2, 1); (1, 3)];
  [(2, 2); (1, 2); (2, 1); (3, 1)];
  [(2, 4); (3, 4); (2, 3); (3, 3)];
  [(2, 4); (3, 4); (2, 1); (3, 3)];
  [(2, 0); (3, 4); (2, 3); (3, 3)];
  [(2, 0); (3, 4); (2, 1); (3, 3)];
  [(2, 4); (1, 4); (2, 5); (1, 5)];
  [(2, 0); (1, 4); (2, 5); (1, 5)];
  [(2, 4); (3, 0); (2, 5); (1, 5)];
  [(2, 0); (3, 0); (2, 5); (1, 5)];
  [(0, 4); (3, 4); (0, 3); (3, 3)];
  [(2, 2); (1, 2); (2, 5); (1, 5)];
  [(0, 2); (1, 2); (0, 3); (1, 3)];
  [(0, 2); (1, 2); (0, 3); (3, 1)];
  [(2, 2); (3, 2); (2, 3); (3, 3)];
  [(2, 2); (3, 2); (2, 1); (3, 3)];
  [(2, 4); (3, 4); (2, 5); (3, 5)];
  [(2, 0); (3, 4); (2, 5); (3, 5)];
  [(0, 4); (1, 4); (0, 5); (1, 5)];
  [(0, 4); (3, 0); (0, 5); (1, 5)];
  [(0, 2); (3, 2); (0, 3); (3, 3)];
  [(0, 2); (1, 2); (0, 5); (1, 5)];
  [(0, 4); (3, 4); (0, 5); (3, 5)];
  [(2, 2); (3, 2); (2, 5); (3, 5)];
  [(0, 2); (3, 2); (0, 5); (3, 5)];
  [(0, 0); (1, 0); (0, 1); (1, 1)]
].

Definition WALL_AUTOTILE_TABLE : AutotileTable := [
  [(2, 2); (1, 2); (2, 1); (1, 1)];
  [(0, 2); (1, 2); (0, 1); (1, 1)];
  [(2, 0); (1, 0); (2, 1); (1, 1)];
  [(0, 0); (1, 0); (0, 1); (1, 1)];
  [(2, 2); (3, 2); (2, 1); (3, 1)];
  [(0, 2); (3, 2); (0, 1); (3, 1)];
  [(2, 0); (3, 0); (2, 1); (3, 1)];
  [(0, 0); (3, 0); (0, 1); (3, 1)];
  [(2, 2); (1, 2); (2, 3); (1, 3)];
  [(0, 2); (1, 2); (0, 3); (1, 3)];
  [(2, 0); (1, 0); (2, 3); (1, 3)];
  [(0, 0); (1, 0); (0, 3); (1, 3)];
  [(2, 2); (3, 2); (2, 3); (3, 3)];
  [(0, 2); (3, 2); (0, 3); (3, 3)];
  [(2, 0); (3, 0); (2, 3); (3, 3)];
  [(0, 0); (3, 0); (0, 3); (3, 3)]
].

Definition WATERFALL_AUTOTILE_TABLE : AutotileTable := [
  [(2, 0); (1, 0); (2, 1); (1, 1)];
  [(0, 0); (1, 0); (0, 1); (1, 1)];
  [(2, 0); (3, 0); (2, 1); (3, 1)];
  [(0, 0); (3, 0); (0, 1); (3, 1)]
].

(** ** Draw layers *)

(** A rectangle-blit command, the arguments of one [addRect] call.  The
    source coordinates are [jsnum]s: they are [NaN] when computed from an
    undefined water surface index. *)
Record Rect : Type := mkRect {
  rect_setNumber : Z;
  rect_sx : jsnum;
  rect_sy : jsnum;
  rect_dx : Z;
  rect_dy : Z;
  rect_w : Z;
  rect_h : Z
}.

(** Modelled from the spec: [TilemapLayer] (imported from another module,
    absent here) is the draw layer, "an ordered container of rectangle-blit
    commands" that "exposes clear/add"; its [z], [x] and [y] are the
    properties [Tilemap] assigns to it. *)
Record Layer : Type := mkLayer {
  layer_z : Z;
  layer_x : Z;
  layer_y : Z;
  layer_rects : list Rect
}.

(** Modelled from the spec: [new Tilemap.Layer()] holds no command. *)
Definition newLayer : Layer :=
  {| layer_z := 0; layer_x := 0; layer_y := 0; layer_rects := [] |}.

(** Modelled from the spec: [TilemapLayer.prototype.clear] drops every
    command. *)
Definition Layer_clear (l : Layer) : Layer :=
  {| layer_z := layer_z l; layer_x := layer_x l; layer_y := layer_y l;
     layer_rects := [] |}.

(** Modelled from the spec: [TilemapLayer.prototype.addRect] appends one
    command. *)
Definition Layer_addRect (l : Layer) (r : Rect) : Layer :=
  {| layer_z := layer_z l; layer_x := layer_x l; layer_y := layer_y l;
     layer_rects := layer_rects l ++ [r] |}.

Definition Layer_setZ (l : Layer) (v : Z) : Layer :=
  {| layer_z := v; layer_x := layer_x l; layer_y := layer_y l;
     layer_rects := layer_rects l |}.

Definition Layer_setXY (l : Layer) (vx vy : Z) : Layer :=
  {| layer_z := layer_z l; layer_x := vx; layer_y := vy;
     layer_rects := layer_rects l |}.

(** ** The tilemap object *)

(** What [_compareChildOrder] reads of a child: [a.z], [a.y] and
    [a.spriteId] ([undefined] on a draw layer). *)
Record Drawable : Type := mkDrawable {
  child_z : Z;
  child_y : Z;
  child_spriteId : option Z
}.

(** An element of [this.children]: one of the two draw layers, which
    [this._lowerLayer] and [this._upperLayer] alias, or a sprite added by
    the surrounding scene. *)
Inductive Child : Type :=
| LowerLayerChild
| UpperLayerChild
| SpriteChild (d : Drawable).

(** The [layer] argument of the methods: [this._lowerLayer] or
    [this._upperLayer]. *)
Inductive LayerRef : Type :=
| LowerLayer
| UpperLayer.

(** [initialize] assigns these three once and nothing changes them. *)
Definition _margin : Z := 20.
Definition _tileWidth : Z := 48.
Definition _tileHeight : Z := 48.

Record Tilemap : Type := mkTilemap {
  _width : Z;
  _height : Z;
  _mapWidth : Z;
  _mapHeight : Z;
  _mapData : option (list Z);
  origin : Q * Q;
  flags : list Z;
  animationCount : Z;
  animationFrame : option Z;
  horizontalWrap : bool;
  verticalWrap : bool;
  _needsRepaint : bool;
  _lastAnimationFrame : option Z;
  _lastStartX : option Z;
  _lastStartY : option Z;
  _lowerLayer : Layer;
  _upperLayer : Layer;
  children : list Child
}.

Definition layerOf (t : Tilemap) (l : LayerRef) : Layer :=
  match l with
  | LowerLayer => _lowerLayer t
  | UpperLayer => _upperLayer t
  end.

Definition setLayer (l : LayerRef) (v : Layer) (t : Tilemap) : Tilemap :=
  match l with
  | LowerLayer =>
      mkTilemap (_width t) (_height t) (_mapWidth t) (_mapHeight t)
        (_mapData t) (origin t) (flags t) (animationCount t)
        (animationFrame t) (horizontalWrap t) (verticalWrap t)
        (_needsRepaint t) (_lastAnimationFrame t) (_lastStartX t)
        (_lastStartY t) v (_upperLayer t) (children t)
  | UpperLayer =>
      mkTilemap (_width t) (_height t) (_mapWidth t) (_mapHeight t)
        (_mapData t) (origin t) (flags t) (animationCount t)
        (animationFrame t) (horizontalWrap t) (verticalWrap t)
        (_needsRepaint t) (_lastAnimationFrame t) (_lastStartX t)
        (_lastStartY t) (_lowerLayer t) v (children t)
  end.

Definition set_needsRepaint (v : bool) (t : Tilemap) : Tilemap :=
  mkTilemap (_width t) (_height t) (_mapWidth t) (_mapHeight t)
    (_mapData t) (origin t) (flags t) (animationCount t)
    (animationFrame t) (horizontalWrap t) (verticalWrap t)
    v (_lastAnimationFrame t) (_lastStartX t)
    (_lastStartY t) (_lowerLayer t) (_upperLayer t) (children t).

Definition set_last (af sx sy : option Z) (t : Tilemap) : Tilemap :=
  mkTilemap (_width t) (_height t) (_mapWidth t) (_mapHeight t)
    (_mapData t) (origin t) (flags t) (animationCount t)
    (animationFrame t) (horizontalWrap t) (verticalWrap t)
    (_needsRepaint t) af sx sy (_lowerLayer t) (_upperLayer t) (children t).

Definition set_children (v : list Child) (t : Tilemap) : Tilemap :=
  mkTilemap (_width t) (_height t) (_mapWidth t) (_mapHeight t)
    (_mapData t) (origin t) (flags t) (animationCount t)
    (animationFrame t) (horizontalWrap t) (verticalWrap t)
    (_needsRepaint t) (_lastAnimationFrame t) (_lastStartX t)
    (_lastStartY t) (_lowerLayer t) (_upperLayer t) v.

Definition set_animation (count : Z) (frame : option Z) (t : Tilemap)
  : Tilemap :=
  mkTilemap (_width t) (_height t) (_mapWidth t) (_mapHeight t)
    (_mapData t) (origin t) (flags t) count frame
    (horizontalWrap t) (verticalWrap t)
    (_needsRepaint t) (_lastAnimationFrame t) (_lastStartX t)
    (_lastStartY t) (_lowerLayer t) (_upperLayer t) (children t).

(** The scene assigns [flags] and the two wrap switches. *)
Definition set_flags (v : list Z) (t : Tilemap) : Tilemap :=
  mkTilemap (_width t) (_height t) (_mapWidth t) (_mapHeight t)
    (_mapData t) (origin t) v (animationCount t)
    (animationFrame t) (horizontalWrap t) (verticalWrap t)
    (_needsRepaint t) (_lastAnimationFrame t) (_lastStartX t)
    (_lastStartY t) (_lowerLayer t) (_upperLayer t) (children t).

Definition set_wrap (horizontal vertical : bool) (t : Tilemap) : Tilemap :=
  mkTilemap (_width t) (_height t) (_mapWidth t) (_mapHeight t)
    (_mapData t) (origin t) (flags t) (animationCount t)
    (animationFrame t) horizontal vertical
    (_needsRepaint t) (_lastAnimationFrame t) (_lastStartX t)
    (_lastStartY t) (_lowerLayer t) (_upperLayer t) (children t).

(** ** Computations on the tilemap *)

Inductive JsError : Type :=
| TypeError.

Inductive Outcome (A : Type) : Type :=
| Done (a : A) (t : Tilemap)
| Thrown (e : JsError) (t : Tilemap).

Arguments Done {A} a t.
Arguments Thrown {A} e t.

Definition M (A : Type) : Type := Tilemap -> Outcome A.

Definition ret {A : Type} (a : A) : M A := fun t => Done a t.

Definition bind {A B : Type} (m : M A) (k : A -> M B) : M B :=
  fun t =>
    match m t with
    | Done a t' => k a t'
    | Thrown e t' => Thrown e t'
    end.

Definition throw {A : Type} (e : JsError) : M A := fun t => Thrown e t.

(** Reads [this]. *)
Definition withThis {A : Type} (f : Tilemap -> M A) : M A := fun t => f t t.

Definition modify (f : Tilemap -> Tilemap) : M unit := fun t => Done tt (f t).

Declare Scope tilemap_scope.
Delimit Scope tilemap_scope with tilemap.
Notation "m1 ;; m2" := (bind m1 (fun _ => m2))
  (at level 61, right associativity) : tilemap_scope.
#[local] Open Scope tilemap_scope.

Fixpoint forEach {A : Type} (l : list A) (body : A -> M unit) : M unit :=
  match l with
  | [] => ret tt
  | a :: l' => body a ;; forEach l' body
  end.

(** [for (let i = 0; i < n; i++) body]. *)
Definition forRange (n : Z) (body : Z -> M unit) : M unit :=
  forEach (map Z.of_nat (seq 0 (Z.to_nat n))) body.

(** [layer.addRect(setNumber, sx, sy, dx, dy, w, h)]. *)
Definition addRect (layer : LayerRef) (r : Rect) : M unit :=
  modify (fun t => setLayer layer (Layer_addRect (layerOf t layer) r) t).

(** [layer.clear()]. *)
Definition clear (layer : LayerRef) : M unit :=
  modify (fun t => setLayer layer (Layer_clear (layerOf t layer)) t).

(** ** Map data *)

(** Modelled from the spec: [Number.prototype.mod], defined in the
    [prototype.js] that [index.js] imports and that is absent here, is "true
    mathematical modulo (always non-negative result for positive modulus)".
    For a modulus that is not positive the result does not matter below:
    the bounds test of [_readMapData] then fails whatever [x] is. *)
Definition Number_mod (x n : Z) : Z := x mod n.

(** A condition is taken when its number is not zero. *)
Definition truthy (v : Z) : bool := negb (v =? 0).

(** [v & mask] where [v] may be [undefined] (which [&] reads as [0]) and
    [mask] is a small non-negative constant, so that the conversion to 32
    bits changes no bit of the result. *)
Definition bitand (v : option Z) (mask : Z) : Z :=
  match v with
  | Some n => Z.land n mask
  | None => 0
  end.

(** [v || 0] on an array cell. *)
Definition or_zero (v : option Z) : Z :=
  match v with
  | Some n => n
  | None => 0
  end.

Definition setData (width height : Z) (data : list Z) (t : Tilemap)
  : Tilemap :=
  mkTilemap (_width t) (_height t) width height
    (Some data) (origin t) (flags t) (animationCount t)
    (animationFrame t) (horizontalWrap t) (verticalWrap t)
    (_needsRepaint t) (_lastAnimationFrame t) (_lastStartX t)
    (_lastStartY t) (_lowerLayer t) (_upperLayer t) (children t).

Definition _readMapData (t : Tilemap) (x y z : Z) : Z :=
  match _mapData t with
  | Some data =>
      let width := _mapWidth t in
      let height := _mapHeight t in
      let x := if horizontalWrap t then Number_mod x width else x in
      let y := if verticalWrap t then Number_mod y height else y in
      if (x >=? 0) && (x <? width) && (y >=? 0) && (y <? height)
      then or_zero (array_get data ((z * height + y) * width + x))
      else 0
  | None => 0
  end.

Definition _isHigherTile (t : Tilemap) (tileId : Z) : Z :=
  bitand (array_get (flags t) tileId) 16.

(** [isTileA2(tileId) && this.flags[tileId] & 0x80], as the condition it
    is used for. *)
Definition _isTableTile (t : Tilemap) (tileId : Z) : bool :=
  isTileA2 tileId && truthy (bitand (array_get (flags t) tileId) 128).

Definition _isOverpassPosition (t : Tilemap) (mx my : Z) : bool := false.

(** ** Spot expansion *)

Definition _addNormalTile (layer : LayerRef) (tileId dx dy : Z) : M unit :=
  let setNumber :=
    if isTileA5 tileId then 4 else 5 + tileId / 256 in
  let w := _tileWidth in
  let h := _tileHeight in
  let sx := (Z.rem (tileId / 128) 2 * 8 + Z.rem tileId 8) * w in
  let sy := Z.rem (Z.rem tileId 256 / 8) 16 * h in
  addRect layer (mkRect setNumber (Some sx) (Some sy) dx dy w h).

(** The values of [setNumber], [bx], [by], [autotileTable] and [isTable]
    when the chain of tests of [_addAutotile] is over.  In the A4 branch
    [(ty - 10) * 2.5 + (ty % 2 === 1 ? 0.5 : 0)] is the half of the integer
    [5 * (ty - 10) + (ty % 2 === 1 ? 1 : 0)], so its floor is a [Z.div] by
    2. *)
Definition autotileSource (t : Tilemap) (tileId : Z)
  : Z * jsnum * jsnum * AutotileTable * bool :=
  let kind := getAutotileKind tileId in
  let tx := Z.rem kind 8 in
  let ty := kind / 8 in
  if isTileA1 tileId then
    let waterSurfaceIndex : jsnum :=
      match animationFrame t with
      | Some af => array_get [0; 1; 2; 1] (Z.rem af 4)
      | None => None
      end in
    if kind =? 0 then
      (0, jsnum_mul waterSurfaceIndex (Some 2), Some 0,
       FLOOR_AUTOTILE_TABLE, false)
    else if kind =? 1 then
      (0, jsnum_mul waterSurfaceIndex (Some 2), Some 3,
       FLOOR_AUTOTILE_TABLE, false)
    else if kind =? 2 then
      (0, Some 6, Some 0, FLOOR_AUTOTILE_TABLE, false)
    else if kind =? 3 then
      (0, Some 6, Some 3, FLOOR_AUTOTILE_TABLE, false)
    else
      let bx := tx / 4 * 8 in
      let by_ := ty * 6 + Z.rem (tx / 2) 2 * 3 in
      if Z.rem kind 2 =? 0 then
        (0, jsnum_add (Some bx) (jsnum_mul waterSurfaceIndex (Some 2)),
         Some by_, FLOOR_AUTOTILE_TABLE, false)
      else
        (0, Some (bx + 6),
         jsnum_add (Some by_)
           (option_map (fun af => Z.rem af 3) (animationFrame t)),
         WATERFALL_AUTOTILE_TABLE, false)
  else if isTileA2 tileId then
    (1, Some (tx * 2), Some ((ty - 2) * 3), FLOOR_AUTOTILE_TABLE,
     _isTableTile t tileId)
  else if isTileA3 tileId then
    (2, Some (tx * 2), Some ((ty - 6) * 2), WALL_AUTOTILE_TABLE, false)
  else if isTileA4 tileId then
    (3, Some (tx * 2),
     Some ((5 * (ty - 10) + (if Z.rem ty 2 =? 1 then 1 else 0)) / 2),
     if Z.rem ty 2 =? 1 then WALL_AUTOTILE_TABLE else FLOOR_AUTOTILE_TABLE,
     false)
  else
    (0, Some 0, Some 0, FLOOR_AUTOTILE_TABLE, false).

(** [table[i][0]] raises a [TypeError] when [table], that is
    [autotileTable[shape]], is [undefined]. *)
Definition _addAutotile (layer : LayerRef) (tileId dx dy : Z) : M unit :=
  withThis (fun t =>
    let shape := getAutotileShape tileId in
    let '(setNumber, bx, by_, autotileTable, isTable) :=
      autotileSource t tileId in
    let table := array_get autotileTable shape in
    let w1 := _tileWidth / 2 in
    let h1 := _tileHeight / 2 in
    forRange 4 (fun i =>
      match table with
      | None => throw TypeError
      | Some table =>
          match array_get table i with
          | None => throw TypeError
          | Some (qsx, qsy) =>
              let sx1 :=
                jsnum_mul (jsnum_add (jsnum_mul bx (Some 2)) (Some qsx))
                  (Some w1) in
              let sy1 :=
                jsnum_mul (jsnum_add (jsnum_mul by_ (Some 2)) (Some qsy))
                  (Some h1) in
              let dx1 := dx + Z.rem i 2 * w1 in
              let dy1 := dy + i / 2 * h1 in
              if isTable && ((qsy =? 1) || (qsy =? 5)) then
                let qsx2 := if qsy =? 1 then Z.rem (4 - qsx) 4 else qsx in
                let qsy2 := 3 in
                let sx2 :=
                  jsnum_mul (jsnum_add (jsnum_mul bx (Some 2)) (Some qsx2))
                    (Some w1) in
                let sy2 :=
                  jsnum_mul (jsnum_add (jsnum_mul by_ (Some 2)) (Some qsy2))
                    (Some h1) in
                addRect layer (mkRect setNumber sx2 sy2 dx1 dy1 w1 h1) ;;
                addRect layer
                  (mkRect setNumber sx1 sy1 dx1 (dy1 + h1 / 2) w1 (h1 / 2))
              else
                addRect layer (mkRect setNumber sx1 sy1 dx1 dy1 w1 h1)
          end
      end)).

Definition _addTableEdge (layer : LayerRef) (tileId dx dy : Z) : M unit :=
  if isTileA2 tileId then
    let autotileTable := FLOOR_AUTOTILE_TABLE in
    let kind := getAutotileKind tileId in
    let shape := getAutotileShape tileId in
    let tx := Z.rem kind 8 in
    let ty := kind / 8 in
    let setNumber := 1 in
    let bx := tx * 2 in
    let by_ := (ty - 2) * 3 in
    let table := array_get autotileTable shape in
    let w1 := _tileWidth / 2 in
    let h1 := _tileHeight / 2 in
    forRange 2 (fun i =>
      match table with
      | None => throw TypeError
      | Some table =>
          match array_get table (2 + i) with
          | None => throw TypeError
          | Some (qsx, qsy) =>
              let sx1 := (bx * 2 + qsx) * w1 in
              let sy1 := (by_ * 2 + qsy) * h1 + h1 / 2 in
              let dx1 := dx + Z.rem i 2 * w1 in
              let dy1 := dy + i / 2 * h1 in
              addRect layer
                (mkRect setNumber (Some sx1) (Some sy1) dx1 dy1 w1 (h1 / 2))
          end
      end)
  else ret tt.

Definition _addShadow (layer : LayerRef) (shadowBits dx dy : Z) : M unit :=
  if truthy (Z.land shadowBits 15) then
    let w1 := _tileWidth / 2 in
    let h1 := _tileHeight / 2 in
    forRange 4 (fun i =>
      if truthy (Z.land shadowBits (Z.shiftl 1 i)) then
        let dx1 := dx + Z.rem i 2 * w1 in
        let dy1 := dy + i / 2 * h1 in
        addRect layer (mkRect (-1) (Some 0) (Some 0) dx1 dy1 w1 h1)
      else ret tt)
  else ret tt.

Definition _addTile (layer : LayerRef) (tileId dx dy : Z) : M unit :=
  if isVisibleTile tileId then
    if isAutotile tileId then _addAutotile layer tileId dx dy
    else _addNormalTile layer tileId dx dy
  else ret tt.

Definition _addSpotTile (tileId dx dy : Z) : M unit :=
  withThis (fun t =>
    if truthy (_isHigherTile t tileId)
    then _addTile UpperLayer tileId dx dy
    else _addTile LowerLayer tileId dx dy).

Definition _addSpot (startX startY x y : Z) : M unit :=
  withThis (fun t =>
    let mx := startX + x in
    let my := startY + y in
    let dx := x * _tileWidth in
    let dy := y * _tileHeight in
    let tileId0 := _readMapData t mx my 0 in
    let tileId1 := _readMapData t mx my 1 in
    let tileId2 := _readMapData t mx my 2 in
    let tileId3 := _readMapData t mx my 3 in
    let shadowBits := _readMapData t mx my 4 in
    let upperTileId1 := _readMapData t mx (my - 1) 1 in
    _addSpotTile tileId0 dx dy ;;
    _addSpotTile tileId1 dx dy ;;
    _addShadow LowerLayer shadowBits dx dy ;;
    (if _isTableTile t upperTileId1 && negb (_isTableTile t tileId1) then
       if negb (isShadowingTile tileId0)
       then _addTableEdge LowerLayer upperTileId1 dx dy
       else ret tt
     else ret tt) ;;
    (if _isOverpassPosition t mx my then
       _addTile UpperLayer tileId2 dx dy ;;
       _addTile UpperLayer tileId3 dx dy
     else
       _addSpotTile tileId2 dx dy ;;
       _addSpotTile tileId3 dx dy)).

(** [Math.ceil (a / b)] on integers, [b] positive. *)
Definition ceil_div (a b : Z) : Z := - ((- a) / b).

Definition _addAllSpots (startX startY : Z) : M unit :=
  withThis (fun t =>
    clear LowerLayer ;;
    clear UpperLayer ;;
    let widthWithMatgin := _width t + _margin * 2 in
    let heightWithMatgin := _height t + _margin * 2 in
    let tileCols := ceil_div widthWithMatgin _tileWidth + 1 in
    let tileRows := ceil_div heightWithMatgin _tileHeight + 1 in
    forRange tileRows (fun y =>
      forRange tileCols (fun x =>
        _addSpot startX startY x y))).

(** ** Child ordering *)

(** What the comparison reads of a child.  [_createLayers] gives a layer
    its [z] and [updateTransform] its [y]; nothing gives it a
    [spriteId]. *)
Definition drawableOf (t : Tilemap) (c : Child) : Drawable :=
  match c with
  | LowerLayerChild =>
      mkDrawable (layer_z (_lowerLayer t)) (layer_y (_lowerLayer t)) None
  | UpperLayerChild =>
      mkDrawable (layer_z (_upperLayer t)) (layer_y (_upperLayer t)) None
  | SpriteChild d => d
  end.

(** The difference of two sprite ids is [NaN] when one is [undefined]. *)
Definition _compareChildOrder (a b : Drawable) : jsnum :=
  if negb (child_z a =? child_z b) then
    Some (child_z a - child_z b)
  else if negb (child_y a =? child_y b) then
    Some (child_y a - child_y b)
  else
    jsnum_sub (child_spriteId a) (child_spriteId b).

(** [Array.prototype.sort] belongs to the language, not to this object: it
    returns the elements in the order of [comparefn] when [comparefn] is
    consistent on them, and in an order that the language leaves to the
    engine when it is not (here: when a [NaN] makes a layer tie two sprites
    that do not tie each other).  So the sort is a parameter of
    [_sortChildren]. *)
Definition Sorter : Type :=
  forall A : Type, (A -> A -> jsnum) -> list A -> list A.

(** One such sort, by insertion and stable: [a] stays before [b] unless
    [comparefn (a, b) > 0]; a [NaN] result counts as [0], as the language
    has it. *)
Definition sort_keeps {A : Type} (comparefn : A -> A -> jsnum) (a b : A)
  : bool :=
  match comparefn a b with
  | Some v => v <=? 0
  | None => true
  end.

Fixpoint sort_insert {A : Type} (comparefn : A -> A -> jsnum) (a : A)
  (l : list A) : list A :=
  match l with
  | [] => [a]
  | b :: l' =>
      if sort_keeps comparefn a b then a :: b :: l'
      else b :: sort_insert comparefn a l'
  end.

Definition insertion_sort {A : Type} (comparefn : A -> A -> jsnum)
  (l : list A) : list A :=
  fold_right (sort_insert comparefn) [] l.

Definition insertionSort : Sorter := fun A => @insertion_sort A.

(** [this.children.sort (this._compareChildOrder.bind (this))], [sort]
    being the sort of the engine. *)
Definition _sortChildren (sort : Sorter) : M unit :=
  modify (fun t =>
    set_children
      (sort Child
         (fun a b => _compareChildOrder (drawableOf t a) (drawableOf t b))
         (children t))
      t).

(** ** Construction and repaint *)

Definition refresh (t : Tilemap) : Tilemap := set_needsRepaint true t.

Definition _createLayers (t : Tilemap) : Tilemap :=
  set_needsRepaint true
    (set_children (children t ++ [LowerLayerChild; UpperLayerChild])
       (setLayer UpperLayer (Layer_setZ newLayer 4)
          (setLayer LowerLayer (Layer_setZ newLayer 0) t))).

(** [new Tilemap()], [Graphics.width] and [Graphics.height] being
    [graphicsWidth] and [graphicsHeight].  [animationFrame] and the three
    [_last...] properties are not assigned: they are [undefined]. *)
Definition initialize (graphicsWidth graphicsHeight : Z) : Tilemap :=
  refresh
    (_createLayers
       {| _width := graphicsWidth;
          _height := graphicsHeight;
          _mapWidth := 0;
          _mapHeight := 0;
          _mapData := None;
          origin := (0%Q, 0%Q);
          flags := [];
          animationCount := 0;
          animationFrame := None;
          horizontalWrap := false;
          verticalWrap := false;
          _needsRepaint := false;
          _lastAnimationFrame := None;
          _lastStartX := None;
          _lastStartY := None;
          _lowerLayer := newLayer;
          _upperLayer := newLayer;
          children := [] |}).

(** [child.update ()] in the loop of [update].  The sprites are code of
    the scene: what the [update] of a sprite makes of it is a parameter,
    [spriteUpdate] (the identity for a sprite without that method), and it
    is taken to change nothing but the sprite.  The draw layer of the spec
    "exposes clear/add/commit" and no [update]: [if (child.update)] passes
    the two layers over. *)
Definition updateChild (spriteUpdate : Drawable -> Drawable) (c : Child)
  : Child :=
  match c with
  | SpriteChild d => SpriteChild (spriteUpdate d)
  | LowerLayerChild => LowerLayerChild
  | UpperLayerChild => UpperLayerChild
  end.

(** [update]: [animationCount++] is a sum of doubles, which stops at
    2^53. *)
Definition update (spriteUpdate : Drawable -> Drawable) (t : Tilemap)
  : Tilemap :=
  let count := roundToDouble (animationCount t + 1) in
  set_children (map (updateChild spriteUpdate) (children t))
    (set_animation count (Some (count / 30)) t).

(** The scroll origin is a finite float, a rational: [Math.ceil] is
    [Qceiling]. *)
Definition startXOf (t : Tilemap) : Z :=
  (Qceiling (fst (origin t)) - _margin) / _tileWidth.

Definition startYOf (t : Tilemap) : Z :=
  (Qceiling (snd (origin t)) - _margin) / _tileHeight.

(** [updateTransform], up to the call of the [updateTransform] of
    [PIXI.Container], which is not part of this object. *)
Definition updateTransform (sort : Sorter) : M unit :=
  withThis (fun t =>
    let ox := Qceiling (fst (origin t)) in
    let oy := Qceiling (snd (origin t)) in
    let startX := (ox - _margin) / _tileWidth in
    let startY := (oy - _margin) / _tileHeight in
    modify (fun t =>
      setLayer LowerLayer
        (Layer_setXY (_lowerLayer t)
           (startX * _tileWidth - ox) (startY * _tileHeight - oy)) t) ;;
    modify (fun t =>
      setLayer UpperLayer
        (Layer_setXY (_upperLayer t)
           (startX * _tileWidth - ox) (startY * _tileHeight - oy)) t) ;;
    (if _needsRepaint t
        || strict_neq (_lastAnimationFrame t) (animationFrame t)
        || strict_neq (_lastStartX t) (Some startX)
        || strict_neq (_lastStartY t) (Some startY)
     then
       modify (set_last (animationFrame t) (Some startX) (Some startY)) ;;
       _addAllSpots startX startY ;;
       modify (set_needsRepaint false)
     else ret tt) ;;
    _sortChildren sort).

(** ** Notions used in the statements *)

(** How many of the conditions hold. *)
Definition count_true (l : list bool) : nat :=
  count_occ bool_dec l true.

(** Every coordinate of every entry is at most [bound]. *)
Definition coordinates_within (bound : Z) (table : AutotileTable) : Prop :=
  Forall (Forall (fun p => 0 <= fst p <= bound /\ 0 <= snd p <= bound)) table.

Definition coordinates_withinb (bound : Z) (table : AutotileTable) : bool :=
  forallb
    (forallb (fun p =>
       (0 <=? fst p) && (fst p <=? bound) &&
       (0 <=? snd p) && (snd p <=? bound)))
    table.

(** The five bank predicates and the simple-bank range (banks B to E lie
    below [TILE_ID_A5]), at one id. *)
Definition bank_tests (t : Z) : list bool :=
  [isTileA1 t; isTileA2 t; isTileA3 t; isTileA4 t; isTileA5 t;
   t <? TILE_ID_A5].

(** The object with [rs] added, in order, to the commands of one layer. *)
Definition appendRects (layer : LayerRef) (rs : list Rect) (t : Tilemap)
  : Tilemap :=
  setLayer layer
    (mkLayer (layer_z (layerOf t layer)) (layer_x (layerOf t layer))
       (layer_y (layerOf t layer)) (layer_rects (layerOf t layer) ++ rs))
    t.

(** A map of 10 columns and 1 row that loops horizontally, its 50 cells
    numbered from 1, and the same map without loop. *)
Definition loopingRow : Tilemap :=
  set_wrap true false
    (setData 10 1 (map Z.of_nat (seq 1 50)) (initialize 816 624)).

Definition plainRow : Tilemap :=
  setData 10 1 (map Z.of_nat (seq 1 50)) (initialize 816 624).

(** What the expansion of a spot reads of the object. *)
Record sameSetting (t1 t2 : Tilemap) : Prop := mkSameSetting {
  same_width : _width t1 = _width t2;
  same_height : _height t1 = _height t2;
  same_mapWidth : _mapWidth t1 = _mapWidth t2;
  same_mapHeight : _mapHeight t1 = _mapHeight t2;
  same_mapData : _mapData t1 = _mapData t2;
  same_flags : flags t1 = flags t2;
  same_animationFrame : animationFrame t1 = animationFrame t2;
  same_horizontalWrap : horizontalWrap t1 = horizontalWrap t2;
  same_verticalWrap : verticalWrap t1 = verticalWrap t2
}.

(** Two runs end the same way, in objects that [R] relates. *)
Definition related_outcomes (R : Tilemap -> Tilemap -> Prop)
  (o1 o2 : Outcome unit) : Prop :=
  match o1, o2 with
  | Done _ t1, Done _ t2 => R t1 t2
  | Thrown e1 t1, Thrown e2 t2 => e1 = e2 /\ R t1 t2
  | _, _ => False
  end.

(** A computation that keeps [R]. *)
Definition Respects (R : Tilemap -> Tilemap -> Prop) (m : M unit) : Prop :=
  forall t1 t2, R t1 t2 -> related_outcomes R (m t1) (m t2).

(** Both layers hold the same commands in the two objects. *)
Definition sameRects (t1 t2 : Tilemap) : Prop :=
  layer_rects (_lowerLayer t1) = layer_rects (_lowerLayer t2) /\
  layer_rects (_upperLayer t1) = layer_rects (_upperLayer t2).

(** [t2] is [t1] with the commands [E] inserted somewhere in the lower
    layer. *)
Definition stitched (E : list Rect) (t1 t2 : Tilemap) : Prop :=
  exists pre post,
    layer_rects (_lowerLayer t1) = pre ++ post /\
    t2 = setLayer LowerLayer
           (mkLayer (layer_z (_lowerLayer t1)) (layer_x (_lowerLayer t1))
              (layer_y (_lowerLayer t1)) (pre ++ E ++ post))
           t1.

(** [t'] is [t] up to its two layers. *)
Definition layersChanged (t t' : Tilemap) : Prop :=
  exists L U, t' = setLayer UpperLayer U (setLayer LowerLayer L t).

(** The four quarter-tile commands of one table entry: quarter [i] is read
    at quadrant [(bx * 2 + qsx, by * 2 + qsy)] of tileset [setNumber] and
    drawn at quarter [i] of the cell at [(dx, dy)], quadrants being 24
    pixels wide and high. *)
Definition quarterRects (setNumber bx by_ : Z) (entry : AutotileEntry)
  (dx dy : Z) : list Rect :=
  map (fun '(i, (qsx, qsy)) =>
         mkRect setNumber
           (Some ((bx * 2 + qsx) * 24)) (Some ((by_ * 2 + qsy) * 24))
           (dx + Z.rem i 2 * 24) (dy + i / 2 * 24) 24 24)
    (combine [0; 1; 2; 3] entry).

(** A map of one cell whose ground plane 0 holds the deep-water base tile,
    after the first [update]. *)
Definition deepWaterCell : Tilemap :=
  update (fun d => d)
    (setData 1 1 [TILE_ID_A1; 0; 0; 0; 0] (initialize 816 624)).

(** The table [_addAutotile] ends up reading for an id. *)
Definition selectedTable (t : Tilemap) (tileId : Z) : AutotileTable :=
  let '(_, _, _, autotileTable, _) := autotileSource t tileId in
  autotileTable.

(** A computation that never raises. *)
Definition completes (m : M unit) : Prop :=
  forall t, exists t', m t = Done tt t'.

(** [_addSpot] without its table-edge block: the normal expansion of a
    spot, with which the stitched one is compared. *)
Definition _addSpot_unstitched (startX startY x y : Z) : M unit :=
  withThis (fun t =>
    let mx := startX + x in
    let my := startY + y in
    let dx := x * _tileWidth in
    let dy := y * _tileHeight in
    let tileId0 := _readMapData t mx my 0 in
    let tileId1 := _readMapData t mx my 1 in
    let tileId2 := _readMapData t mx my 2 in
    let tileId3 := _readMapData t mx my 3 in
    let shadowBits := _readMapData t mx my 4 in
    _addSpotTile tileId0 dx dy ;;
    _addSpotTile tileId1 dx dy ;;
    _addShadow LowerLayer shadowBits dx dy ;;
    (if _isOverpassPosition t mx my then
       _addTile UpperLayer tileId2 dx dy ;;
       _addTile UpperLayer tileId3 dx dy
     else
       _addSpotTile tileId2 dx dy ;;
       _addSpotTile tileId3 dx dy)).

(** The two commands of a table edge: the quadrants 2 and 3 of the floor
    table entry of the table tile [tileId], read half a quadrant (12
    pixels) lower in tileset 1, half a quadrant high, and drawn on the top
    of the cell at [(dx, dy)]. *)
Definition tableEdgeRects (tileId dx dy : Z) : list Rect :=
  let kind := getAutotileKind tileId in
  let bx := Z.rem kind 8 * 2 in
  let by_ := (kind / 8 - 2) * 3 in
  match array_get FLOOR_AUTOTILE_TABLE (getAutotileShape tileId) with
  | Some [_; _; (qsx2, qsy2); (qsx3, qsy3)] =>
      [ mkRect 1 (Some ((bx * 2 + qsx2) * 24))
          (Some ((by_ * 2 + qsy2) * 24 + 12)) dx dy 24 12;
        mkRect 1 (Some ((bx * 2 + qsx3) * 24))
          (Some ((by_ * 2 + qsy3) * 24 + 12)) (dx + 24) dy 24 12 ]
  | _ => []
  end.

(** A map of one column and two rows: a table tile (A2, flag 0x80) on
    plane 1 of the upper cell, a plain A5 tile on plane 0 of the lower
    cell. *)
Definition tableAboveWalkway : Tilemap :=
  set_flags (repeat 0 2816 ++ [128])
    (update (fun d => d)
       (setData 1 2 [0; TILE_ID_A5; TILE_ID_A2; 0; 0; 0; 0; 0; 0; 0]
          (initialize 816 624))).

(** The condition under which [updateTransform] repaints: a refresh was
    requested, or the animation frame or the first visible column or row
    is not the one of the last repaint. *)
Definition repaintDue (t : Tilemap) : Prop :=
  _needsRepaint t = true \/
  _lastAnimationFrame t <> animationFrame t \/
  _lastStartX t <> Some (startXOf t) \/
  _lastStartY t <> Some (startYOf t).

(** The object with no command in its two layers. *)
Definition emptied (t : Tilemap) : Tilemap :=
  setLayer UpperLayer (Layer_clear (_upperLayer t))
    (setLayer LowerLayer (Layer_clear (_lowerLayer t)) t).

(** Same setting and same commands. *)
Definition sameDrawing (t1 t2 : Tilemap) : Prop :=
  sameSetting t1 t2 /\ sameRects t1 t2.

(** [t'] is a later state of [t0], and the second run is in step. *)
Definition laterOf (t0 t1 t2 : Tilemap) : Prop :=
  t1 = t2 /\ layersChanged t0 t1.

(** The object once [updateTransform] has placed its two layers. *)
Definition moveLayers (t : Tilemap) : Tilemap :=
  let ox := Qceiling (fst (origin t)) in
  let oy := Qceiling (snd (origin t)) in
  let x := startXOf t * _tileWidth - ox in
  let y := startYOf t * _tileHeight - oy in
  setLayer UpperLayer (Layer_setXY (_upperLayer t) x y)
    (setLayer LowerLayer (Layer_setXY (_lowerLayer t) x y) t).

(** A sprite: a child that carries its insertion number. *)
Definition sprite (z y spriteId : Z) : Drawable :=
  mkDrawable z y (Some spriteId).

(** The order by z, then y, then insertion number. *)
Definition drawnBefore (a b : Drawable) : Prop :=
  child_z a < child_z b \/
  (child_z a = child_z b /\
   (child_y a < child_y b \/
    (child_y a = child_y b /\
     match child_spriteId a, child_spriteId b with
     | Some i, Some j => i < j
     | _, _ => False
     end))).

Definition drawnNotAfter (a b : Drawable) : Prop :=
  drawnBefore a b \/ a = b.

Definition hasSpriteId (a : Drawable) : Prop :=
  exists i, child_spriteId a = Some i.

(** The comparison that [_sortChildren] hands to the sort. *)
Definition compareChildren (t : Tilemap) (a b : Child) : jsnum :=
  _compareChildOrder (drawableOf t a) (drawableOf t b).

(** The children in the order by z, then y, then insertion number. *)
Definition childOrder (t : Tilemap) (a b : Child) : Prop :=
  drawnNotAfter (drawableOf t a) (drawableOf t b).

(** The result of a comparison as the sort reads it: [NaN] counts as 0. *)
Definition sortCompare {A : Type} (comparefn : A -> A -> jsnum) (a b : A)
  : Z :=
  match comparefn a b with
  | Some v => v
  | None => 0
  end.

(** [a] may stay before [b]: the comparison is not positive. *)
Definition keptBefore {A : Type} (comparefn : A -> A -> jsnum) (a b : A)
  : Prop :=
  sort_keeps comparefn a b = true.

(** A comparison that is consistent on the elements of [l], in the words
    of the language: every element equals itself; equality is symmetric,
    less and greater mirror each other; equal, less and greater are each
    transitive. *)
Definition consistentOn {A : Type} (comparefn : A -> A -> jsnum)
  (l : list A) : Prop :=
  forall a b c, In a l -> In b l -> In c l ->
    sortCompare comparefn a a = 0 /\
    (sortCompare comparefn a b = 0 -> sortCompare comparefn b a = 0) /\
    (sortCompare comparefn a b < 0 -> 0 < sortCompare comparefn b a) /\
    (0 < sortCompare comparefn a b -> sortCompare comparefn b a < 0) /\
    (sortCompare comparefn a b = 0 -> sortCompare comparefn b c = 0 ->
     sortCompare comparefn a c = 0) /\
    (sortCompare comparefn a b < 0 -> sortCompare comparefn b c < 0 ->
     sortCompare comparefn a c < 0) /\
    (0 < sortCompare comparefn a b -> 0 < sortCompare comparefn b c ->
     0 < sortCompare comparefn a c).

(** What is asked of the sort of the engine: it returns the elements it
    was given, each as many times; and when the comparison, as the sort
    reads it, is consistent on them, no element comes before one that the
    comparison puts before it.  When the comparison is not consistent, the
    order is the engine's own. *)
Definition sortContract (sort : Sorter) : Prop :=
  forall (A : Type) (comparefn : A -> A -> jsnum) (l : list A),
    Permutation l (sort A comparefn l) /\
    (consistentOn comparefn l ->
     StronglySorted (keptBefore comparefn) (sort A comparefn l)).

(** No child without sprite id (a layer) is at the z and y of a child with
    one: the comparison of two children is then [NaN] only between two
    children without sprite id at the same z and y. *)
Definition tiesAlike (t : Tilemap) : Prop :=
  forall a b, In a (children t) -> In b (children t) ->
    child_z (drawableOf t a) = child_z (drawableOf t b) ->
    child_y (drawableOf t a) = child_y (drawableOf t b) ->
    (child_spriteId (drawableOf t a) = None <->
     child_spriteId (drawableOf t b) = None).

(** A new tilemap with three sprites added between and around its two
    layers (the lower one at z = 0, the upper one at z = 4, both at
    y = 0). *)
Definition spritesAmongLayers : Tilemap :=
  set_children
    [SpriteChild (sprite 3 7 2); UpperLayerChild; SpriteChild (sprite 1 5 1);
     LowerLayerChild; SpriteChild (sprite 1 5 0)]
    (initialize 816 624).

(** A new tilemap with two sprites at the z and y of its lower layer, the
    layer between them. *)
Definition layerBetweenSprites : Tilemap :=
  set_children
    [SpriteChild (sprite 0 0 1); LowerLayerChild; SpriteChild (sprite 0 0 0)]
    (initialize 816 624).

(** ** Notions used in the further properties *)

(** The three autotile types, at one id. *)
Definition type_tests (t : Z) : list bool :=
  [isFloorTypeAutotile t; isWallTypeAutotile t; isWaterfallTypeAutotile t].

(** A command that draws inside the cell whose corner is [(dx, dy)]. *)
Definition inCell (dx dy : Z) (r : Rect) : Prop :=
  0 < rect_w r /\ 0 < rect_h r /\
  dx <= rect_dx r /\ rect_dx r + rect_w r <= dx + _tileWidth /\
  dy <= rect_dy r /\ rect_dy r + rect_h r <= dy + _tileHeight.

(** The object with [lo] added to the lower layer and [up] to the upper
    one. *)
Definition appendBoth (lo up : list Rect) (t : Tilemap) : Tilemap :=
  appendRects UpperLayer up (appendRects LowerLayer lo t).

(** A computation that does nothing but add commands that satisfy [P] to
    the two layers, whether it completes or raises. *)
Definition appendsOnly (P : Rect -> Prop) (m : M unit) : Prop :=
  forall t, exists lo up,
    Forall P lo /\ Forall P up /\
    (m t = Done tt (appendBoth lo up t) \/
     m t = Thrown TypeError (appendBoth lo up t)).

(** The numbers of columns and rows that [_addAllSpots] expands. *)
Definition tileColsOf (t : Tilemap) : Z :=
  ceil_div (_width t + _margin * 2) _tileWidth + 1.

Definition tileRowsOf (t : Tilemap) : Z :=
  ceil_div (_height t + _margin * 2) _tileHeight + 1.

(** A command that draws inside one of the cells of the window. *)
Definition inWindow (t : Tilemap) (r : Rect) : Prop :=
  exists x y,
    0 <= x < tileColsOf t /\ 0 <= y < tileRowsOf t /\
    inCell (x * _tileWidth) (y * _tileHeight) r.

(** The flat overlay that [_addShadow] draws on quarter [i] of the cell
    at [(dx, dy)]. *)
Definition shadowRect (dx dy i : Z) : Rect :=
  mkRect (-1) (Some 0) (Some 0) (dx + Z.rem i 2 * 24) (dy + i / 2 * 24) 24 24.

(** The quadrant of a floor entry that a table tile draws twice. *)
Definition isLipQuadrant (q : Z * Z) : bool :=
  (snd q =? 1) || (snd q =? 5).

(** The flat index of the cell [(x, y)] of plane [z], as [_readMapData]
    computes it. *)
Definition cellIndex (t : Tilemap) (x y z : Z) : Z :=
  (z * _mapHeight t + y) * _mapWidth t + x.

(** The place of a layer among the children and on the screen. *)
Definition samePlace (l1 l2 : Layer) : Prop :=
  layer_z l1 = layer_z l2 /\ layer_x l1 = layer_x l2 /\
  layer_y l1 = layer_y l2.

(** The two runs are in step and the layers are where they are in [t0]. *)
Definition placedAs (t0 t1 t2 : Tilemap) : Prop :=
  t1 = t2 /\
  samePlace (_lowerLayer t0) (_lowerLayer t1) /\
  samePlace (_upperLayer t0) (_upperLayer t1).

(** ** Tileset bitmaps *)

(** Modelled from the spec: [Bitmap] (imported from another module, absent
    here) is an image resource that "exposes [isReady(): bool] and
    [onLoad(callback)]": whether it is loaded, and how many load listeners
    [addLoadListener] has registered on it. *)
Record Bitmap : Type := mkBitmap {
  bitmap_isReady : bool;
  bitmap_loadListeners : nat
}.

(** Modelled from the spec: [Bitmap.prototype.addLoadListener] registers
    one more listener. *)
Definition addLoadListener (b : Bitmap) : Bitmap :=
  mkBitmap (bitmap_isReady b) (S (bitmap_loadListeners b)).

(** The tilemap with the properties that [setBitmaps] and
    [_updateBitmaps] use: the array [_bitmaps], whose elements may be
    missing, the switch [_needsBitmapsUpdate] ([undefined] counts as
    false), and the bitmaps that the lower layer was given by
    [this._lowerLayer.setBitmaps]. *)
Record TilemapWithBitmaps : Type := mkTilemapWithBitmaps {
  tilemap : Tilemap;
  _bitmaps : list (option Bitmap);
  _needsBitmapsUpdate : bool;
  layerBitmaps : list (option Bitmap)
}.

Inductive BitmapsOutcome : Type :=
| BitmapsDone (s : TilemapWithBitmaps)
| BitmapsThrown (e : JsError) (s : TilemapWithBitmaps).

(** [isReady]: a missing bitmap is passed over. *)
Definition isReady (s : TilemapWithBitmaps) : bool :=
  forallb
    (fun bitmap =>
       match bitmap with
       | Some b => bitmap_isReady b
       | None => true
       end)
    (_bitmaps s).

Definition _updateBitmaps (s : TilemapWithBitmaps) : TilemapWithBitmaps :=
  if _needsBitmapsUpdate s && isReady s then
    mkTilemapWithBitmaps (set_needsRepaint true (tilemap s)) (_bitmaps s)
      false (_bitmaps s)
  else s.

(** The loop of [setBitmaps]: each bitmap that is not ready gets the
    listener; [bitmap.isReady()] on a missing bitmap raises a [TypeError],
    the bitmaps before it having got theirs.  The result is the array
    after the loop and whether it raised. *)
Fixpoint listenToBitmaps (bitmaps : list (option Bitmap))
  : list (option Bitmap) * bool :=
  match bitmaps with
  | [] => ([], false)
  | None :: rest => (None :: rest, true)
  | Some b :: rest =>
      let b' := if negb (bitmap_isReady b) then addLoadListener b else b in
      let (rest', raised) := listenToBitmaps rest in
      (Some b' :: rest', raised)
  end.

Definition setBitmaps (bitmaps : list (option Bitmap))
  (s : TilemapWithBitmaps) : BitmapsOutcome :=
  let (listened, raised) := listenToBitmaps bitmaps in
  let s1 :=
    mkTilemapWithBitmaps (tilemap s) listened (_needsBitmapsUpdate s)
      (layerBitmaps s) in
  if raised then BitmapsThrown TypeError s1
  else
    BitmapsDone
      (_updateBitmaps
         (mkTilemapWithBitmaps (tilemap s1) (_bitmaps s1) true
            (layerBitmaps s1))).

(** [new Tilemap()]: no bitmap yet. *)
Definition initializeWithBitmaps (graphicsWidth graphicsHeight : Z)
  : TilemapWithBitmaps :=
  mkTilemapWithBitmaps (initialize graphicsWidth graphicsHeight) [] false [].

(** A bitmap finishes loading; its listeners are then called. *)
Definition loaded (b : option Bitmap) : option Bitmap :=
  option_map (fun b => mkBitmap true (bitmap_loadListeners b)) b.

(** * Properties *)

(** ** Tactics *)

(** Settles each integer comparison of the goal that [lia] decides. *)
Ltac settle_comparisons :=
  repeat match goal with
  | |- context [?a >=? ?b] => rewrite (Z.geb_leb a b)
  | |- context [?a >? ?b] => rewrite (Z.gtb_ltb a b)
  | |- context [?a <? ?b] =>
      first
        [ replace (a <? b) with true by (symmetry; apply Z.ltb_lt; lia)
        | replace (a <? b) with false by (symmetry; apply Z.ltb_ge; lia) ]
  | |- context [?a <=? ?b] =>
      first
        [ replace (a <=? b) with true by (symmetry; apply Z.leb_le; lia)
        | replace (a <=? b) with false by (symmetry; apply Z.leb_gt; lia) ]
  | |- context [?a =? ?b] =>
      first
        [ replace (a =? b) with true by (symmetry; apply Z.eqb_eq; lia)
        | replace (a =? b) with false by (symmetry; apply Z.eqb_neq; lia) ]
  end.

Ltac unfold_banks :=
  unfold isVisibleTile, isAutotile, isTileA1, isTileA2, isTileA3, isTileA4,
    isTileA5, TILE_ID_A1, TILE_ID_A2, TILE_ID_A3, TILE_ID_A4, TILE_ID_A5,
    TILE_ID_MAX in *.

(** ** Autotile tables *)

Lemma coordinates_withinb_spec (bound : Z) (table : AutotileTable) :
  coordinates_withinb bound table = true <-> coordinates_within bound table.
Proof.
  unfold coordinates_withinb, coordinates_within.
  rewrite forallb_forall, Forall_forall.
  split; intros H e He; specialize (H e He).
  - rewrite forallb_forall in H. apply Forall_forall. intros p Hp.
    specialize (H p Hp).
    rewrite !andb_true_iff, !Z.leb_le in H. lia.
  - rewrite Forall_forall in H. apply forallb_forall. intros p Hp.
    specialize (H p Hp).
    rewrite !andb_true_iff, !Z.leb_le. lia.
Qed.

Lemma entries_have_4_pairs :
  Forall (fun e => length e = 4%nat)
    (FLOOR_AUTOTILE_TABLE ++ WALL_AUTOTILE_TABLE ++ WATERFALL_AUTOTILE_TABLE).
Proof.
  apply Forall_forall. intros e He.
  assert (Hb : forallb (fun e => Nat.eqb (length e) 4)
                 (FLOOR_AUTOTILE_TABLE ++ WALL_AUTOTILE_TABLE
                    ++ WATERFALL_AUTOTILE_TABLE) = true)
    by (vm_compute; reflexivity).
  rewrite forallb_forall in Hb. apply Nat.eqb_eq, Hb, He.
Qed.

(** C4, as the tables are: the floor table has 48 entries, the wall table
    16 and the waterfall table 4; every entry of each table has 4
    coordinate pairs; every coordinate of the floor table is an integer in
    the range 0 to 5, and 5 occurs. *)
Theorem autotile_tables_shape :
  length FLOOR_AUTOTILE_TABLE = 48%nat /\
  length WALL_AUTOTILE_TABLE = 16%nat /\
  length WATERFALL_AUTOTILE_TABLE = 4%nat /\
  Forall (fun e => length e = 4%nat)
    (FLOOR_AUTOTILE_TABLE ++ WALL_AUTOTILE_TABLE ++ WATERFALL_AUTOTILE_TABLE) /\
  coordinates_within 5 FLOOR_AUTOTILE_TABLE /\
  In (2, 5) (concat FLOOR_AUTOTILE_TABLE).
Proof.
  repeat split.
  - exact entries_have_4_pairs.
  - apply coordinates_withinb_spec. vm_compute. reflexivity.
  - apply in_concat. exists [(2, 4); (1, 4); (2, 5); (1, 5)]. split.
    + apply (nth_error_In FLOOR_AUTOTILE_TABLE 28). reflexivity.
    + simpl. tauto.
Qed.

(** C4, as the claim words it: the coordinates of the floor table do not
    stay in the range 0 to 4, entry 28 holding [[2, 5]]. *)
Lemma floor_table_exceeds_4 :
  nth_error FLOOR_AUTOTILE_TABLE 28 = Some [(2, 4); (1, 4); (2, 5); (1, 5)] /\
  ~ coordinates_within 4 FLOOR_AUTOTILE_TABLE.
Proof.
  split; [reflexivity |].
  intros H. apply coordinates_withinb_spec in H.
  vm_compute in H. discriminate H.
Qed.

(** ** Tile classification *)

(** Up to 2^53 in magnitude nothing is rounded. *)
Lemma roundToDouble_exact (z : Z) :
  - 9007199254740992 <= z <= 9007199254740992 -> roundToDouble z = z.
Proof.
  intros H. unfold roundToDouble.
  replace (Z.abs z <=? 9007199254740992) with true; [reflexivity |].
  symmetry. apply Z.leb_le. lia.
Qed.

(** Past 2^53 a double is an even integer. *)
Lemma roundToDouble_large (z : Z) :
  9007199254740992 < z ->
  9007199254740992 <= roundToDouble z /\ Z.even (roundToDouble z) = true.
Proof.
  intros H. unfold roundToDouble. rewrite (Z.abs_eq z) by lia.
  replace (z <=? 9007199254740992) with false
    by (symmetry; apply Z.leb_gt; lia).
  cbv zeta. rewrite Z.sgn_pos by lia. rewrite Z.mul_1_l.
  assert (Hlog : 53 <= Z.log2 z).
  { change 53 with (Z.log2 9007199254740992). apply Z.log2_le_mono. lia. }
  set (e := Z.log2 z - 52).
  assert (He : 1 <= e) by (subst e; lia).
  assert (Hpow : 2 <= 2 ^ e).
  { change 2 with (2 ^ 1) at 1. apply Z.pow_le_mono_r; lia. }
  assert (Hq : 2 ^ 52 <= z / 2 ^ e).
  { apply Z.div_le_lower_bound; [lia |].
    rewrite <- Z.pow_add_r by lia.
    replace (e + 52) with (Z.log2 z) by (subst e; lia).
    apply Z.log2_spec. lia. }
  set (q := z / 2 ^ e) in *.
  set (q' := if z - q * 2 ^ e <? 2 ^ (e - 1) then q
             else if 2 ^ (e - 1) <? z - q * 2 ^ e then q + 1
             else if Z.even q then q else q + 1).
  assert (Hq' : q <= q').
  { subst q'.
    destruct (z - q * 2 ^ e <? 2 ^ (e - 1)); [lia |].
    destruct (2 ^ (e - 1) <? z - q * 2 ^ e); [lia |].
    destruct (Z.even q); lia. }
  split.
  - change (2 ^ 52) with 4503599627370496 in Hq. nia.
  - rewrite Z.even_mul, (Z.even_pow 2 e) by lia. apply orb_true_r.
Qed.

Lemma roundToDouble_reaches (z : Z) :
  9007199254740992 <= z -> 9007199254740992 <= roundToDouble z.
Proof.
  intros H. destruct (Z.eq_dec z 9007199254740992) as [-> | Hne].
  - rewrite roundToDouble_exact; lia.
  - apply roundToDouble_large. lia.
Qed.

(** C6, as the code computes: [makeAutotileId] is inverted by
    [getAutotileKind] and [getAutotileShape] for every kind [k] from 0 to
    187649984473727, the kinds for which [2048 + 48 * k + 47] stays below
    2^53, and every shape [s] in [0, 48).  For every larger [k], up to
    2^53, the sum is rounded to an even number and the shape 1 is not
    given back. *)
Theorem autotile_id_roundtrip (k s : Z) :
  (0 <= k <= 187649984473727 -> 0 <= s < 48 ->
   getAutotileKind (makeAutotileId k s) = k /\
   getAutotileShape (makeAutotileId k s) = s) /\
  (187649984473727 < k <= 9007199254740992 ->
   getAutotileShape (makeAutotileId k 1) <> 1).
Proof.
  split.
  - intros Hk Hs.
    unfold getAutotileKind, getAutotileShape, makeAutotileId, TILE_ID_A1.
    rewrite (roundToDouble_exact (k * 48)) by lia.
    rewrite (roundToDouble_exact (2048 + k * 48)) by lia.
    rewrite (roundToDouble_exact (2048 + k * 48 + s)) by lia.
    replace (2048 + k * 48 + s - 2048) with (s + k * 48) by lia.
    split.
    + rewrite Z.div_add by lia. rewrite Z.div_small by lia. lia.
    + rewrite Z.rem_mod_nonneg by lia.
      rewrite Z.mod_add by lia. apply Z.mod_small. lia.
  - intros Hk Hshape.
    assert (Hsum : 9007199254740992
                   <= roundToDouble (TILE_ID_A1 + roundToDouble (k * 48))).
    { apply roundToDouble_reaches. unfold TILE_ID_A1.
      destruct (Z_le_gt_dec (k * 48) 9007199254740992) as [Hle | Hgt].
      - rewrite roundToDouble_exact by lia. lia.
      - pose proof (roundToDouble_large (k * 48)) as [Hr _]; lia. }
    destruct (roundToDouble_large
                (roundToDouble (TILE_ID_A1 + roundToDouble (k * 48)) + 1))
      as [Hbig Heven]; [lia |].
    fold (makeAutotileId k 1) in Hbig, Heven.
    unfold getAutotileShape, TILE_ID_A1 in Hshape.
    rewrite Z.rem_mod_nonneg in Hshape by lia.
    pose proof (Z.div_mod (makeAutotileId k 1 - 2048) 48) as Hdm.
    rewrite Hshape in Hdm.
    apply Z.even_spec in Heven. destruct Heven as [m Hm]. lia.
Qed.

Lemma autotile_id_roundtrip_witness :
  (getAutotileKind (makeAutotileId 17 47) = 17 /\
   getAutotileShape (makeAutotileId 17 47) = 47) /\
  getAutotileShape (makeAutotileId 187649984473728 1) <> 1.
Proof.
  split.
  - apply (autotile_id_roundtrip 17 47); lia.
  - apply (autotile_id_roundtrip 187649984473728 1). lia.
Defined.

(** C6, as the claim words it, for every [k >= 0]: at the kind
    187649984473728 the sum [2048 + 48 * k] is 2^53, adding the shape 1
    gives 2^53 again, and [getAutotileShape] returns 0. *)
Lemma autotile_id_roundtrip_fails_past_2_53 :
  makeAutotileId 187649984473728 1 = 9007199254740992 /\
  getAutotileKind (makeAutotileId 187649984473728 1) = 187649984473728 /\
  getAutotileShape (makeAutotileId 187649984473728 1) = 0 /\
  ~ (forall k s : Z,
       0 <= k -> 0 <= s < 48 ->
       getAutotileKind (makeAutotileId k s) = k /\
       getAutotileShape (makeAutotileId k s) = s).
Proof.
  split; [vm_compute; reflexivity |].
  split; [vm_compute; reflexivity |].
  split; [vm_compute; reflexivity |].
  intros H. destruct (H 187649984473728 1) as [_ Hshape]; [lia | lia |].
  vm_compute in Hshape. discriminate Hshape.
Qed.

(** C7: an id in [0, TILE_ID_MAX), and so every visible id, satisfies
    exactly one of [isTileA1], ..., [isTileA5] and "below [TILE_ID_A5]"
    (a simple bank); no id at all satisfies two of them; and the
    boundaries are in the order A5 < A1 < A2 < A3 < A4 < MAX. *)
Theorem bank_predicates_partition (t : Z) :
  (isVisibleTile t = true ->
   count_true (bank_tests t) = 1%nat) /\
  (0 <= t < TILE_ID_MAX ->
   count_true (bank_tests t) = 1%nat) /\
  (count_true (bank_tests t) <= 1)%nat /\
  TILE_ID_A5 < TILE_ID_A1 < TILE_ID_A2 /\
  TILE_ID_A2 < TILE_ID_A3 < TILE_ID_A4 /\
  TILE_ID_A4 < TILE_ID_MAX.
Proof.
  assert (Hin : 0 <= t < TILE_ID_MAX ->
    count_true (bank_tests t) = 1%nat).
  { unfold bank_tests. unfold_banks. intros Ht.
    assert (Hcase : t < 1536 \/ 1536 <= t < 2048 \/ 2048 <= t < 2816 \/
                    2816 <= t < 4352 \/ 4352 <= t < 5888 \/ 5888 <= t < 8192)
      by lia.
    destruct Hcase as [H | [H | [H | [H | [H | H]]]]];
      settle_comparisons; reflexivity. }
  split; [| split; [exact Hin | split; [| unfold_banks; lia]]].
  - intros Hv. apply Hin. unfold_banks.
    apply andb_true_iff in Hv. destruct Hv as [H1 H2].
    rewrite Z.gtb_ltb in H1. apply Z.ltb_lt in H1. apply Z.ltb_lt in H2. lia.
  - destruct (Z.lt_ge_cases t 0) as [Hneg | Hpos].
    + unfold bank_tests. unfold_banks. settle_comparisons. vm_compute. lia.
    + destruct (Z.lt_ge_cases t TILE_ID_MAX) as [Hlt | Hge].
      * rewrite Hin by lia. lia.
      * unfold bank_tests. unfold_banks. settle_comparisons. vm_compute. lia.
Qed.

Lemma bank_predicates_partition_witness :
  count_true (bank_tests 3000) = 1%nat /\
  count_true (bank_tests 0) = 1%nat.
Proof.
  split.
  - apply (proj1 (bank_predicates_partition 3000)). reflexivity.
  - apply (proj1 (proj2 (bank_predicates_partition 0))).
    unfold TILE_ID_MAX. lia.
Defined.

(** ** Map reads *)

(** C2: with [horizontalWrap] set the column is reduced by the true
    modulo of the map width, so that with a width of 10 column -1 reads as
    column 9 and column 10 as column 0, on every row and plane (and the
    same for rows under [verticalWrap]); with a wrap flag off, a coordinate
    outside the map on that axis reads 0 on every plane. *)
Theorem readMapData_wrap_and_bounds (t : Tilemap) (x y z : Z) :
  (horizontalWrap t = true -> 0 < _mapWidth t ->
   0 <= x mod _mapWidth t < _mapWidth t /\
   _readMapData t x y z = _readMapData t (x mod _mapWidth t) y z) /\
  (horizontalWrap t = true -> _mapWidth t = 10 ->
   _readMapData t (-1) y z = _readMapData t 9 y z /\
   _readMapData t 10 y z = _readMapData t 0 y z) /\
  (verticalWrap t = true -> 0 < _mapHeight t ->
   0 <= y mod _mapHeight t < _mapHeight t /\
   _readMapData t x y z = _readMapData t x (y mod _mapHeight t) z) /\
  (horizontalWrap t = false -> ~ 0 <= x < _mapWidth t ->
   _readMapData t x y z = 0) /\
  (verticalWrap t = false -> ~ 0 <= y < _mapHeight t ->
   _readMapData t x y z = 0).
Proof.
  unfold _readMapData, Number_mod.
  split; [| split; [| split; [| split]]].
  - intros Hw Hpos. split; [apply Z.mod_pos_bound; exact Hpos |].
    rewrite Hw. destruct (_mapData t); [| reflexivity].
    rewrite Z.mod_mod by lia. reflexivity.
  - intros Hw H10. rewrite Hw, H10.
    destruct (_mapData t); split; reflexivity.
  - intros Hw Hpos. split; [apply Z.mod_pos_bound; exact Hpos |].
    rewrite Hw. destruct (_mapData t); [| reflexivity].
    rewrite Z.mod_mod by lia. reflexivity.
  - intros Hw Hout. rewrite Hw. destruct (_mapData t); [| reflexivity].
    replace ((x >=? 0) && (x <? _mapWidth t)) with false; [reflexivity |].
    symmetry. apply andb_false_iff. rewrite Z.geb_leb.
    rewrite Z.leb_gt, Z.ltb_ge. lia.
  - intros Hw Hout. rewrite Hw. destruct (_mapData t); [| reflexivity].
    match goal with
    | |- (if ?a && ?b && ?c && ?d then _ else _) = _ =>
        replace (a && b && c && d) with false; [reflexivity |]
    end.
    symmetry. rewrite <- andb_assoc. apply andb_false_iff. right.
    apply andb_false_iff. rewrite Z.geb_leb.
    rewrite Z.leb_gt, Z.ltb_ge. lia.
Qed.

Lemma readMapData_wrap_and_bounds_witness :
  (_readMapData loopingRow (-1) 0 3 = 40 /\
   _readMapData loopingRow 9 0 3 = 40 /\
   _readMapData loopingRow 10 0 3 = _readMapData loopingRow 0 0 3) /\
  _readMapData loopingRow (-13) 0 2 = _readMapData loopingRow 7 0 2 /\
  _readMapData (set_wrap false true plainRow) 4 5 1 =
    _readMapData (set_wrap false true plainRow) 4 0 1 /\
  _readMapData plainRow (-1) 0 3 = 0 /\
  _readMapData plainRow 4 1 3 = 0.
Proof.
  split; [| split; [| split; [| split]]].
  - destruct (readMapData_wrap_and_bounds loopingRow 0 0 3)
      as (_ & H & _).
    destruct (H eq_refl eq_refl) as [H9 H10].
    split; [rewrite H9; reflexivity | split; [reflexivity | exact H10]].
  - destruct (readMapData_wrap_and_bounds loopingRow (-13) 0 2)
      as (H & _).
    apply (H eq_refl). simpl. lia.
  - destruct (readMapData_wrap_and_bounds (set_wrap false true plainRow)
                4 5 1) as (_ & _ & H & _).
    apply (H eq_refl). simpl. lia.
  - destruct (readMapData_wrap_and_bounds plainRow (-1) 0 3)
      as (_ & _ & _ & H & _).
    apply (H eq_refl). simpl. lia.
  - destruct (readMapData_wrap_and_bounds plainRow 4 1 3)
      as (_ & _ & _ & _ & H).
    apply (H eq_refl). simpl. lia.
Defined.

(** C10: while [_mapData] is [null], [_readMapData] returns 0 at every
    coordinate and plane whatever the wrap flags are; this is the state of
    a tilemap that [initialize] has just built. *)
Theorem readMapData_without_data (t : Tilemap) (x y z : Z) :
  (_mapData t = None -> _readMapData t x y z = 0) /\
  (forall graphicsWidth graphicsHeight : Z,
     _mapData (initialize graphicsWidth graphicsHeight) = None /\
     _readMapData (initialize graphicsWidth graphicsHeight) x y z = 0).
Proof.
  split.
  - intros Hnull. unfold _readMapData. rewrite Hnull. reflexivity.
  - intros gw gh. split; reflexivity.
Qed.

Lemma readMapData_without_data_witness :
  _readMapData (set_wrap true true (initialize 816 624)) (-7) 1000 4 = 0.
Proof.
  apply (proj1 (readMapData_without_data
                  (set_wrap true true (initialize 816 624)) (-7) 1000 4)).
  reflexivity.
Defined.

(** ** Running computations *)

Lemma array_get_nil {A : Type} (i : Z) : array_get (@nil A) i = None.
Proof.
  unfold array_get. destruct (i <? 0); [reflexivity |].
  destruct (Z.to_nat i); reflexivity.
Qed.

Lemma array_get_Some_iff {A : Type} (l : list A) (i : Z) :
  (exists v, array_get l i = Some v) <-> 0 <= i < Z.of_nat (length l).
Proof.
  unfold array_get. destruct (Z.ltb_spec i 0) as [Hneg | Hpos].
  - split; [intros [v Hv]; discriminate Hv | lia].
  - split.
    + intros [v Hv].
      assert (Hlt : (Z.to_nat i < length l)%nat)
        by (apply nth_error_Some; rewrite Hv; discriminate).
      lia.
    + intros Hi.
      destruct (nth_error l (Z.to_nat i)) as [v |] eqn:Hv;
        [exists v; reflexivity |].
      apply nth_error_None in Hv. lia.
Qed.

Lemma forRange_4 (body : Z -> M unit) :
  forRange 4 body = (body 0 ;; body 1 ;; body 2 ;; body 3 ;; ret tt).
Proof. reflexivity. Qed.

Lemma forRange_2 (body : Z -> M unit) :
  forRange 2 body = (body 0 ;; body 1 ;; ret tt).
Proof. reflexivity. Qed.

Lemma appendRects_app (layer : LayerRef) (a b : list Rect) (t : Tilemap) :
  appendRects layer b (appendRects layer a t) = appendRects layer (a ++ b) t.
Proof.
  destruct layer; unfold appendRects; simpl; rewrite <- app_assoc;
    reflexivity.
Qed.

Lemma addRect_run (layer : LayerRef) (r : Rect) (t : Tilemap) :
  addRect layer r t = Done tt (appendRects layer [r] t).
Proof. reflexivity. Qed.

Lemma addRect_bind (layer : LayerRef) (r : Rect) (k : unit -> M unit)
  (t : Tilemap) :
  bind (addRect layer r) k t = k tt (appendRects layer [r] t).
Proof. reflexivity. Qed.

Lemma bind_Done {A B : Type} (m : M A) (k : A -> M B) (t t' : Tilemap)
  (a : A) :
  m t = Done a t' -> bind m k t = k a t'.
Proof. intros H. unfold bind. rewrite H. reflexivity. Qed.

Lemma bind_Thrown {A B : Type} (m : M A) (k : A -> M B) (t t' : Tilemap)
  (e : JsError) :
  m t = Thrown e t' -> bind m k t = Thrown e t'.
Proof. intros H. unfold bind. rewrite H. reflexivity. Qed.

Lemma bind_Done_inv {A B : Type} (m : M A) (k : A -> M B) (t t' : Tilemap)
  (b : B) :
  bind m k t = Done b t' ->
  exists a s, m t = Done a s /\ k a s = Done b t'.
Proof.
  unfold bind. destruct (m t) as [a s | e s]; [| discriminate].
  intros H. exists a, s. split; [reflexivity | exact H].
Qed.

(** Evaluates the array reads at known indices. *)
Ltac eval_array_get :=
  repeat match goal with
  | |- context [array_get ?l ?i] =>
      let v := eval vm_compute in (array_get l i) in
      change (array_get l i) with v
  end.

(** ** Computations that keep a relation between two objects *)

Section Respects.

Variable R : Tilemap -> Tilemap -> Prop.

Hypothesis R_setting : forall t1 t2, R t1 t2 -> sameSetting t1 t2.

Hypothesis R_addRect :
  forall layer r t1 t2,
    R t1 t2 -> R (appendRects layer [r] t1) (appendRects layer [r] t2).

Lemma respects_ret : Respects R (ret tt).
Proof. intros t1 t2 H. exact H. Qed.

Lemma respects_throw (e : JsError) : Respects R (throw e).
Proof. intros t1 t2 H. split; [reflexivity | exact H]. Qed.

Lemma respects_addRect (layer : LayerRef) (r : Rect) :
  Respects R (addRect layer r).
Proof. intros t1 t2 H. rewrite !addRect_run. apply R_addRect, H. Qed.

Lemma respects_bind (m : M unit) (k : unit -> M unit) :
  Respects R m -> (forall u, Respects R (k u)) -> Respects R (bind m k).
Proof.
  intros Hm Hk t1 t2 H. specialize (Hm t1 t2 H). unfold bind.
  destruct (m t1) as [[] s1 | e1 s1], (m t2) as [[] s2 | e2 s2];
    simpl in Hm; try contradiction.
  - apply Hk, Hm.
  - exact Hm.
Qed.

Lemma respects_forEach {A : Type} (l : list A) (body : A -> M unit) :
  (forall a, Respects R (body a)) -> Respects R (forEach l body).
Proof.
  intros Hbody. induction l as [| a l IH]; simpl.
  - apply respects_ret.
  - apply respects_bind; [apply Hbody | intros _; exact IH].
Qed.

Lemma respects_forRange (n : Z) (body : Z -> M unit) :
  (forall i, Respects R (body i)) -> Respects R (forRange n body).
Proof. intros Hbody. apply respects_forEach, Hbody. Qed.

Lemma respects_withThis (f : Tilemap -> M unit) :
  (forall t0, Respects R (f t0)) ->
  (forall t1 t2, sameSetting t1 t2 -> f t1 = f t2) ->
  Respects R (withThis f).
Proof.
  intros Hf Hsame t1 t2 H. unfold withThis.
  rewrite <- (Hsame t1 t2 (R_setting _ _ H)). apply Hf, H.
Qed.

Lemma isHigherTile_setting (t1 t2 : Tilemap) (tileId : Z) :
  sameSetting t1 t2 -> _isHigherTile t1 tileId = _isHigherTile t2 tileId.
Proof. intros []. unfold _isHigherTile. congruence. Qed.

Lemma isTableTile_setting (t1 t2 : Tilemap) (tileId : Z) :
  sameSetting t1 t2 -> _isTableTile t1 tileId = _isTableTile t2 tileId.
Proof. intros []. unfold _isTableTile. congruence. Qed.

Lemma readMapData_setting (t1 t2 : Tilemap) (x y z : Z) :
  sameSetting t1 t2 -> _readMapData t1 x y z = _readMapData t2 x y z.
Proof.
  intros [_ _ Hw Hh Hd _ _ Hhw Hvw]. unfold _readMapData.
  rewrite Hw, Hh, Hd, Hhw, Hvw. reflexivity.
Qed.

Lemma autotileSource_setting (t1 t2 : Tilemap) (tileId : Z) :
  sameSetting t1 t2 -> autotileSource t1 tileId = autotileSource t2 tileId.
Proof.
  intros Hs. unfold autotileSource.
  rewrite (isTableTile_setting t1 t2 tileId Hs).
  rewrite (same_animationFrame t1 t2 Hs). reflexivity.
Qed.

Lemma respects_addNormalTile (layer : LayerRef) (tileId dx dy : Z) :
  Respects R (_addNormalTile layer tileId dx dy).
Proof. apply respects_addRect. Qed.

Lemma respects_addAutotile (layer : LayerRef) (tileId dx dy : Z) :
  Respects R (_addAutotile layer tileId dx dy).
Proof.
  apply respects_withThis.
  - intros t0.
    destruct (autotileSource t0 tileId) as [[[[setNumber bx] by_] tbl] isT].
    apply respects_forRange. intros i.
    destruct (array_get tbl (getAutotileShape tileId)) as [entry |];
      [| apply respects_throw].
    destruct (array_get entry i) as [[qsx qsy] |]; [| apply respects_throw].
    destruct (isT && ((qsy =? 1) || (qsy =? 5))).
    + apply respects_bind; [| intros _]; apply respects_addRect.
    + apply respects_addRect.
  - intros t1 t2 Hs. rewrite (autotileSource_setting t1 t2 tileId Hs).
    reflexivity.
Qed.

Lemma respects_addTile (layer : LayerRef) (tileId dx dy : Z) :
  Respects R (_addTile layer tileId dx dy).
Proof.
  unfold _addTile. destruct (isVisibleTile tileId); [| apply respects_ret].
  destruct (isAutotile tileId);
    [apply respects_addAutotile | apply respects_addNormalTile].
Qed.

Lemma respects_addSpotTile (tileId dx dy : Z) :
  Respects R (_addSpotTile tileId dx dy).
Proof.
  apply respects_withThis.
  - intros t0. destruct (truthy (_isHigherTile t0 tileId));
      apply respects_addTile.
  - intros t1 t2 Hs. rewrite (isHigherTile_setting t1 t2 tileId Hs).
    reflexivity.
Qed.

Lemma respects_addShadow (layer : LayerRef) (shadowBits dx dy : Z) :
  Respects R (_addShadow layer shadowBits dx dy).
Proof.
  unfold _addShadow.
  destruct (truthy (Z.land shadowBits 15)); [| apply respects_ret].
  apply respects_forRange. intros i.
  destruct (truthy (Z.land shadowBits (Z.shiftl 1 i)));
    [apply respects_addRect | apply respects_ret].
Qed.

Lemma respects_addTableEdge (layer : LayerRef) (tileId dx dy : Z) :
  Respects R (_addTableEdge layer tileId dx dy).
Proof.
  unfold _addTableEdge. destruct (isTileA2 tileId); [| apply respects_ret].
  apply respects_forRange. intros i.
  destruct (array_get FLOOR_AUTOTILE_TABLE (getAutotileShape tileId))
    as [entry |]; [| apply respects_throw].
  destruct (array_get entry (2 + i)) as [[qsx qsy] |];
    [apply respects_addRect | apply respects_throw].
Qed.

Lemma respects_addSpot (startX startY x y : Z) :
  Respects R (_addSpot startX startY x y).
Proof.
  apply respects_withThis.
  - intros t0.
    repeat (apply respects_bind; [| intros _]);
      try apply respects_addSpotTile; try apply respects_addShadow.
    destruct (_isTableTile t0 _ && negb (_isTableTile t0 _));
      [| apply respects_ret].
    destruct (negb (isShadowingTile _));
      [apply respects_addTableEdge | apply respects_ret].
  - intros t1 t2 Hs. cbv beta zeta.
    rewrite !(readMapData_setting t1 t2) by exact Hs.
    rewrite !(isTableTile_setting t1 t2) by exact Hs.
    reflexivity.
Qed.

End Respects.

(** ** Expansion of one spot *)

Lemma isHigherTile_no_flags (t : Tilemap) (tileId : Z) :
  flags t = [] -> _isHigherTile t tileId = 0.
Proof.
  intros Hf. unfold _isHigherTile. rewrite Hf, array_get_nil. reflexivity.
Qed.

Lemma isTableTile_no_flags (t : Tilemap) (tileId : Z) :
  flags t = [] -> _isTableTile t tileId = false.
Proof.
  intros Hf. unfold _isTableTile. rewrite Hf, array_get_nil.
  apply andb_false_r.
Qed.

Lemma addSpotTile_invisible (t : Tilemap) (tileId dx dy : Z) :
  isVisibleTile tileId = false -> _addSpotTile tileId dx dy t = Done tt t.
Proof.
  intros Hv. unfold _addSpotTile, withThis, _addTile. rewrite Hv.
  destruct (truthy (_isHigherTile t tileId)); reflexivity.
Qed.

Lemma addShadow_none (t : Tilemap) (layer : LayerRef) (shadowBits dx dy : Z) :
  Z.land shadowBits 15 = 0 -> _addShadow layer shadowBits dx dy t = Done tt t.
Proof. intros Hs. unfold _addShadow. rewrite Hs. reflexivity. Qed.

Lemma addSpotTile_deep_water (t : Tilemap) (dx dy : Z) :
  flags t = [] -> animationFrame t = Some 0 ->
  _addSpotTile TILE_ID_A1 dx dy t =
  Done tt
    (appendRects LowerLayer
       (quarterRects 0 (0 * 2) 0 [(2, 4); (1, 4); (2, 3); (1, 3)] dx dy) t).
Proof.
  intros Hf Ha.
  unfold _addSpotTile, withThis. rewrite (isHigherTile_no_flags t _ Hf).
  cbn [truthy Z.eqb negb].
  unfold _addTile.
  change (isVisibleTile TILE_ID_A1) with true.
  change (isAutotile TILE_ID_A1) with true. cbv iota.
  unfold _addAutotile, withThis, autotileSource.
  change (isTileA1 TILE_ID_A1) with true.
  change (getAutotileKind TILE_ID_A1) with 0.
  change (getAutotileShape TILE_ID_A1) with 0.
  rewrite Ha. cbn -[forRange appendRects addRect bind array_get].
  eval_array_get. cbn -[forRange appendRects addRect bind array_get].
  rewrite forRange_4. eval_array_get. cbn -[appendRects addRect bind].
  rewrite !addRect_bind, !appendRects_app. reflexivity.
Qed.

(** C1: on a tilemap with no flags and animation frame 0, a cell whose
    ground plane 0 holds [TILE_ID_A1] (kind 0, shape 0) and whose other
    planes hold nothing to draw expands to exactly 4 quarter-tile commands,
    all in the lower layer: those of entry 0 of the floor table,
    [[2,4],[1,4],[2,3],[1,3]], at base offset [bx = waterSurfaceIndex * 2 = 0],
    [by = 0]. *)
Theorem addSpot_deep_water (t : Tilemap) (startX startY x y : Z) :
  let mx := startX + x in
  let my := startY + y in
  let dx := x * _tileWidth in
  let dy := y * _tileHeight in
  flags t = [] ->
  animationFrame t = Some 0 ->
  _readMapData t mx my 0 = TILE_ID_A1 ->
  isVisibleTile (_readMapData t mx my 1) = false ->
  isVisibleTile (_readMapData t mx my 2) = false ->
  isVisibleTile (_readMapData t mx my 3) = false ->
  Z.land (_readMapData t mx my 4) 15 = 0 ->
  getAutotileKind TILE_ID_A1 = 0 /\
  getAutotileShape TILE_ID_A1 = 0 /\
  array_get FLOOR_AUTOTILE_TABLE 0 = Some [(2, 4); (1, 4); (2, 3); (1, 3)] /\
  array_get [0; 1; 2; 1] (Z.rem 0 4) = Some 0 /\
  _addSpot startX startY x y t =
    Done tt
      (appendRects LowerLayer
         (quarterRects 0 (0 * 2) 0 [(2, 4); (1, 4); (2, 3); (1, 3)] dx dy)
         t) /\
  quarterRects 0 (0 * 2) 0 [(2, 4); (1, 4); (2, 3); (1, 3)] dx dy =
    [ mkRect 0 (Some 48) (Some 96) (dx + 0) (dy + 0) 24 24;
      mkRect 0 (Some 24) (Some 96) (dx + 24) (dy + 0) 24 24;
      mkRect 0 (Some 48) (Some 72) (dx + 0) (dy + 24) 24 24;
      mkRect 0 (Some 24) (Some 72) (dx + 24) (dy + 24) 24 24 ].
Proof.
  intros mx my dx dy Hf Ha H0 H1 H2 H3 H4.
  repeat (split; [reflexivity |]).
  split; [| reflexivity].
  unfold _addSpot, withThis. fold mx my dx dy. rewrite H0.
  rewrite (bind_Done _ _ _ _ _ (addSpotTile_deep_water t dx dy Hf Ha)).
  set (s := appendRects LowerLayer _ t).
  rewrite (bind_Done _ _ _ _ _ (addSpotTile_invisible s _ dx dy H1)).
  rewrite (bind_Done _ _ _ _ _ (addShadow_none s LowerLayer _ dx dy H4)).
  rewrite (isTableTile_no_flags t _ Hf). cbn [andb].
  rewrite (bind_Done _ _ s s tt) by reflexivity.
  cbn [_isOverpassPosition].
  rewrite (bind_Done _ _ _ _ _ (addSpotTile_invisible s _ dx dy H2)).
  apply addSpotTile_invisible, H3.
Qed.

Lemma addSpot_deep_water_witness :
  _addSpot 0 0 0 0 deepWaterCell =
    Done tt
      (appendRects LowerLayer
         [ mkRect 0 (Some 48) (Some 96) 0 0 24 24;
           mkRect 0 (Some 24) (Some 96) 24 0 24 24;
           mkRect 0 (Some 48) (Some 72) 0 24 24 24;
           mkRect 0 (Some 24) (Some 72) 24 24 24 24 ]
         deepWaterCell).
Proof.
  exact (proj1 (proj2 (proj2 (proj2 (proj2
    (addSpot_deep_water deepWaterCell 0 0 0 0
       eq_refl eq_refl eq_refl eq_refl eq_refl eq_refl eq_refl)))))).
Defined.

(** ** Completion of [_addTile] *)

Lemma completes_ret : completes (ret tt).
Proof. intros t. exists t. reflexivity. Qed.

Lemma completes_addRect (layer : LayerRef) (r : Rect) :
  completes (addRect layer r).
Proof. intros t. eexists. reflexivity. Qed.

Lemma completes_bind (m : M unit) (k : unit -> M unit) :
  completes m -> (forall u, completes (k u)) -> completes (bind m k).
Proof.
  intros Hm Hk t. destruct (Hm t) as [t1 H1]. destruct (Hk tt t1) as [t2 H2].
  exists t2. rewrite (bind_Done _ _ _ _ _ H1). exact H2.
Qed.

Lemma autotile_shape_range (tileId : Z) :
  isAutotile tileId = true -> 0 <= getAutotileShape tileId < 48.
Proof.
  unfold isAutotile, getAutotileShape, TILE_ID_A1. rewrite Z.geb_leb.
  intros H. apply Z.leb_le in H.
  rewrite Z.rem_mod_nonneg by lia. apply Z.mod_pos_bound. lia.
Qed.

Lemma selectedTable_cases (t : Tilemap) (tileId : Z) :
  selectedTable t tileId = FLOOR_AUTOTILE_TABLE \/
  selectedTable t tileId = WALL_AUTOTILE_TABLE \/
  selectedTable t tileId = WATERFALL_AUTOTILE_TABLE.
Proof.
  unfold selectedTable, autotileSource.
  repeat match goal with
  | |- context [if ?c then _ else _] => destruct c
  end; auto.
Qed.

Lemma selectedTable_entry_length (t : Tilemap) (tileId i : Z)
  (entry : AutotileEntry) :
  array_get (selectedTable t tileId) i = Some entry -> length entry = 4%nat.
Proof.
  unfold array_get. destruct (i <? 0); [discriminate |]. intros H.
  apply nth_error_In in H.
  pose proof entries_have_4_pairs as Hall. rewrite Forall_forall in Hall.
  apply Hall. rewrite !in_app_iff.
  destruct (selectedTable_cases t tileId) as [E | [E | E]];
    rewrite E in H; auto.
Qed.

Lemma addAutotile_undefined_entry (t : Tilemap) (layer : LayerRef)
  (tileId dx dy : Z) :
  array_get (selectedTable t tileId) (getAutotileShape tileId) = None ->
  _addAutotile layer tileId dx dy t = Thrown TypeError t.
Proof.
  unfold _addAutotile, withThis, selectedTable.
  destruct (autotileSource t tileId) as [[[[setNumber bx] by_] tbl] isT].
  intros H. rewrite H. reflexivity.
Qed.

Lemma addAutotile_defined_entry (t : Tilemap) (layer : LayerRef)
  (tileId dx dy : Z) (entry : AutotileEntry) :
  array_get (selectedTable t tileId) (getAutotileShape tileId) = Some entry ->
  exists t', _addAutotile layer tileId dx dy t = Done tt t'.
Proof.
  intros H. pose proof (selectedTable_entry_length _ _ _ _ H) as Hlen.
  revert H. unfold _addAutotile, withThis, selectedTable.
  destruct (autotileSource t tileId) as [[[[setNumber bx] by_] tbl] isT].
  intros H. rewrite H.
  destruct entry as [| [qx0 qy0] [| [qx1 qy1] [| [qx2 qy2] [| [qx3 qy3] [|]]]]];
    try discriminate Hlen.
  rewrite forRange_4. eval_array_get. cbv beta iota.
  repeat (apply completes_bind; [| intros _]);
    try apply completes_ret;
    match goal with
    | |- completes (if ?c then _ else _) => destruct c
    end;
    try apply completes_addRect;
    (apply completes_bind; [| intros _]); apply completes_addRect.
Qed.

Lemma selectedTable_by_type (t : Tilemap) (tileId : Z) :
  isAutotile tileId = true -> tileId < TILE_ID_MAX ->
  selectedTable t tileId =
    if isWallTypeAutotile tileId then WALL_AUTOTILE_TABLE
    else if isWaterfallTypeAutotile tileId then WATERFALL_AUTOTILE_TABLE
    else FLOOR_AUTOTILE_TABLE.
Proof.
  unfold isAutotile. rewrite Z.geb_leb. intros Hlo Hhi.
  apply Z.leb_le in Hlo.
  unfold selectedTable, autotileSource, isWallTypeAutotile,
    isWaterfallTypeAutotile, isWaterfallTile, isRoofTile, isWallSideTile.
  assert (Hcase : tileId < 2816 \/ 2816 <= tileId < 4352 \/
                  4352 <= tileId < 5888 \/ 5888 <= tileId < 8192)
    by (unfold TILE_ID_A1, TILE_ID_MAX in *; lia).
  unfold getAutotileKind. unfold_banks.
  set (k := (tileId - 2048) / 48).
  assert (Hk : 48 * k <= tileId - 2048 < 48 * k + 48)
    by (subst k; pose proof (Z.mod_pos_bound (tileId - 2048) 48);
        pose proof (Z.div_mod (tileId - 2048) 48); lia).
  destruct Hcase as [H | [H | [H | H]]].
  - (* A1 *)
    replace ((tileId >=? 2048) && (tileId <? 2816)) with true
      by (settle_comparisons; reflexivity).
    replace ((tileId >=? 4352) && (tileId <? 5888)) with false
      by (settle_comparisons; reflexivity).
    replace ((tileId >=? 5888) && (tileId <? 8192)) with false
      by (settle_comparisons; reflexivity).
    cbn [andb orb].
    destruct (Z.eqb_spec k 0);
      [replace ((tileId >=? 2048 + 192) && (tileId <? 2816)) with false
         by (settle_comparisons; reflexivity); reflexivity |].
    destruct (Z.eqb_spec k 1);
      [replace ((tileId >=? 2048 + 192) && (tileId <? 2816)) with false
         by (settle_comparisons; reflexivity); reflexivity |].
    destruct (Z.eqb_spec k 2);
      [replace ((tileId >=? 2048 + 192) && (tileId <? 2816)) with false
         by (settle_comparisons; reflexivity); reflexivity |].
    destruct (Z.eqb_spec k 3);
      [replace ((tileId >=? 2048 + 192) && (tileId <? 2816)) with false
         by (settle_comparisons; reflexivity); reflexivity |].
    replace ((tileId >=? 2048 + 192) && (tileId <? 2816)) with true
      by (settle_comparisons; reflexivity).
    rewrite (Z.rem_mod_nonneg k 2) by lia.
    destruct (Z.eqb_spec (k mod 2) 0) as [E | E];
      destruct (Z.eqb_spec (k mod 2) 1) as [E' | E']; try reflexivity;
      pose proof (Z.mod_pos_bound k 2); lia.
  - (* A2 *)
    replace ((tileId >=? 2048) && (tileId <? 2816)) with false
      by (settle_comparisons; reflexivity).
    replace ((tileId >=? 2816) && (tileId <? 4352)) with true
      by (settle_comparisons; reflexivity).
    replace ((tileId >=? 4352) && (tileId <? 5888)) with false
      by (settle_comparisons; reflexivity).
    replace ((tileId >=? 5888) && (tileId <? 8192)) with false
      by (settle_comparisons; reflexivity).
    replace ((tileId >=? 2048 + 192) && (tileId <? 2816)) with false
      by (settle_comparisons; reflexivity).
    reflexivity.
  - (* A3 *)
    replace ((tileId >=? 2048) && (tileId <? 2816)) with false
      by (settle_comparisons; reflexivity).
    replace ((tileId >=? 2816) && (tileId <? 4352)) with false
      by (settle_comparisons; reflexivity).
    replace ((tileId >=? 4352) && (tileId <? 5888)) with true
      by (settle_comparisons; reflexivity).
    cbn [andb orb]. rewrite Z.geb_leb.
    destruct (Z.ltb_spec (Z.rem k 16) 8);
      destruct (Z.leb_spec 8 (Z.rem k 16)); try reflexivity; lia.
  - (* A4 *)
    replace ((tileId >=? 2048) && (tileId <? 2816)) with false
      by (settle_comparisons; reflexivity).
    replace ((tileId >=? 2816) && (tileId <? 4352)) with false
      by (settle_comparisons; reflexivity).
    replace ((tileId >=? 4352) && (tileId <? 5888)) with false
      by (settle_comparisons; reflexivity).
    replace ((tileId >=? 5888) && (tileId <? 8192)) with true
      by (settle_comparisons; reflexivity).
    replace ((tileId >=? 2048 + 192) && (tileId <? 2816)) with false
      by (settle_comparisons; reflexivity).
    cbn [andb orb]. rewrite Z.geb_leb.
    rewrite (Z.rem_mod_nonneg k 16) by lia.
    rewrite (Z.rem_mod_nonneg (k / 8) 2)
      by (try apply Z.div_pos; lia).
    assert (Hodd : (k / 8) mod 2 = 1 <-> 8 <= k mod 16).
    { pose proof (Z.div_mod k 8). pose proof (Z.mod_pos_bound k 8).
      pose proof (Z.div_mod (k / 8) 2). pose proof (Z.mod_pos_bound (k / 8) 2).
      pose proof (Z.div_mod k 16). pose proof (Z.mod_pos_bound k 16).
      lia. }
    destruct (Z.eqb_spec ((k / 8) mod 2) 1) as [E | E];
      destruct (Z.leb_spec 8 (k mod 16)) as [E' | E']; try reflexivity;
      lia.
Qed.

(** C3, as the code behaves: for an id with [0 < tileId < TILE_ID_MAX],
    [_addTile] completes exactly when the id is not an autotile or its
    shape index is below the length of the table selected for it, which is
    the wall table (16 entries) for wall-type ids, the waterfall table
    (4 entries) for waterfall-type ids and the floor table (48 entries)
    otherwise; the shape index of an autotile lies in [0, 48), so
    floor-type ids always complete, and an id that does not complete
    raises a [TypeError] before any command is added. *)
Theorem addTile_completes_iff (t : Tilemap) (layer : LayerRef)
  (tileId dx dy : Z) :
  0 < tileId < TILE_ID_MAX ->
  ((exists t', _addTile layer tileId dx dy t = Done tt t') <->
   (isAutotile tileId = true ->
    getAutotileShape tileId < Z.of_nat (length (selectedTable t tileId)))) /\
  ((exists t', _addTile layer tileId dx dy t = Done tt t') \/
   _addTile layer tileId dx dy t = Thrown TypeError t) /\
  (isAutotile tileId = true ->
   0 <= getAutotileShape tileId < 48 /\
   selectedTable t tileId =
     if isWallTypeAutotile tileId then WALL_AUTOTILE_TABLE
     else if isWaterfallTypeAutotile tileId then WATERFALL_AUTOTILE_TABLE
     else FLOOR_AUTOTILE_TABLE).
Proof.
  intros Hid.
  assert (Hvis : isVisibleTile tileId = true).
  { unfold isVisibleTile. rewrite Z.gtb_ltb.
    apply andb_true_iff. split; apply Z.ltb_lt; lia. }
  unfold _addTile. rewrite Hvis.
  split; [| split].
  - destruct (isAutotile tileId) eqn:Hauto.
    + pose proof (autotile_shape_range tileId Hauto) as Hshape.
      destruct (array_get (selectedTable t tileId) (getAutotileShape tileId))
        as [entry |] eqn:Hentry.
      * split; [| intros _; eapply addAutotile_defined_entry; exact Hentry].
        intros _ _.
        apply (array_get_Some_iff (selectedTable t tileId)).
        exists entry. exact Hentry.
      * rewrite (addAutotile_undefined_entry _ _ _ _ _ Hentry).
        split; [intros [t' H]; discriminate H |].
        intros H. specialize (H eq_refl).
        assert (Hsome : exists v,
                   array_get (selectedTable t tileId)
                     (getAutotileShape tileId) = Some v)
          by (apply array_get_Some_iff; lia).
        destruct Hsome as [v Hv]. congruence.
    + split; [intros _ H; discriminate H |].
      intros _. apply completes_addRect.
  - destruct (isAutotile tileId) eqn:Hauto.
    + destruct (array_get (selectedTable t tileId) (getAutotileShape tileId))
        as [entry |] eqn:Hentry.
      * left. eapply addAutotile_defined_entry. exact Hentry.
      * right. apply addAutotile_undefined_entry, Hentry.
    + left. apply completes_addRect.
  - intros Hauto. split; [apply autotile_shape_range, Hauto |].
    apply selectedTable_by_type; [exact Hauto | lia].
Qed.

Lemma addTile_completes_iff_witness :
  exists t', _addTile LowerLayer 4352 0 0 deepWaterCell = Done tt t'.
Proof.
  apply (proj1 (addTile_completes_iff deepWaterCell LowerLayer 4352 0 0
                  ltac:(unfold TILE_ID_MAX; lia))).
  intros _. vm_compute. reflexivity.
Defined.

(** C3, as the claim words it: the id 4368 lies in (0, TILE_ID_MAX) and is
    an A3 autotile of shape 16, one past the end of the wall table that is
    selected for it, and [_addTile] raises a [TypeError] on it. *)
Lemma addTile_wall_shape_16_raises :
  0 < 4368 < TILE_ID_MAX /\
  isTileA3 4368 = true /\
  getAutotileShape 4368 = 16 /\
  selectedTable deepWaterCell 4368 = WALL_AUTOTILE_TABLE /\
  length WALL_AUTOTILE_TABLE = 16%nat /\
  _addTile LowerLayer 4368 0 0 deepWaterCell = Thrown TypeError deepWaterCell /\
  ~ (forall (t : Tilemap) (layer : LayerRef) (tileId dx dy : Z),
       0 < tileId < TILE_ID_MAX ->
       exists t', _addTile layer tileId dx dy t = Done tt t').
Proof.
  repeat split; try reflexivity.
  intros H.
  destruct (H deepWaterCell LowerLayer 4368 0 0
              ltac:(unfold TILE_ID_MAX; lia)) as [t' Ht'].
  discriminate Ht'.
Qed.

(** ** Table edges *)

Lemma stitched_setting (E : list Rect) (t1 t2 : Tilemap) :
  stitched E t1 t2 -> sameSetting t1 t2.
Proof. intros (pre & post & _ & ->). split; reflexivity. Qed.

Lemma stitched_addRect (E : list Rect) (layer : LayerRef) (r : Rect)
  (t1 t2 : Tilemap) :
  stitched E t1 t2 ->
  stitched E (appendRects layer [r] t1) (appendRects layer [r] t2).
Proof.
  intros (pre & post & Hrects & ->). destruct layer.
  - exists pre, (post ++ [r]). split.
    + simpl. rewrite Hrects, app_assoc. reflexivity.
    + unfold appendRects. simpl. rewrite <- !app_assoc. reflexivity.
  - exists pre, post. split; [exact Hrects | reflexivity].
Qed.

Lemma stitched_after (E : list Rect) (t : Tilemap) :
  stitched E t (appendRects LowerLayer E t).
Proof.
  exists (layer_rects (_lowerLayer t)), []. split.
  - rewrite app_nil_r. reflexivity.
  - unfold appendRects. simpl. rewrite app_nil_r. reflexivity.
Qed.

Lemma addTableEdge_run (t : Tilemap) (layer : LayerRef) (tileId dx dy : Z) :
  isTileA2 tileId = true ->
  length (tableEdgeRects tileId dx dy) = 2%nat /\
  _addTableEdge layer tileId dx dy t =
    Done tt (appendRects layer (tableEdgeRects tileId dx dy) t).
Proof.
  intros HA2.
  assert (Hauto : isAutotile tileId = true).
  { revert HA2. unfold_banks. rewrite !Z.geb_leb. intros H.
    apply andb_true_iff in H. destruct H as [H _].
    apply Z.leb_le in H. apply Z.leb_le. lia. }
  pose proof (autotile_shape_range tileId Hauto) as Hshape.
  destruct (proj2 (array_get_Some_iff FLOOR_AUTOTILE_TABLE
                     (getAutotileShape tileId)))
    as [entry Hentry]; [simpl; lia |].
  assert (Hlen : length entry = 4%nat).
  { revert Hentry. unfold array_get.
    destruct (getAutotileShape tileId <? 0); [discriminate |]. intros H.
    apply nth_error_In in H.
    pose proof entries_have_4_pairs as Hall. rewrite Forall_forall in Hall.
    apply Hall. rewrite in_app_iff. left. exact H. }
  unfold _addTableEdge, tableEdgeRects. rewrite HA2, Hentry.
  destruct entry as [| [qx0 qy0] [| [qx1 qy1] [| [qx2 qy2] [| [qx3 qy3] [|]]]]];
    try discriminate Hlen.
  split; [reflexivity |].
  rewrite forRange_2. eval_array_get.
  cbn -[appendRects addRect bind getAutotileKind].
  rewrite !addRect_bind, !appendRects_app. cbn [app ret].
  rewrite !Z.add_0_r. reflexivity.
Qed.

(** C8: at a cell whose plane-1 tile in the row above is a table tile,
    whose own plane-1 tile is not, and whose plane-0 tile is not a
    shadowing tile, [_addSpot] emits what the normal expansion of the
    spot emits and exactly 2 commands more, once, in the lower layer: the
    quadrants 2 and 3 of the floor table entry of the table tile, read
    half a quadrant lower and half a quadrant high. *)
Theorem addSpot_table_edge (t t0 : Tilemap) (startX startY x y : Z) :
  let mx := startX + x in
  let my := startY + y in
  let dx := x * _tileWidth in
  let dy := y * _tileHeight in
  let tileId0 := _readMapData t mx my 0 in
  let tileId1 := _readMapData t mx my 1 in
  let upperTileId1 := _readMapData t mx (my - 1) 1 in
  _isTableTile t upperTileId1 = true ->
  _isTableTile t tileId1 = false ->
  isShadowingTile tileId0 = false ->
  _addSpot_unstitched startX startY x y t = Done tt t0 ->
  length (tableEdgeRects upperTileId1 dx dy) = 2%nat /\
  Forall (fun r => rect_h r = _tileHeight / 2 / 2 /\ rect_dy r = dy)
    (tableEdgeRects upperTileId1 dx dy) /\
  exists t',
    _addSpot startX startY x y t = Done tt t' /\
    stitched (tableEdgeRects upperTileId1 dx dy) t0 t' /\
    length (layer_rects (_lowerLayer t')) =
      (length (layer_rects (_lowerLayer t0)) + 2)%nat /\
    _upperLayer t' = _upperLayer t0.
Proof.
  intros mx my dx dy tileId0 tileId1 upperTileId1 Hup Hown Hshadow Hnormal.
  assert (HA2 : isTileA2 upperTileId1 = true).
  { unfold _isTableTile in Hup. apply andb_true_iff in Hup. tauto. }
  destruct (addTableEdge_run t LowerLayer upperTileId1 dx dy HA2)
    as [Hlen _].
  split; [exact Hlen |]. split.
  { revert Hlen. unfold tableEdgeRects.
    destruct (array_get FLOOR_AUTOTILE_TABLE (getAutotileShape upperTileId1))
      as [[| ? [| ? [| [? ?] [| [? ?] [|]]]]] |];
      try discriminate.
    intros _. repeat constructor. }
  assert (Hstitch : exists t',
            _addSpot startX startY x y t = Done tt t' /\
            stitched (tableEdgeRects upperTileId1 dx dy) t0 t').
  { revert Hnormal. unfold _addSpot, _addSpot_unstitched, withThis.
    fold mx my dx dy. fold tileId0 tileId1 upperTileId1.
    rewrite Hup, Hown, Hshadow. cbn [negb andb].
    intros Hnormal.
    apply bind_Done_inv in Hnormal. destruct Hnormal as ([] & s1 & H1 & Hnormal).
    apply bind_Done_inv in Hnormal. destruct Hnormal as ([] & s2 & H2 & Hnormal).
    apply bind_Done_inv in Hnormal. destruct Hnormal as ([] & s3 & H3 & Hnormal).
    rewrite (bind_Done _ _ _ _ _ H1), (bind_Done _ _ _ _ _ H2),
      (bind_Done _ _ _ _ _ H3).
    rewrite (bind_Done _ _ _ _ _
               (proj2 (addTableEdge_run s3 LowerLayer upperTileId1 dx dy HA2))).
    revert Hnormal.
    cbn [_isOverpassPosition].
    intros Hnormal.
    pose proof
      (respects_bind (stitched (tableEdgeRects upperTileId1 dx dy))
         (_addSpotTile (_readMapData t mx my 2) dx dy)
         (fun _ => _addSpotTile (_readMapData t mx my 3) dx dy)
         (respects_addSpotTile _ (stitched_setting _) (stitched_addRect _)
            _ dx dy)
         (fun _ =>
            respects_addSpotTile _ (stitched_setting _) (stitched_addRect _)
              _ dx dy)
         s3 _ (stitched_after _ s3)) as Hrel.
    rewrite Hnormal in Hrel.
    match type of Hrel with
    | related_outcomes _ _ ?o => destruct o as [[] t' | e t']
    end; [| contradiction].
    exists t'. split; [reflexivity | exact Hrel]. }
  destruct Hstitch as (t' & Hrun & Hst).
  exists t'. split; [exact Hrun |]. split; [exact Hst |].
  destruct Hst as (pre & post & Hrects & ->). simpl.
  rewrite Hrects, !length_app, Hlen. split; [lia | reflexivity].
Qed.

Lemma addSpot_table_edge_witness :
  length (tableEdgeRects TILE_ID_A2 0 48) = 2%nat /\
  exists t',
    _addSpot 0 0 0 1 tableAboveWalkway = Done tt t' /\
    length (layer_rects (_lowerLayer t')) = 3%nat.
Proof.
  destruct (addSpot_table_edge tableAboveWalkway
              (appendRects LowerLayer
                 [mkRect 4 (Some 0) (Some 0) 0 48 48 48] tableAboveWalkway)
              0 0 0 1 eq_refl eq_refl eq_refl eq_refl)
    as (Hlen & _ & t' & Hrun & _ & Hcount & _).
  split; [exact Hlen |]. exists t'. split; [exact Hrun | exact Hcount].
Defined.

(** ** Repaint *)

Lemma strict_neq_true_iff (v w : option Z) :
  strict_neq v w = true <-> v <> w.
Proof.
  destruct v as [a |], w as [b |]; simpl.
  - rewrite negb_true_iff, Z.eqb_neq. split; congruence.
  - split; [discriminate | reflexivity].
  - split; [discriminate | reflexivity].
  - split; [discriminate | congruence].
Qed.

Lemma repaintDue_iff (t : Tilemap) :
  _needsRepaint t
  || strict_neq (_lastAnimationFrame t) (animationFrame t)
  || strict_neq (_lastStartX t) (Some (startXOf t))
  || strict_neq (_lastStartY t) (Some (startYOf t)) = true
  <-> repaintDue t.
Proof.
  unfold repaintDue. rewrite !orb_true_iff, !strict_neq_true_iff. tauto.
Qed.

Lemma sameDrawing_setting (t1 t2 : Tilemap) :
  sameDrawing t1 t2 -> sameSetting t1 t2.
Proof. intros [H _]. exact H. Qed.

Lemma sameDrawing_addRect (layer : LayerRef) (r : Rect) (t1 t2 : Tilemap) :
  sameDrawing t1 t2 ->
  sameDrawing (appendRects layer [r] t1) (appendRects layer [r] t2).
Proof.
  intros [[] [Hl Hu]]. split; [split; destruct layer; assumption |].
  destruct layer; split; simpl; congruence.
Qed.

Lemma layersChanged_refl (t : Tilemap) : layersChanged t t.
Proof.
  exists (_lowerLayer t), (_upperLayer t). destruct t. reflexivity.
Qed.

Lemma layersChanged_setLayer (t0 t : Tilemap) (layer : LayerRef)
  (v : Layer) :
  layersChanged t0 t -> layersChanged t0 (setLayer layer v t).
Proof.
  intros (L & U & ->). destruct layer.
  - exists v, U. reflexivity.
  - exists L, v. reflexivity.
Qed.

Lemma laterOf_setting (t0 t1 t2 : Tilemap) :
  laterOf t0 t1 t2 -> sameSetting t1 t2.
Proof. intros [-> _]. split; reflexivity. Qed.

Lemma laterOf_addRect (t0 : Tilemap) (layer : LayerRef) (r : Rect)
  (t1 t2 : Tilemap) :
  laterOf t0 t1 t2 ->
  laterOf t0 (appendRects layer [r] t1) (appendRects layer [r] t2).
Proof.
  intros [-> H]. split; [reflexivity |].
  apply layersChanged_setLayer, H.
Qed.

(** [_addAllSpots] only changes the two layers. *)
Lemma addAllSpots_layersChanged (startX startY : Z) (t : Tilemap) :
  match _addAllSpots startX startY t with
  | Done _ t' | Thrown _ t' => layersChanged t t'
  end.
Proof.
  unfold _addAllSpots, withThis.
  set (loops := forRange _ _).
  assert (Hloops : Respects (laterOf t) loops).
  { apply respects_forRange. intros i.
    apply respects_forRange. intros j.
    apply respects_addSpot; [apply laterOf_setting | apply laterOf_addRect]. }
  change ((clear LowerLayer ;; clear UpperLayer ;; loops) t)
    with (loops (emptied t)).
  assert (Hstart : laterOf t (emptied t) (emptied t)).
  { split; [reflexivity |].
    do 2 apply layersChanged_setLayer. apply layersChanged_refl. }
  specialize (Hloops _ _ Hstart). unfold related_outcomes in Hloops.
  destruct (loops (emptied t)) as [[] t' | e t'].
  - apply Hloops.
  - apply Hloops.
Qed.

(** [_addAllSpots] forgets the commands the layers held and reads the
    setting only. *)
Lemma addAllSpots_sameDrawing (startX startY : Z) (t1 t2 : Tilemap) :
  sameSetting t1 t2 ->
  related_outcomes sameDrawing
    (_addAllSpots startX startY t1) (_addAllSpots startX startY t2).
Proof.
  intros Hs. unfold _addAllSpots, withThis.
  rewrite (same_width t1 t2 Hs), (same_height t1 t2 Hs).
  set (loops := forRange _ _).
  assert (Hloops : Respects sameDrawing loops).
  { apply respects_forRange. intros i.
    apply respects_forRange. intros j.
    apply respects_addSpot;
      [apply sameDrawing_setting | apply sameDrawing_addRect]. }
  change ((clear LowerLayer ;; clear UpperLayer ;; loops) t1)
    with (loops (emptied t1)).
  change ((clear LowerLayer ;; clear UpperLayer ;; loops) t2)
    with (loops (emptied t2)).
  apply Hloops. destruct Hs. split; split; try reflexivity; assumption.
Qed.

Lemma updateTransform_cases (sort : Sorter) (t : Tilemap) :
  (repaintDue t /\
   updateTransform sort t =
     ((modify (set_last (animationFrame t) (Some (startXOf t))
                 (Some (startYOf t))) ;;
       _addAllSpots (startXOf t) (startYOf t) ;;
       modify (set_needsRepaint false)) ;;
      _sortChildren sort) (moveLayers t)) \/
  (~ repaintDue t /\
   updateTransform sort t = _sortChildren sort (moveLayers t)).
Proof.
  destruct (_needsRepaint t
            || strict_neq (_lastAnimationFrame t) (animationFrame t)
            || strict_neq (_lastStartX t) (Some (startXOf t))
            || strict_neq (_lastStartY t) (Some (startYOf t))) eqn:Hdue.
  - left. split; [apply repaintDue_iff, Hdue |].
    unfold updateTransform, withThis. fold (startXOf t) (startYOf t).
    rewrite Hdue. reflexivity.
  - right. split.
    + intros H. apply repaintDue_iff in H. congruence.
    + unfold updateTransform, withThis. fold (startXOf t) (startYOf t).
      rewrite Hdue. reflexivity.
Qed.

Lemma option_Z_eq_of_not_neq (v w : option Z) : ~ v <> w -> v = w.
Proof.
  intros H. destruct (strict_neq v w) eqn:E.
  - apply strict_neq_true_iff in E. contradiction.
  - destruct v as [a |], w as [b |]; simpl in E; try discriminate;
      [| reflexivity].
    apply negb_false_iff, Z.eqb_eq in E. congruence.
Qed.

(** A call that completes leaves the repaint memo in step with the scroll
    origin and the animation frame, which it does not change. *)
Lemma updateTransform_commits (sort : Sorter) (t t1 : Tilemap) :
  updateTransform sort t = Done tt t1 ->
  origin t1 = origin t /\
  animationFrame t1 = animationFrame t /\
  _needsRepaint t1 = false /\
  _lastAnimationFrame t1 = animationFrame t /\
  _lastStartX t1 = Some (startXOf t) /\
  _lastStartY t1 = Some (startYOf t).
Proof.
  destruct (updateTransform_cases sort t) as [[Hdue ->] | [Hidle ->]].
  - intros H. apply bind_Done_inv in H.
    destruct H as ([] & s & H & Hsort).
    apply bind_Done_inv in H. destruct H as ([] & a & Ha & H).
    injection Ha as <-.
    apply bind_Done_inv in H. destruct H as ([] & tb & Hspots & H).
    injection H as <-. injection Hsort as <-.
    pose proof (addAllSpots_layersChanged (startXOf t) (startYOf t)
                  (set_last (animationFrame t) (Some (startXOf t))
                     (Some (startYOf t)) (moveLayers t))) as Hch.
    rewrite Hspots in Hch. destruct Hch as (L & U & ->).
    repeat split; reflexivity.
  - intros H. injection H as <-. unfold repaintDue in Hidle.
    simpl. repeat split.
    + destruct (_needsRepaint t); [exfalso; apply Hidle; auto | reflexivity].
    + apply option_Z_eq_of_not_neq. tauto.
    + apply option_Z_eq_of_not_neq. tauto.
    + apply option_Z_eq_of_not_neq. tauto.
Qed.

Lemma updateTransform_idle (sort : Sorter) (t : Tilemap) :
  ~ repaintDue t ->
  exists t', updateTransform sort t = Done tt t' /\ sameRects t' t.
Proof.
  intros Hidle.
  destruct (updateTransform_cases sort t) as [[Hdue _] | [_ ->]];
    [contradiction |].
  eexists. split; [reflexivity |]. split; reflexivity.
Qed.

(** C5: [updateTransform] repaints exactly when a refresh was requested
    or the animation frame, the first column or the first row is not the
    one of the last repaint.  When it repaints, the layers end up holding
    the expansion of the visible window from empty layers (and the call
    raises if that expansion does); when it does not, the call completes
    and the layers keep their commands.  After a call that completes, a
    call with the same scroll origin and animation frame, and no refresh
    in between, does not repaint: the layers keep their commands. *)
Theorem updateTransform_repaint (sort : Sorter) (t : Tilemap) :
  (repaintDue t ->
   (forall tb,
      _addAllSpots (startXOf t) (startYOf t) (emptied t) = Done tt tb ->
      exists t', updateTransform sort t = Done tt t' /\ sameRects t' tb) /\
   (forall e tb,
      _addAllSpots (startXOf t) (startYOf t) (emptied t) = Thrown e tb ->
      exists t', updateTransform sort t = Thrown e t')) /\
  (~ repaintDue t ->
   exists t', updateTransform sort t = Done tt t' /\ sameRects t' t) /\
  (forall t1 t2,
     updateTransform sort t = Done tt t1 ->
     origin t2 = origin t1 ->
     animationFrame t2 = animationFrame t1 ->
     _needsRepaint t2 = _needsRepaint t1 ->
     _lastAnimationFrame t2 = _lastAnimationFrame t1 ->
     _lastStartX t2 = _lastStartX t1 ->
     _lastStartY t2 = _lastStartY t1 ->
     ~ repaintDue t2 /\
     exists t3, updateTransform sort t2 = Done tt t3 /\ sameRects t3 t2).
Proof.
  split; [| split].
  - intros Hdue.
    destruct (updateTransform_cases sort t) as [[_ ->] | [Hidle _]];
      [| contradiction].
    set (a := set_last (animationFrame t) (Some (startXOf t))
                (Some (startYOf t)) (moveLayers t)).
    assert (Hs : sameSetting a (emptied t)) by (split; reflexivity).
    pose proof (addAllSpots_sameDrawing (startXOf t) (startYOf t) _ _ Hs)
      as Hrel.
    split.
    + intros tb Hb. rewrite Hb in Hrel.
      destruct (_addAllSpots (startXOf t) (startYOf t) a)
        as [[] ta | e ta] eqn:Ha; [| contradiction].
      assert (Hinner :
                (modify (set_last (animationFrame t) (Some (startXOf t))
                           (Some (startYOf t))) ;;
                 _addAllSpots (startXOf t) (startYOf t) ;;
                 modify (set_needsRepaint false)) (moveLayers t)
                = Done tt (set_needsRepaint false ta)).
      { rewrite (bind_Done _ _ _ a tt) by reflexivity.
        rewrite (bind_Done _ _ _ _ _ Ha). reflexivity. }
      eexists. split.
      * rewrite (bind_Done _ _ _ _ _ Hinner). reflexivity.
      * destruct Hrel as [_ [Hl Hu]]. split; simpl; assumption.
    + intros e tb Hb. rewrite Hb in Hrel.
      destruct (_addAllSpots (startXOf t) (startYOf t) a)
        as [[] ta | e' ta] eqn:Ha; [contradiction |].
      destruct Hrel as [-> _]. exists ta.
      apply bind_Thrown.
      rewrite (bind_Done _ _ _ a tt) by reflexivity.
      apply bind_Thrown. exact Ha.
  - apply updateTransform_idle.
  - intros t1 t2 Hrun Ho Ha Hn Hla Hlx Hly.
    destruct (updateTransform_commits sort t t1 Hrun)
      as (Ho1 & Ha1 & Hn1 & Hla1 & Hlx1 & Hly1).
    assert (Hidle : ~ repaintDue t2).
    { unfold repaintDue, startXOf, startYOf.
      rewrite Hn, Hla, Hlx, Hly, Ha, Ho, Hn1, Hla1, Hlx1, Hly1, Ha1, Ho1.
      unfold startXOf, startYOf.
      intros [H | [H | [H | H]]]; [discriminate H | | |]; apply H;
        reflexivity. }
    split; [exact Hidle | apply updateTransform_idle, Hidle].
Qed.

Lemma updateTransform_repaint_witness :
  exists tb t1 t3,
    _addAllSpots (startXOf deepWaterCell) (startYOf deepWaterCell)
      (emptied deepWaterCell) = Done tt tb /\
    updateTransform insertionSort deepWaterCell = Done tt t1 /\
    sameRects t1 tb /\
    ~ repaintDue t1 /\
    updateTransform insertionSort t1 = Done tt t3 /\
    sameRects t3 t1.
Proof.
  destruct (updateTransform_repaint insertionSort deepWaterCell)
    as (Hdue & _ & Hmemo).
  destruct (Hdue (or_introl eq_refl)) as (Hdone & _).
  destruct (_addAllSpots (startXOf deepWaterCell) (startYOf deepWaterCell)
              (emptied deepWaterCell)) as [[] tb | e tb] eqn:Hspots.
  - destruct (Hdone tb eq_refl) as (t1 & Hrun & Hsame1).
    destruct (Hmemo t1 t1 Hrun eq_refl eq_refl eq_refl eq_refl eq_refl
                eq_refl) as (Hidle & _).
    destruct (updateTransform_repaint insertionSort t1) as (_ & Hkeep & _).
    destruct (Hkeep Hidle) as (t3 & Hrun3 & Hsame3).
    exists tb, t1, t3.
    split; [reflexivity |]. split; [exact Hrun |]. split; [exact Hsame1 |].
    split; [exact Hidle |]. split; [exact Hrun3 | exact Hsame3].
  - vm_compute in Hspots. discriminate Hspots.
Defined.

(** ** Child ordering *)

Lemma compareChildOrder_sign (a b : Drawable) :
  hasSpriteId a -> hasSpriteId b ->
  exists v,
    _compareChildOrder a b = Some v /\
    (v < 0 <-> drawnBefore a b) /\
    (v = 0 <-> a = b) /\
    (0 < v <-> drawnBefore b a).
Proof.
  destruct a as [za ya ia], b as [zb yb ib].
  intros [i Hi] [j Hj]. simpl in Hi, Hj. subst ia ib.
  unfold _compareChildOrder, drawnBefore. simpl.
  destruct (Z.eqb_spec za zb) as [Hz | Hz]; simpl.
  - destruct (Z.eqb_spec ya yb) as [Hy | Hy]; simpl.
    + exists (i - j). split; [reflexivity |]. subst.
      repeat split; intros H; try lia; try (injection H; lia).
      replace i with j by lia. reflexivity.
    + exists (ya - yb). split; [reflexivity |]. subst.
      repeat split; intros H; try lia; try (injection H; lia).
  - exists (za - zb). split; [reflexivity |].
    repeat split; intros H; try lia; try (injection H; lia).
Qed.

(** A drawable without sprite id is ordered by z and y only: a tie on
    both makes the comparison [NaN]. *)
Lemma compareChildOrder_without_spriteId (a b : Drawable) :
  child_spriteId a = None \/ child_spriteId b = None ->
  (child_z a <> child_z b ->
   _compareChildOrder a b = Some (child_z a - child_z b)) /\
  (child_z a = child_z b -> child_y a <> child_y b ->
   _compareChildOrder a b = Some (child_y a - child_y b)) /\
  (child_z a = child_z b -> child_y a = child_y b ->
   _compareChildOrder a b = NaN).
Proof.
  intros Hid. unfold _compareChildOrder.
  destruct (Z.eqb_spec (child_z a) (child_z b)) as [Hz | Hz]; simpl.
  - destruct (Z.eqb_spec (child_y a) (child_y b)) as [Hy | Hy]; simpl.
    + split; [contradiction |]. split; [contradiction |]. intros _ _.
      destruct Hid as [-> | ->]; [reflexivity |].
      destruct (child_spriteId a); reflexivity.
    + split; [contradiction |]. split; [reflexivity | contradiction].
  - split; [reflexivity |]. split; contradiction.
Qed.

Lemma sort_insert_permutation {A : Type} (comparefn : A -> A -> jsnum)
  (a : A) (l : list A) :
  Permutation (a :: l) (sort_insert comparefn a l).
Proof.
  induction l as [| b l IH]; simpl.
  - apply Permutation_refl.
  - destruct (sort_keeps comparefn a b).
    + apply Permutation_refl.
    + apply perm_trans with (b :: a :: l);
        [apply perm_swap | apply perm_skip, IH].
Qed.

Lemma insertion_sort_permutation {A : Type} (comparefn : A -> A -> jsnum)
  (l : list A) :
  Permutation l (insertion_sort comparefn l).
Proof.
  induction l as [| a l IH]; simpl.
  - apply Permutation_refl.
  - apply perm_trans with (a :: insertion_sort comparefn l).
    + apply perm_skip, IH.
    + apply sort_insert_permutation.
Qed.

Lemma keptBefore_iff {A : Type} (comparefn : A -> A -> jsnum) (a b : A) :
  keptBefore comparefn a b <-> sortCompare comparefn a b <= 0.
Proof.
  unfold keptBefore, sort_keeps, sortCompare.
  destruct (comparefn a b) as [v |].
  - apply Z.leb_le.
  - split; [lia | reflexivity].
Qed.

Section ConsistentComparison.

Variable A : Type.
Variable comparefn : A -> A -> jsnum.
Variable elements : list A.
Hypothesis comparefn_consistent : consistentOn comparefn elements.

Lemma consistent_total (a b : A) :
  In a elements -> In b elements ->
  keptBefore comparefn a b \/ keptBefore comparefn b a.
Proof.
  intros Ha Hb. rewrite !keptBefore_iff.
  destruct (comparefn_consistent a b a Ha Hb Ha) as (_ & _ & _ & Hgt & _).
  lia.
Qed.

Lemma consistent_transitive (a b c : A) :
  In a elements -> In b elements -> In c elements ->
  keptBefore comparefn a b -> keptBefore comparefn b c ->
  keptBefore comparefn a c.
Proof.
  intros Ha Hb Hc. rewrite !keptBefore_iff. intros Hab Hbc.
  destruct (comparefn_consistent a b c Ha Hb Hc)
    as (_ & _ & _ & _ & Heq & Hlt & _).
  destruct (comparefn_consistent c a b Hc Ha Hb)
    as (_ & _ & Hca & _ & _ & Hcab & _).
  destruct (comparefn_consistent b c a Hb Hc Ha)
    as (_ & _ & Hbc' & _ & _ & Hbca & _).
  destruct (comparefn_consistent a c a Ha Hc Ha)
    as (_ & _ & _ & Hac & _).
  destruct (comparefn_consistent c b c Hc Hb Hc)
    as (_ & _ & Hcb & _).
  destruct (comparefn_consistent b a b Hb Ha Hb)
    as (_ & _ & Hba & _).
  lia.
Qed.

Lemma sort_insert_strongly_sorted (a : A) (l : list A) :
  In a elements -> incl l elements ->
  StronglySorted (keptBefore comparefn) l ->
  StronglySorted (keptBefore comparefn) (sort_insert comparefn a l).
Proof.
  intros Ha Hl Hsorted. induction l as [| b l IH]; simpl.
  - repeat constructor.
  - assert (Hb : In b elements) by (apply Hl; left; reflexivity).
    assert (Hl' : incl l elements)
      by (intros x Hx; apply Hl; right; exact Hx).
    inversion Hsorted as [| ? ? Hs Hall]; subst.
    rewrite Forall_forall in Hall.
    destruct (sort_keeps comparefn a b) eqn:Hkeep.
    + constructor; [exact Hsorted |].
      constructor; [exact Hkeep |].
      apply Forall_forall. intros c Hc.
      apply (consistent_transitive a b c); auto.
    + constructor; [apply IH; assumption |].
      apply Forall_forall. intros c Hc.
      apply (Permutation_in _ (Permutation_sym
               (sort_insert_permutation comparefn a l))) in Hc.
      destruct Hc as [<- | Hc]; [| apply Hall, Hc].
      destruct (consistent_total a b Ha Hb) as [H | H]; [| exact H].
      unfold keptBefore in H. congruence.
Qed.

Lemma insertion_sort_strongly_sorted (l : list A) :
  incl l elements ->
  StronglySorted (keptBefore comparefn) (insertion_sort comparefn l).
Proof.
  induction l as [| a l IH]; intros Hl; simpl.
  - constructor.
  - apply sort_insert_strongly_sorted.
    + apply Hl. left. reflexivity.
    + intros x Hx. apply Hl. right.
      apply (Permutation_in _ (Permutation_sym
               (insertion_sort_permutation comparefn l))), Hx.
    + apply IH. intros x Hx. apply Hl. right. exact Hx.
Qed.

End ConsistentComparison.

(** The sort by insertion is one of the sorts asked for. *)
Lemma insertionSort_sortContract : sortContract insertionSort.
Proof.
  intros A comparefn l. unfold insertionSort. split.
  - apply insertion_sort_permutation.
  - intros Hc.
    apply (insertion_sort_strongly_sorted A comparefn l Hc). apply incl_refl.
Qed.

(** Two drawables of which none is without sprite id at the z and y of
    one with a sprite id. *)
Lemma compareChildOrder_consistent (a b c : Drawable) :
  (child_z a = child_z b -> child_y a = child_y b ->
   (child_spriteId a = None <-> child_spriteId b = None)) ->
  (child_z b = child_z c -> child_y b = child_y c ->
   (child_spriteId b = None <-> child_spriteId c = None)) ->
  (child_z a = child_z c -> child_y a = child_y c ->
   (child_spriteId a = None <-> child_spriteId c = None)) ->
  sortCompare _compareChildOrder a a = 0 /\
  (sortCompare _compareChildOrder a b = 0 ->
   sortCompare _compareChildOrder b a = 0) /\
  (sortCompare _compareChildOrder a b < 0 ->
   0 < sortCompare _compareChildOrder b a) /\
  (0 < sortCompare _compareChildOrder a b ->
   sortCompare _compareChildOrder b a < 0) /\
  (sortCompare _compareChildOrder a b = 0 ->
   sortCompare _compareChildOrder b c = 0 ->
   sortCompare _compareChildOrder a c = 0) /\
  (sortCompare _compareChildOrder a b < 0 ->
   sortCompare _compareChildOrder b c < 0 ->
   sortCompare _compareChildOrder a c < 0) /\
  (0 < sortCompare _compareChildOrder a b ->
   0 < sortCompare _compareChildOrder b c ->
   0 < sortCompare _compareChildOrder a c).
Proof.
  destruct a as [za ya ia], b as [zb yb ib], c as [zc yc ic].
  unfold sortCompare, _compareChildOrder. cbn [child_z child_y child_spriteId].
  intros Hab Hbc Hac.
  assert (Haa : (za =? za) = true) by apply Z.eqb_refl.
  assert (Hya : (ya =? ya) = true) by apply Z.eqb_refl.
  rewrite Haa, Hya. cbn [negb].
  destruct (Z.eqb_spec za zb) as [Ezab | Ezab];
    destruct (Z.eqb_spec zb zc) as [Ezbc | Ezbc];
    destruct (Z.eqb_spec za zc) as [Ezac | Ezac];
    destruct (Z.eqb_spec zb za) as [Ezba | Ezba];
    try lia; cbn [negb];
    destruct (Z.eqb_spec ya yb) as [Eyab | Eyab];
    destruct (Z.eqb_spec yb yc) as [Eybc | Eybc];
    destruct (Z.eqb_spec ya yc) as [Eyac | Eyac];
    destruct (Z.eqb_spec yb ya) as [Eyba | Eyba];
    try lia; cbn [negb];
    destruct ia as [ia |], ib as [ib |], ic as [ic |];
    cbn [jsnum_sub NaN];
    try (exfalso;
         first [ destruct (Hab Ezab Eyab) as [H1 H2]
               | destruct (Hbc Ezbc Eybc) as [H1 H2]
               | destruct (Hac Ezac Eyac) as [H1 H2] ];
         first [ discriminate (H1 eq_refl) | discriminate (H2 eq_refl) ]);
    repeat split; lia.
Qed.

Lemma compareChildren_consistent (t : Tilemap) :
  tiesAlike t -> consistentOn (compareChildren t) (children t).
Proof.
  intros Hties a b c Ha Hb Hc. unfold compareChildren.
  apply (compareChildOrder_consistent
           (drawableOf t a) (drawableOf t b) (drawableOf t c)); auto.
Qed.

(** Where the comparison lets [a] stay before [b], [a] is drawn no later
    than [b]. *)
Lemma keptBefore_drawnNotAfter (a b : Drawable) :
  (child_z a = child_z b -> child_y a = child_y b ->
   (child_spriteId a = None <-> child_spriteId b = None)) ->
  keptBefore _compareChildOrder a b -> drawnNotAfter a b.
Proof.
  destruct a as [za ya ia], b as [zb yb ib].
  rewrite keptBefore_iff.
  unfold sortCompare, _compareChildOrder, drawnNotAfter, drawnBefore.
  cbn [child_z child_y child_spriteId].
  intros Hties.
  destruct (Z.eqb_spec za zb) as [Ez | Ez]; cbn [negb];
    [| intros H; left; lia].
  destruct (Z.eqb_spec ya yb) as [Ey | Ey]; cbn [negb];
    [| intros H; left; lia].
  subst zb yb.
  destruct ia as [ia |], ib as [ib |]; cbn [jsnum_sub NaN]; intros H.
  - destruct (Z.eq_dec ia ib) as [-> | Hne]; [right; reflexivity |].
    left. right. split; [reflexivity |]. right. split; [reflexivity | lia].
  - destruct (Hties eq_refl eq_refl) as [_ H2]. discriminate (H2 eq_refl).
  - destruct (Hties eq_refl eq_refl) as [H1 _]. discriminate (H1 eq_refl).
  - right. reflexivity.
Qed.

Lemma StronglySorted_among {A : Type} (P Q : A -> A -> Prop) (l : list A) :
  (forall a b, In a l -> In b l -> P a b -> Q a b) ->
  StronglySorted P l -> StronglySorted Q l.
Proof.
  intros Himp Hsorted. induction Hsorted as [| a l Hs IH Hall].
  - constructor.
  - constructor.
    + apply IH. intros x y Hx Hy. apply Himp; right; assumption.
    + rewrite Forall_forall in *. intros x Hx.
      apply Himp; [left; reflexivity | right; exact Hx | apply Hall, Hx].
Qed.

(** What [_sortChildren] does with a sort that meets the contract. *)
Lemma sortChildren_sorts (sort : Sorter) (t : Tilemap) :
  sortContract sort ->
  exists sorted,
    _sortChildren sort t = Done tt (set_children sorted t) /\
    Permutation (children t) sorted /\
    (tiesAlike t -> StronglySorted (childOrder t) sorted).
Proof.
  intros Hsort.
  destruct (Hsort Child (compareChildren t) (children t))
    as [Hperm Hsorted].
  exists (sort Child (compareChildren t) (children t)).
  split; [reflexivity |]. split; [exact Hperm |].
  intros Hties.
  apply (StronglySorted_among (keptBefore (compareChildren t))).
  - intros a b Ha Hb. unfold childOrder, compareChildren.
    apply keptBefore_drawnNotAfter.
    apply Hties; eapply Permutation_in;
      try (apply Permutation_sym; exact Hperm); assumption.
  - apply Hsorted, compareChildren_consistent, Hties.
Qed.

(** C9, as the code orders the children.  On two sprites
    [_compareChildOrder] is negative exactly when the first has the
    smaller z, or the same z and the smaller y, or the same z and y and
    the smaller sprite id, and zero when the three are equal.  A drawable
    without sprite id (a layer) is ordered by z and y only, and the
    comparison is [NaN] when it ties another drawable on both.  With a
    sort that meets the contract of the language, [_sortChildren] leaves
    the children it was given, each as many times, and, when no child
    without sprite id is at the z and y of a child with one, in the order
    of z, then y, then sprite id.  Three children with z = 4, 0, 0, the
    last two with y = 10 and 5, given in any order, come out as
    (z=0, y=5), (z=0, y=10), (z=4), whatever the y of the first and the
    sprite ids are. *)
Theorem child_order_by_z_y_spriteId (sort : Sorter) (t : Tilemap) :
  (forall z1 y1 i1 z2 y2 i2 : Z,
     exists v,
       _compareChildOrder (sprite z1 y1 i1) (sprite z2 y2 i2) = Some v /\
       (v < 0 <->
        z1 < z2 \/ (z1 = z2 /\ (y1 < y2 \/ (y1 = y2 /\ i1 < i2)))) /\
       (v = 0 <-> z1 = z2 /\ y1 = y2 /\ i1 = i2)) /\
  (forall a b : Drawable,
     child_spriteId a = None \/ child_spriteId b = None ->
     (child_z a <> child_z b ->
      _compareChildOrder a b = Some (child_z a - child_z b)) /\
     (child_z a = child_z b -> child_y a <> child_y b ->
      _compareChildOrder a b = Some (child_y a - child_y b)) /\
     (child_z a = child_z b -> child_y a = child_y b ->
      _compareChildOrder a b = NaN)) /\
  (sortContract sort ->
   exists sorted,
     _sortChildren sort t = Done tt (set_children sorted t) /\
     Permutation (children t) sorted /\
     (tiesAlike t -> StronglySorted (childOrder t) sorted)) /\
  (sortContract sort ->
   forall (y4 : Z) (i1 i2 i3 : option Z),
     Permutation (children t)
       [SpriteChild (mkDrawable 4 y4 i1); SpriteChild (mkDrawable 0 10 i2);
        SpriteChild (mkDrawable 0 5 i3)] ->
     _sortChildren sort t =
     Done tt
       (set_children
          [SpriteChild (mkDrawable 0 5 i3); SpriteChild (mkDrawable 0 10 i2);
           SpriteChild (mkDrawable 4 y4 i1)] t)).
Proof.
  split; [| split; [| split]].
  - intros z1 y1 i1 z2 y2 i2.
    destruct (compareChildOrder_sign (sprite z1 y1 i1) (sprite z2 y2 i2))
      as (v & Hv & Hlt & Heq & _); try (eexists; reflexivity).
    exists v. split; [exact Hv |]. split; [exact Hlt |].
    rewrite Heq. unfold sprite. split.
    + intros H. injection H. auto.
    + intros (-> & -> & ->). reflexivity.
  - apply compareChildOrder_without_spriteId.
  - apply sortChildren_sorts.
  - intros Hsort y4 i1 i2 i3 Hthree.
    destruct (sortChildren_sorts sort t Hsort)
      as (sorted & -> & Hperm & Hsorted).
    f_equal. f_equal.
    set (A := SpriteChild (mkDrawable 4 y4 i1)) in *.
    set (B := SpriteChild (mkDrawable 0 10 i2)) in *.
    set (C := SpriteChild (mkDrawable 0 5 i3)) in *.
    assert (Hin : forall x, In x (children t) -> x = A \/ x = B \/ x = C).
    { intros x Hx. apply (Permutation_in _ Hthree) in Hx.
      simpl in Hx. intuition auto. }
    assert (Hties : tiesAlike t).
    { intros a b Ha Hb.
      destruct (Hin a Ha) as [-> | [-> | ->]];
        destruct (Hin b Hb) as [-> | [-> | ->]];
        simpl; intros Hz Hy; try lia; reflexivity. }
    specialize (Hsorted Hties).
    assert (Hall : Permutation [A; B; C] sorted)
      by (apply perm_trans with (children t);
          [apply Permutation_sym, Hthree | exact Hperm]).
    assert (Hnodup : NoDup sorted).
    { apply (Permutation_NoDup Hall).
      repeat constructor; simpl; subst A B C;
        intros H; intuition discriminate. }
    pose proof (Permutation_length Hall) as Hlen.
    destruct sorted as [| x [| y [| z [|]]]]; try discriminate Hlen.
    assert (Hx : x = A \/ x = B \/ x = C).
    { apply Hin, (Permutation_in _ (Permutation_sym Hperm)). simpl. auto. }
    assert (Hy : y = A \/ y = B \/ y = C).
    { apply Hin, (Permutation_in _ (Permutation_sym Hperm)). simpl. auto. }
    assert (Hz : z = A \/ z = B \/ z = C).
    { apply Hin, (Permutation_in _ (Permutation_sym Hperm)). simpl. auto. }
    inversion Hsorted as [| ? ? Hs1 Hf1]; subst.
    inversion Hs1 as [| ? ? Hs2 Hf2]; subst.
    inversion Hf1 as [| ? ? Hxy Hf1']; subst.
    inversion Hf1' as [| ? ? Hxz _]; subst.
    inversion Hf2 as [| ? ? Hyz _]; subst.
    inversion Hnodup as [| ? ? Hnx Hnd]; subst.
    inversion Hnd as [| ? ? Hny _]; subst.
    unfold childOrder, drawnNotAfter, drawnBefore in Hxy, Hxz, Hyz.
    simpl in Hnx, Hny.
    destruct Hx as [-> | [-> | ->]];
      destruct Hy as [-> | [-> | ->]];
      destruct Hz as [-> | [-> | ->]];
      try reflexivity;
      try (exfalso; apply Hnx; auto; fail);
      try (exfalso; apply Hny; auto; fail);
      exfalso; subst A B C; simpl in Hxy, Hxz, Hyz;
      first
        [ destruct Hxy as [Hxy | Hxy]; [lia | discriminate Hxy]
        | destruct Hxz as [Hxz | Hxz]; [lia | discriminate Hxz]
        | destruct Hyz as [Hyz | Hyz]; [lia | discriminate Hyz] ].
Qed.

Lemma child_order_by_z_y_spriteId_witness :
  sortContract insertionSort /\
  tiesAlike spritesAmongLayers /\
  (exists sorted,
     _sortChildren insertionSort spritesAmongLayers =
       Done tt (set_children sorted spritesAmongLayers) /\
     Permutation (children spritesAmongLayers) sorted /\
     StronglySorted (childOrder spritesAmongLayers) sorted) /\
  _sortChildren insertionSort
    (set_children
       [SpriteChild (mkDrawable 4 3 None); SpriteChild (mkDrawable 0 10 None);
        SpriteChild (mkDrawable 0 5 (Some 7))]
       (initialize 816 624)) =
  Done tt
    (set_children
       [SpriteChild (mkDrawable 0 5 (Some 7));
        SpriteChild (mkDrawable 0 10 None); SpriteChild (mkDrawable 4 3 None)]
       (set_children
          [SpriteChild (mkDrawable 4 3 None);
           SpriteChild (mkDrawable 0 10 None);
           SpriteChild (mkDrawable 0 5 (Some 7))]
          (initialize 816 624))).
Proof.
  assert (Hties : tiesAlike spritesAmongLayers).
  { intros a b Ha Hb. simpl in Ha, Hb.
    repeat (destruct Ha as [<- | Ha]; [| try contradiction]);
      repeat (destruct Hb as [<- | Hb]; [| try contradiction]);
      simpl; intros Hz Hy; try lia; split; intros H;
      first [reflexivity | discriminate H]. }
  split; [exact insertionSort_sortContract |].
  split; [exact Hties |].
  split.
  - destruct (child_order_by_z_y_spriteId insertionSort spritesAmongLayers)
      as (_ & _ & Hsorts & _).
    destruct (Hsorts insertionSort_sortContract)
      as (sorted & Hrun & Hperm & Hsorted).
    exists sorted.
    split; [exact Hrun |]. split; [exact Hperm | exact (Hsorted Hties)].
  - destruct (child_order_by_z_y_spriteId insertionSort
                (set_children
                   [SpriteChild (mkDrawable 4 3 None);
                    SpriteChild (mkDrawable 0 10 None);
                    SpriteChild (mkDrawable 0 5 (Some 7))]
                   (initialize 816 624)))
      as (_ & _ & _ & Hthree).
    apply (Hthree insertionSort_sortContract 3 None None (Some 7)).
    apply Permutation_refl.
Defined.

(** C9, as the claim words it, for all drawables: a layer has no sprite
    id, and where it is at the z and y of two sprites the comparison ties
    it with both ([NaN]) though it orders the two; the comparison is not an
    order there, and a sort that meets the contract leaves the sprite
    number 1 before the sprite number 0. *)
Lemma child_order_fails_on_layer_tie :
  _compareChildOrder (sprite 0 0 1)
    (drawableOf layerBetweenSprites LowerLayerChild) = NaN /\
  _compareChildOrder (drawableOf layerBetweenSprites LowerLayerChild)
    (sprite 0 0 0) = NaN /\
  _compareChildOrder (sprite 0 0 1) (sprite 0 0 0) = Some 1 /\
  ~ consistentOn (compareChildren layerBetweenSprites)
      (children layerBetweenSprites) /\
  sortContract insertionSort /\
  _sortChildren insertionSort layerBetweenSprites =
    Done tt layerBetweenSprites /\
  ~ StronglySorted (childOrder layerBetweenSprites)
      (children layerBetweenSprites).
Proof.
  split; [reflexivity |]. split; [reflexivity |]. split; [reflexivity |].
  split; [| split; [exact insertionSort_sortContract | split]].
  - intros H.
    destruct (H (SpriteChild (sprite 0 0 1)) LowerLayerChild
                (SpriteChild (sprite 0 0 0)))
      as (_ & _ & _ & _ & Heq & _); simpl; auto.
    specialize (Heq eq_refl eq_refl). vm_compute in Heq. discriminate Heq.
  - reflexivity.
  - intros H. inversion H as [| ? ? _ Hall]; subst.
    inversion Hall as [| ? ? Hfirst _]; subst.
    unfold childOrder, drawnNotAfter, drawnBefore in Hfirst.
    simpl in Hfirst. destruct Hfirst as [Hfirst | Hfirst];
      [lia | discriminate Hfirst].
Qed.

(** * Further properties *)

(** ** Tile classification, continued *)

Lemma isAutotile_iff (tileId : Z) :
  isAutotile tileId = true <-> TILE_ID_A1 <= tileId.
Proof. unfold isAutotile. rewrite Z.geb_leb. apply Z.leb_le. Qed.

(** X1: [isSameKindTile] is an equivalence relation on ids; between two
    autotiles it holds exactly when the kinds are equal, and as soon as
    one of the two ids is not an autotile it holds exactly when the ids
    are equal. *)
Theorem isSameKindTile_equivalence :
  (forall a, isSameKindTile a a = true) /\
  (forall a b, isSameKindTile a b = isSameKindTile b a) /\
  (forall a b c,
     isSameKindTile a b = true -> isSameKindTile b c = true ->
     isSameKindTile a c = true) /\
  (forall a b,
     isAutotile a = true -> isAutotile b = true ->
     (isSameKindTile a b = true <-> getAutotileKind a = getAutotileKind b)) /\
  (forall a b,
     isAutotile a = false \/ isAutotile b = false ->
     (isSameKindTile a b = true <-> a = b)).
Proof.
  assert (Hauto : forall a b,
            isAutotile a = true -> isAutotile b = true ->
            (isSameKindTile a b = true <->
             getAutotileKind a = getAutotileKind b)).
  { intros a b Ha Hb. unfold isSameKindTile. rewrite Ha, Hb. simpl.
    apply Z.eqb_eq. }
  assert (Hplain : forall a b,
            isAutotile a = false \/ isAutotile b = false ->
            (isSameKindTile a b = true <-> a = b)).
  { intros a b H. unfold isSameKindTile.
    replace (isAutotile a && isAutotile b) with false
      by (destruct H as [-> | ->]; [| rewrite andb_false_r]; reflexivity).
    apply Z.eqb_eq. }
  split; [| split; [| split; [| split]]]; try assumption.
  - intros a. destruct (isAutotile a) eqn:Ha.
    + apply Hauto; auto.
    + apply Hplain; auto.
  - intros a b. unfold isSameKindTile.
    rewrite (andb_comm (isAutotile a)).
    destruct (isAutotile b && isAutotile a); apply Z.eqb_sym.
  - intros a b c Hab Hbc.
    destruct (isAutotile b) eqn:Hb.
    + destruct (isAutotile a) eqn:Ha;
        [| apply Hplain in Hab; [congruence | auto]].
      destruct (isAutotile c) eqn:Hc;
        [| apply Hplain in Hbc; [congruence | auto]].
      apply Hauto in Hab; auto. apply Hauto in Hbc; auto.
      apply Hauto; auto. congruence.
    + apply Hplain in Hab; [| auto]. apply Hplain in Hbc; [| auto].
      subst. apply Hplain; auto.
Qed.

Lemma isSameKindTile_equivalence_witness :
  isSameKindTile 2816 2863 = true /\
  isSameKindTile 2816 2840 = true /\
  (isSameKindTile 2816 2864 = true <-> 16 = 17) /\
  (isSameKindTile 7 2048 = true <-> 7 = 2048).
Proof.
  destruct isSameKindTile_equivalence as (_ & _ & Htrans & Hauto & Hplain).
  split; [| split; [| split]].
  - apply (Htrans 2816 2840 2863); reflexivity.
  - apply (Hauto 2816 2840); reflexivity.
  - apply (Hauto 2816 2864); reflexivity.
  - apply (Hplain 7 2048). left. reflexivity.
Defined.

(** The bank of an autotile, read on its kind. *)
Lemma autotile_kind_bounds (tileId : Z) :
  TILE_ID_A1 <= tileId ->
  let k := getAutotileKind tileId in
  48 * k <= tileId - TILE_ID_A1 < 48 * k + 48 /\ 0 <= k.
Proof.
  intros H k. subst k. unfold getAutotileKind. unfold TILE_ID_A1 in *.
  pose proof (Z.mod_pos_bound (tileId - 2048) 48).
  pose proof (Z.div_mod (tileId - 2048) 48).
  assert (0 <= (tileId - 2048) / 48) by (apply Z.div_pos; lia).
  lia.
Qed.

(** X2: an autotile id, up to 2^53, is rebuilt by [makeAutotileId] from
    its kind and its shape, and the bank of an autotile id is decided by
    its kind alone: kinds 0 to 15 are A1, 16 to 47 are A2, 48 to 79 are A3
    and 80 to 127 are A4.  Below [TILE_ID_A1] the kind is taken by floor
    and the shape by truncation, so an id that is not 48 apart from
    [TILE_ID_A1] is rebuilt 48 too low (down to -2^52 at least). *)
Theorem autotile_id_decomposition (tileId : Z) :
  (isAutotile tileId = true ->
   (tileId <= 9007199254740992 ->
    makeAutotileId (getAutotileKind tileId) (getAutotileShape tileId)
    = tileId) /\
   isTileA1 tileId = (getAutotileKind tileId <? 16) /\
   isTileA2 tileId =
     (16 <=? getAutotileKind tileId) && (getAutotileKind tileId <? 48) /\
   isTileA3 tileId =
     (48 <=? getAutotileKind tileId) && (getAutotileKind tileId <? 80) /\
   isTileA4 tileId =
     (80 <=? getAutotileKind tileId) && (getAutotileKind tileId <? 128)) /\
  (isAutotile tileId = false ->
   Z.rem (tileId - TILE_ID_A1) 48 <> 0 ->
   - 4503599627370496 <= tileId ->
   makeAutotileId (getAutotileKind tileId) (getAutotileShape tileId)
   = tileId - 48).
Proof.
  split.
  - intros Hauto. apply isAutotile_iff in Hauto.
    destruct (autotile_kind_bounds tileId Hauto) as [Hk Hk0].
    split.
    { intros Hmax.
      unfold makeAutotileId, getAutotileShape, getAutotileKind.
      unfold getAutotileKind in Hk, Hk0.
      unfold TILE_ID_A1 in *. rewrite Z.rem_mod_nonneg by lia.
      pose proof (Z.div_mod (tileId - 2048) 48) as Hdm.
      pose proof (Z.mod_pos_bound (tileId - 2048) 48) as Hmod.
      rewrite (roundToDouble_exact ((tileId - 2048) / 48 * 48)) by lia.
      rewrite (roundToDouble_exact (2048 + (tileId - 2048) / 48 * 48))
        by lia.
      rewrite roundToDouble_exact by lia.
      lia. }
    set (k := getAutotileKind tileId) in *.
    unfold_banks.
    repeat split; rewrite ?Z.geb_leb;
      repeat match goal with
      | |- context [?a <=? ?b] => destruct (Z.leb_spec a b)
      | |- context [?a <? ?b] => destruct (Z.ltb_spec a b)
      end; simpl; try reflexivity; lia.
  - intros Hplain Hrem Hmin.
    assert (Hlt : tileId < TILE_ID_A1).
    { destruct (Z.lt_ge_cases tileId TILE_ID_A1) as [H | H]; [exact H |].
      apply isAutotile_iff in H. congruence. }
    unfold makeAutotileId, getAutotileShape, getAutotileKind in *.
    unfold TILE_ID_A1 in *.
    remember (tileId - 2048) as d eqn:Hd.
    assert (Hneg : d < 0) by lia.
    pose proof (Z.div_mod d 48 ltac:(lia)).
    pose proof (Z.mod_pos_bound d 48 ltac:(lia)).
    pose proof (Z.quot_rem' d 48).
    pose proof (Z.rem_bound_pos_neg d 48 ltac:(lia) ltac:(lia)).
    rewrite (roundToDouble_exact (d / 48 * 48)) by lia.
    rewrite (roundToDouble_exact (2048 + d / 48 * 48)) by lia.
    rewrite roundToDouble_exact by lia.
    lia.
Qed.

Lemma autotile_id_decomposition_witness :
  makeAutotileId (getAutotileKind 5000) (getAutotileShape 5000) = 5000 /\
  makeAutotileId (getAutotileKind 2047) (getAutotileShape 2047) = 2047 - 48.
Proof.
  split.
  - apply (proj1 (autotile_id_decomposition 5000)); [reflexivity | lia].
  - apply (proj2 (autotile_id_decomposition 2047)).
    + reflexivity.
    + vm_compute. discriminate.
    + lia.
Defined.

Ltac split_comparisons :=
  repeat match goal with
  | |- context [?a <? ?b] => destruct (Z.ltb_spec a b)
  | |- context [?a <=? ?b] => destruct (Z.leb_spec a b)
  | |- context [?a =? ?b] => destruct (Z.eqb_spec a b)
  end.

Ltac unfold_terrain :=
  unfold type_tests, isFloorTypeAutotile, isWallTypeAutotile,
    isWaterfallTypeAutotile, isWaterfallTile, isWaterTile, isGroundTile,
    isShadowingTile, isWallTile, isRoofTile, isWallTopTile, isWallSideTile.

Lemma tables_differ :
  FLOOR_AUTOTILE_TABLE <> WALL_AUTOTILE_TABLE /\
  FLOOR_AUTOTILE_TABLE <> WATERFALL_AUTOTILE_TABLE /\
  WALL_AUTOTILE_TABLE <> WATERFALL_AUTOTILE_TABLE.
Proof.
  repeat split; intros H; apply (f_equal (@length _)) in H; discriminate H.
Qed.

(** X3: an autotile id below [TILE_ID_MAX] has exactly one of the three
    autotile types, an id outside has none, and the type is the one of the
    table that [_addAutotile] reads for the id: floor, wall or waterfall. *)
Theorem autotile_types_partition (tileId : Z) :
  (TILE_ID_A1 <= tileId < TILE_ID_MAX ->
   count_true (type_tests tileId) = 1%nat /\
   forall t : Tilemap,
     (selectedTable t tileId = FLOOR_AUTOTILE_TABLE <->
      isFloorTypeAutotile tileId = true) /\
     (selectedTable t tileId = WALL_AUTOTILE_TABLE <->
      isWallTypeAutotile tileId = true) /\
     (selectedTable t tileId = WATERFALL_AUTOTILE_TABLE <->
      isWaterfallTypeAutotile tileId = true)) /\
  (tileId < TILE_ID_A1 \/ TILE_ID_MAX <= tileId ->
   count_true (type_tests tileId) = 0%nat).
Proof.
  split.
  - intros Hid.
    assert (Hone : count_true (type_tests tileId) = 1%nat).
    { destruct (autotile_kind_bounds tileId (proj1 Hid)) as [Hk Hk0].
      unfold_terrain. set (k := getAutotileKind tileId) in *.
      rewrite (Z.rem_mod_nonneg k 16), (Z.rem_mod_nonneg k 2) by lia.
      pose proof (Z.mod_pos_bound k 2 ltac:(lia)).
      unfold_banks.
      assert (Hcase : tileId < 2816 \/ 2816 <= tileId < 4352 \/
                      4352 <= tileId < 5888 \/ 5888 <= tileId < 8192)
        by lia.
      destruct Hcase as [H' | [H' | [H' | H']]];
        rewrite ?Z.geb_leb; settle_comparisons; split_comparisons;
        try reflexivity; exfalso; lia. }
    split; [exact Hone |]. intros t.
    rewrite (selectedTable_by_type t tileId)
      by (try apply isAutotile_iff; lia).
    destruct tables_differ as (Hfw & Hff & Hwf).
    revert Hone. unfold type_tests.
    destruct (isFloorTypeAutotile tileId), (isWallTypeAutotile tileId),
      (isWaterfallTypeAutotile tileId); intros Hone;
      try discriminate Hone;
      repeat split; intros H; try reflexivity; try discriminate H;
      congruence.
  - intros Hout. unfold_terrain. unfold getAutotileKind. unfold_banks.
    destruct Hout as [H | H]; rewrite ?Z.geb_leb;
      settle_comparisons; reflexivity.
Qed.

Lemma autotile_types_partition_witness :
  count_true (type_tests 4400) = 1%nat /\
  (selectedTable deepWaterCell 4400 = WALL_AUTOTILE_TABLE <->
   isWallTypeAutotile 4400 = true) /\
  count_true (type_tests 1600) = 0%nat.
Proof.
  destruct (autotile_types_partition 4400) as (Hin & _).
  destruct (Hin ltac:(unfold TILE_ID_A1, TILE_ID_MAX; lia)) as (Hone & Ht).
  destruct (Ht deepWaterCell) as (_ & Hwall & _).
  split; [exact Hone |]. split; [exact Hwall |].
  apply (proj2 (autotile_types_partition 1600)).
  left. unfold TILE_ID_A1. lia.
Defined.

(** X4: how the terrain predicates relate: a waterfall tile is a water
    tile; the shadowing tiles are the roof tiles and the wall tiles, a
    roof tile being no wall tile; no ground tile is shadowing; and an
    autotile below [TILE_ID_MAX] is a ground tile or a shadowing tile. *)
Theorem terrain_predicates_relations (tileId : Z) :
  (isWaterfallTile tileId = true -> isWaterTile tileId = true) /\
  isShadowingTile tileId = isRoofTile tileId || isWallTile tileId /\
  isRoofTile tileId && isWallTile tileId = false /\
  isWallTopTile tileId && isWallSideTile tileId = false /\
  isGroundTile tileId && isShadowingTile tileId = false /\
  (TILE_ID_A1 <= tileId < TILE_ID_MAX ->
   isGroundTile tileId || isShadowingTile tileId = true).
Proof.
  unfold_terrain. set (k := getAutotileKind tileId). unfold_banks.
  rewrite ?Z.geb_leb.
  assert (Hcase : tileId < 1536 \/ 1536 <= tileId < 2048 \/
                  2048 <= tileId < 2144 \/ 2144 <= tileId < 2240 \/
                  2240 <= tileId < 2816 \/ 2816 <= tileId < 4352 \/
                  4352 <= tileId < 5888 \/ 5888 <= tileId < 8192 \/
                  8192 <= tileId) by lia.
  destruct Hcase as [H | [H | [H | [H | [H | [H | [H | [H | H]]]]]]]];
    settle_comparisons; split_comparisons; cbn [andb orb negb];
    repeat split; try reflexivity; try discriminate; intros; lia.
Qed.

Lemma terrain_predicates_relations_witness :
  isWaterTile 2300 = true /\ isGroundTile 3000 || isShadowingTile 3000 = true.
Proof.
  destruct (terrain_predicates_relations 2300) as (Hwater & _).
  destruct (terrain_predicates_relations 3000) as (_ & _ & _ & _ & _ & Hall).
  split.
  - apply Hwater. reflexivity.
  - apply Hall. unfold TILE_ID_A1, TILE_ID_MAX. lia.
Defined.

(** ** Computations that only add commands *)

Lemma appendRects_nil (layer : LayerRef) (t : Tilemap) :
  appendRects layer [] t = t.
Proof.
  destruct t as [? ? ? ? ? ? ? ? ? ? ? ? ? ? ? [] [] ?].
  destruct layer; unfold appendRects; simpl; rewrite app_nil_r; reflexivity.
Qed.

Lemma appendBoth_nil (t : Tilemap) : appendBoth [] [] t = t.
Proof. unfold appendBoth. rewrite !appendRects_nil. reflexivity. Qed.

Lemma appendBoth_app (lo1 up1 lo2 up2 : list Rect) (t : Tilemap) :
  appendBoth lo2 up2 (appendBoth lo1 up1 t)
  = appendBoth (lo1 ++ lo2) (up1 ++ up2) t.
Proof.
  unfold appendBoth, appendRects. simpl. rewrite <- !app_assoc. reflexivity.
Qed.

Lemma appendBoth_layers (lo up : list Rect) (t : Tilemap) :
  layer_rects (_lowerLayer (appendBoth lo up t))
  = layer_rects (_lowerLayer t) ++ lo /\
  layer_rects (_upperLayer (appendBoth lo up t))
  = layer_rects (_upperLayer t) ++ up.
Proof. split; reflexivity. Qed.

Section AppendsOnly.

Variable P : Rect -> Prop.

Lemma appendsOnly_ret : appendsOnly P (ret tt).
Proof.
  intros t. exists [], []. rewrite appendBoth_nil.
  split; [constructor | split; [constructor | left; reflexivity]].
Qed.

Lemma appendsOnly_throw : appendsOnly P (throw TypeError).
Proof.
  intros t. exists [], []. rewrite appendBoth_nil.
  split; [constructor | split; [constructor | right; reflexivity]].
Qed.

Lemma appendsOnly_addRect (layer : LayerRef) (r : Rect) :
  P r -> appendsOnly P (addRect layer r).
Proof.
  intros Hr t. destruct layer.
  - exists [r], []. split; [repeat constructor; exact Hr |].
    split; [constructor | left].
    rewrite addRect_run. unfold appendBoth. rewrite appendRects_nil.
    reflexivity.
  - exists [], [r]. split; [constructor |].
    split; [repeat constructor; exact Hr | left].
    rewrite addRect_run. unfold appendBoth. rewrite appendRects_nil.
    reflexivity.
Qed.

Lemma appendsOnly_bind (m : M unit) (k : unit -> M unit) :
  appendsOnly P m -> (forall u, appendsOnly P (k u)) ->
  appendsOnly P (bind m k).
Proof.
  intros Hm Hk t.
  destruct (Hm t) as (lo1 & up1 & Hlo1 & Hup1 & [H1 | H1]).
  - destruct (Hk tt (appendBoth lo1 up1 t))
      as (lo2 & up2 & Hlo2 & Hup2 & H2).
    exists (lo1 ++ lo2), (up1 ++ up2).
    split; [apply Forall_app; auto |]. split; [apply Forall_app; auto |].
    rewrite (bind_Done _ _ _ _ _ H1), <- appendBoth_app. exact H2.
  - exists lo1, up1. split; [exact Hlo1 |]. split; [exact Hup1 |].
    right. apply bind_Thrown, H1.
Qed.

Lemma appendsOnly_forEach {A : Type} (l : list A) (body : A -> M unit) :
  (forall a, In a l -> appendsOnly P (body a)) ->
  appendsOnly P (forEach l body).
Proof.
  induction l as [| a l IH]; intros Hbody; simpl.
  - apply appendsOnly_ret.
  - apply appendsOnly_bind; [apply Hbody; left; reflexivity |].
    intros _. apply IH. intros b Hb. apply Hbody. right. exact Hb.
Qed.

Lemma appendsOnly_forRange (n : Z) (body : Z -> M unit) :
  (forall i, 0 <= i < n -> appendsOnly P (body i)) ->
  appendsOnly P (forRange n body).
Proof.
  intros Hbody. apply appendsOnly_forEach. intros i Hi.
  apply in_map_iff in Hi. destruct Hi as (j & <- & Hj).
  apply in_seq in Hj. apply Hbody. lia.
Qed.

Lemma appendsOnly_withThis (f : Tilemap -> M unit) :
  (forall t0, appendsOnly P (f t0)) -> appendsOnly P (withThis f).
Proof. intros Hf t. apply (Hf t t). Qed.

End AppendsOnly.

Lemma appendsOnly_weaken (P Q : Rect -> Prop) (m : M unit) :
  (forall r, P r -> Q r) -> appendsOnly P m -> appendsOnly Q m.
Proof.
  intros HPQ Hm t. destruct (Hm t) as (lo & up & Hlo & Hup & H).
  exists lo, up. split; [| split; [| exact H]];
    eapply Forall_impl; eauto.
Qed.

Ltac solve_inCell :=
  unfold inCell, _tileWidth, _tileHeight; cbn; lia.

Lemma addNormalTile_inCell (layer : LayerRef) (tileId dx dy : Z) :
  appendsOnly (inCell dx dy) (_addNormalTile layer tileId dx dy).
Proof. apply appendsOnly_addRect. solve_inCell. Qed.

Lemma addAutotile_inCell (layer : LayerRef) (tileId dx dy : Z) :
  appendsOnly (inCell dx dy) (_addAutotile layer tileId dx dy).
Proof.
  apply appendsOnly_withThis. intros t0.
  destruct (autotileSource t0 tileId) as [[[[setNumber bx] by_] tbl] isT].
  rewrite forRange_4.
  destruct (array_get tbl (getAutotileShape tileId)) as [entry |].
  - repeat (apply appendsOnly_bind; [| intros _]);
      try apply appendsOnly_ret;
      match goal with
      | |- context [array_get ?l ?i] =>
          destruct (array_get l i) as [[qsx qsy] |];
          [| apply appendsOnly_throw]
      end;
      destruct (isT && ((qsy =? 1) || (qsy =? 5)));
      try (apply appendsOnly_bind; [| intros _]);
      apply appendsOnly_addRect; solve_inCell.
  - apply appendsOnly_bind; [apply appendsOnly_throw | intros _].
    repeat (apply appendsOnly_bind; [apply appendsOnly_throw | intros _]).
    apply appendsOnly_ret.
Qed.

Lemma addTile_inCell (layer : LayerRef) (tileId dx dy : Z) :
  appendsOnly (inCell dx dy) (_addTile layer tileId dx dy).
Proof.
  unfold _addTile. destruct (isVisibleTile tileId); [| apply appendsOnly_ret].
  destruct (isAutotile tileId);
    [apply addAutotile_inCell | apply addNormalTile_inCell].
Qed.

Lemma addSpotTile_inCell (tileId dx dy : Z) :
  appendsOnly (inCell dx dy) (_addSpotTile tileId dx dy).
Proof.
  apply appendsOnly_withThis. intros t0.
  destruct (truthy (_isHigherTile t0 tileId)); apply addTile_inCell.
Qed.

Lemma addShadow_inCell (layer : LayerRef) (shadowBits dx dy : Z) :
  appendsOnly (inCell dx dy) (_addShadow layer shadowBits dx dy).
Proof.
  unfold _addShadow.
  destruct (truthy (Z.land shadowBits 15)); [| apply appendsOnly_ret].
  rewrite forRange_4.
  repeat (apply appendsOnly_bind; [| intros _]);
    try apply appendsOnly_ret;
    match goal with
    | |- appendsOnly _ (if ?c then _ else _) =>
        destruct c; [| apply appendsOnly_ret]
    end;
    apply appendsOnly_addRect; solve_inCell.
Qed.

Lemma addTableEdge_inCell (layer : LayerRef) (tileId dx dy : Z) :
  appendsOnly (inCell dx dy) (_addTableEdge layer tileId dx dy).
Proof.
  unfold _addTableEdge. destruct (isTileA2 tileId); [| apply appendsOnly_ret].
  rewrite forRange_2.
  destruct (array_get FLOOR_AUTOTILE_TABLE (getAutotileShape tileId))
    as [entry |].
  - repeat (apply appendsOnly_bind; [| intros _]);
      try apply appendsOnly_ret;
      match goal with
      | |- context [array_get ?l ?i] =>
          destruct (array_get l i) as [[qsx qsy] |];
          [| apply appendsOnly_throw]
      end;
      apply appendsOnly_addRect; solve_inCell.
  - repeat (apply appendsOnly_bind; [apply appendsOnly_throw | intros _]).
    apply appendsOnly_ret.
Qed.

Lemma addSpot_appendsOnly (startX startY x y : Z) :
  appendsOnly (inCell (x * _tileWidth) (y * _tileHeight))
    (_addSpot startX startY x y).
Proof.
  apply appendsOnly_withThis. intros t0.
  repeat (apply appendsOnly_bind; [| intros _]);
    try apply addSpotTile_inCell; try apply addShadow_inCell.
  destruct (_isTableTile t0 _ && negb (_isTableTile t0 _));
    [| apply appendsOnly_ret].
  destruct (negb (isShadowingTile _));
    [apply addTableEdge_inCell | apply appendsOnly_ret].
Qed.

(** X5: [_addSpot] only adds commands to the two layers, after the ones
    they hold, whether it completes or raises, and every command it adds
    draws inside the cell of the spot: a box of 48 by 48 pixels at
    [(x * 48, y * 48)]. *)
Theorem addSpot_draws_in_cell (startX startY x y : Z) (t : Tilemap) :
  exists lo up,
    Forall (inCell (x * _tileWidth) (y * _tileHeight)) lo /\
    Forall (inCell (x * _tileWidth) (y * _tileHeight)) up /\
    (_addSpot startX startY x y t = Done tt (appendBoth lo up t) \/
     _addSpot startX startY x y t = Thrown TypeError (appendBoth lo up t)) /\
    layer_rects (_lowerLayer (appendBoth lo up t))
    = layer_rects (_lowerLayer t) ++ lo /\
    layer_rects (_upperLayer (appendBoth lo up t))
    = layer_rects (_upperLayer t) ++ up.
Proof.
  destruct (addSpot_appendsOnly startX startY x y t)
    as (lo & up & Hlo & Hup & Hrun).
  exists lo, up. repeat split; assumption.
Qed.

(** ** The window *)

Lemma addAllSpots_loops (startX startY : Z) (t : Tilemap) :
  _addAllSpots startX startY t =
    forRange (tileRowsOf t) (fun y =>
      forRange (tileColsOf t) (fun x =>
        _addSpot startX startY x y)) (emptied t).
Proof. reflexivity. Qed.

(** X6: [_addAllSpots] drops the commands the two layers held and, whether
    it completes or raises, leaves in them only commands that draw inside
    a cell of the window: a cell [(x, y)] with [0 <= x < tileCols] and
    [0 <= y < tileRows]. *)
Theorem addAllSpots_draws_in_window (startX startY : Z) (t : Tilemap) :
  exists lo up t',
    (_addAllSpots startX startY t = Done tt t' \/
     _addAllSpots startX startY t = Thrown TypeError t') /\
    layer_rects (_lowerLayer t') = lo /\
    layer_rects (_upperLayer t') = up /\
    Forall (inWindow t) lo /\
    Forall (inWindow t) up.
Proof.
  rewrite addAllSpots_loops.
  assert (H : appendsOnly (inWindow t)
                (forRange (tileRowsOf t) (fun y =>
                   forRange (tileColsOf t) (fun x =>
                     _addSpot startX startY x y)))).
  { apply appendsOnly_forRange. intros y Hy.
    apply appendsOnly_forRange. intros x Hx.
    apply (appendsOnly_weaken
             (inCell (x * _tileWidth) (y * _tileHeight))).
    - intros r Hr. exists x, y. auto.
    - apply addSpot_appendsOnly. }
  destruct (H (emptied t)) as (lo & up & Hlo & Hup & Hrun).
  exists lo, up, (appendBoth lo up (emptied t)).
  repeat split; assumption.
Qed.

Lemma forEach_fixed {A : Type} (l : list A) (body : A -> M unit)
  (s : Tilemap) :
  (forall a, body a s = Done tt s) -> forEach l body s = Done tt s.
Proof.
  intros Hbody. induction l as [| a l IH]; simpl; [reflexivity |].
  rewrite (bind_Done _ _ _ _ _ (Hbody a)). exact IH.
Qed.

Lemma addSpot_blank (startX startY x y : Z) (s : Tilemap) :
  (forall mx my z, _readMapData s mx my z = 0) ->
  _addSpot startX startY x y s = Done tt s.
Proof.
  intros Hblank. unfold _addSpot, withThis. rewrite !Hblank.
  assert (Htile : forall dx dy u, _addSpotTile 0 dx dy u = Done tt u)
    by (intros; apply addSpotTile_invisible; reflexivity).
  rewrite (bind_Done _ _ _ _ _ (Htile _ _ s)).
  rewrite (bind_Done _ _ _ _ _ (Htile _ _ s)).
  rewrite (bind_Done _ _ s s tt) by reflexivity.
  change (_isTableTile s 0) with false. cbn [andb].
  rewrite (bind_Done _ _ s s tt) by reflexivity.
  cbn [_isOverpassPosition].
  rewrite (bind_Done _ _ _ _ _ (Htile _ _ s)). apply Htile.
Qed.

Lemma readMapData_blank (t : Tilemap) :
  _mapData t = None \/
  (exists data, _mapData t = Some data /\ Forall (fun v => v = 0) data) ->
  forall mx my z, _readMapData t mx my z = 0.
Proof.
  intros Hblank mx my z. unfold _readMapData.
  destruct Hblank as [-> | (data & -> & Hzero)]; [reflexivity |].
  match goal with
  | |- (if ?c then _ else _) = _ => destruct c; [| reflexivity]
  end.
  unfold array_get.
  match goal with
  | |- context [if ?c then _ else _] => destruct c; [reflexivity |]
  end.
  match goal with
  | |- or_zero (nth_error data ?n) = _ =>
      destruct (nth_error data n) as [v |] eqn:Hv; [| reflexivity]
  end.
  apply nth_error_In in Hv. rewrite Forall_forall in Hzero.
  apply Hzero, Hv.
Qed.

(** X7: on a tilemap without map data, or whose map data are all zero,
    [_addAllSpots] completes and leaves the two layers empty, and so does
    a call of [updateTransform] that repaints. *)
Theorem blank_map_draws_nothing (sort : Sorter) (startX startY : Z)
  (t : Tilemap) :
  _mapData t = None \/
  (exists data, _mapData t = Some data /\ Forall (fun v => v = 0) data) ->
  _addAllSpots startX startY t = Done tt (emptied t) /\
  (repaintDue t ->
   exists t',
     updateTransform sort t = Done tt t' /\
     layer_rects (_lowerLayer t') = [] /\
     layer_rects (_upperLayer t') = []).
Proof.
  intros Hblank.
  assert (Hspots : forall sx sy u,
            sameSetting t u ->
            _addAllSpots sx sy u = Done tt (emptied u)).
  { intros sx sy u Hs. rewrite addAllSpots_loops.
    apply forEach_fixed. intros j. apply forEach_fixed. intros i.
    apply addSpot_blank. intros mx my z.
    change (_readMapData (emptied u) mx my z)
      with (_readMapData u mx my z).
    rewrite <- (readMapData_setting t u) by exact Hs.
    apply readMapData_blank, Hblank. }
  split; [apply Hspots; split; reflexivity |].
  intros Hdue.
  destruct (updateTransform_cases sort t) as [[_ ->] | [Hidle _]];
    [| contradiction].
  eexists. split.
  - erewrite bind_Done; [reflexivity |].
    erewrite bind_Done; [| reflexivity].
    erewrite bind_Done; [reflexivity |].
    apply Hspots. split; reflexivity.
  - split; reflexivity.
Qed.

Lemma blank_map_draws_nothing_witness :
  exists t',
    updateTransform insertionSort
      (setData 3 3 (repeat 0 45) (initialize 816 624))
    = Done tt t' /\
    layer_rects (_lowerLayer t') = [] /\
    layer_rects (_upperLayer t') = [].
Proof.
  apply (blank_map_draws_nothing insertionSort 0 0
           (setData 3 3 (repeat 0 45) (initialize 816 624))).
  - right. exists (repeat 0 45). split; [reflexivity |].
    apply Forall_forall. intros v Hv. apply repeat_spec in Hv. exact Hv.
  - left. reflexivity.
Defined.

(** ** Shadows *)

Lemma land_low_bit (b i : Z) :
  0 <= i < 4 -> Z.land b (Z.shiftl 1 i) = Z.land (b mod 16) (Z.shiftl 1 i).
Proof.
  intros Hi. apply Z.bits_inj'. intros n Hn.
  rewrite !Z.land_spec, Z.shiftl_1_l, Z.pow2_bits_eqb by lia.
  destruct (Z.eqb_spec i n) as [<- | Hne]; [| rewrite !andb_false_r; auto].
  rewrite !andb_true_r. symmetry.
  apply (Z.mod_pow2_bits_low b 4 i). lia.
Qed.

Lemma testbit_low_bit (b i : Z) :
  0 <= i < 4 -> Z.testbit b i = Z.testbit (b mod 16) i.
Proof. intros Hi. symmetry. apply (Z.mod_pow2_bits_low b 4 i). lia. Qed.

Lemma ret_bind (k : unit -> M unit) (t : Tilemap) :
  bind (ret tt) k t = k tt t.
Proof. reflexivity. Qed.

Ltac run_commands :=
  repeat first
    [ rewrite addRect_bind | rewrite ret_bind | rewrite appendRects_app ].

Lemma filter_low_bits (b : Z) :
  filter (Z.testbit (b mod 16)) [0; 1; 2; 3]
  = filter (Z.testbit b) [0; 1; 2; 3].
Proof.
  cbn [filter].
  rewrite <- (testbit_low_bit b 0), <- (testbit_low_bit b 1),
    <- (testbit_low_bit b 2), <- (testbit_low_bit b 3) by lia.
  reflexivity.
Qed.

Lemma addShadow_mod_16 (layer : LayerRef) (b dx dy : Z) :
  _addShadow layer b dx dy = _addShadow layer (b mod 16) dx dy.
Proof.
  unfold _addShadow. rewrite !forRange_4.
  change 15 with (Z.ones 4). rewrite !Z.land_ones by lia.
  change (2 ^ 4) with 16. rewrite Z.mod_mod by lia.
  rewrite !(land_low_bit b) by lia. reflexivity.
Qed.

(** X9: [_addShadow] never raises and only the four low bits of the
    shadow value count: bit [i] puts one flat overlay command (tileset -1,
    source (0, 0)) on quarter [i] of the cell, in the order of the bits,
    and nothing else is added. *)
Theorem addShadow_low_four_bits (layer : LayerRef) (shadowBits dx dy : Z)
  (t : Tilemap) :
  _addShadow layer shadowBits dx dy t =
    Done tt
      (appendRects layer
         (map (shadowRect dx dy)
            (filter (Z.testbit shadowBits) [0; 1; 2; 3])) t) /\
  _addShadow layer (Z.land shadowBits 15) dx dy t =
    _addShadow layer shadowBits dx dy t.
Proof.
  assert (Hrun : forall r, 0 <= r < 16 ->
            _addShadow layer r dx dy t =
              Done tt
                (appendRects layer
                   (map (shadowRect dx dy)
                      (filter (Z.testbit r) [0; 1; 2; 3])) t)).
  { intros r Hr.
    assert (Hcases : In r [0; 1; 2; 3; 4; 5; 6; 7; 8; 9; 10; 11; 12; 13;
                           14; 15])
      by (simpl; lia).
    simpl in Hcases.
    repeat (destruct Hcases as [<- | Hcases]);
      try contradiction;
      unfold _addShadow; rewrite ?forRange_4;
      cbn -[appendRects addRect bind];
      run_commands; rewrite ?appendRects_nil; reflexivity. }
  split.
  - rewrite addShadow_mod_16.
    rewrite Hrun by (apply Z.mod_pos_bound; lia).
    rewrite filter_low_bits. reflexivity.
  - change 15 with (Z.ones 4). rewrite Z.land_ones by lia.
    change (2 ^ 4) with 16. rewrite <- addShadow_mod_16. reflexivity.
Qed.

(** ** Plain tiles *)

Lemma addNormalTile_run (layer : LayerRef) (tileId dx dy : Z) (t : Tilemap) :
  _addNormalTile layer tileId dx dy t =
    Done tt
      (appendRects layer
         [mkRect (if isTileA5 tileId then 4 else 5 + tileId / 256)
            (Some ((Z.rem (tileId / 128) 2 * 8 + Z.rem tileId 8) * 48))
            (Some (Z.rem (Z.rem tileId 256 / 8) 16 * 48)) dx dy 48 48] t).
Proof. reflexivity. Qed.

Lemma tile_id_digits (id : Z) :
  0 <= id ->
  id = 256 * (id / 256) + 128 * ((id / 128) mod 2)
       + 8 * ((id mod 256 / 8) mod 16) + id mod 8.
Proof.
  intros H. Z.to_euclidean_division_equations. lia.
Qed.

Lemma appendRects_one_inj (layer : LayerRef) (r1 r2 : Rect) (t : Tilemap) :
  appendRects layer [r1] t = appendRects layer [r2] t -> r1 = r2.
Proof.
  intros H.
  assert (Hl : layer_rects (layerOf (appendRects layer [r1] t) layer)
               = layer_rects (layerOf (appendRects layer [r2] t) layer))
    by (rewrite H; reflexivity).
  destruct layer; simpl in Hl; apply app_inv_head in Hl; congruence.
Qed.

Lemma Done_one_inj (layer : LayerRef) (r1 r2 : Rect) (t : Tilemap) :
  Done tt (appendRects layer [r1] t) = Done tt (appendRects layer [r2] t) ->
  r1 = r2.
Proof.
  intros H. apply (appendRects_one_inj layer r1 r2 t). congruence.
Qed.

(** X10: [_addNormalTile] adds one command of 48 by 48 pixels, read at a
    column and a row below 16 of the tileset image; two ids of the banks
    B to E (below [TILE_ID_A5]) never read the same place, nor do two
    ids of the first 256 of A5, but an A5 id and the id 256 above it
    read the same place. *)
Theorem addNormalTile_source (layer : LayerRef) (id1 id2 dx dy : Z)
  (t : Tilemap) :
  (0 <= id1 ->
   exists setNumber column row,
     _addNormalTile layer id1 dx dy t =
       Done tt
         (appendRects layer
            [mkRect setNumber (Some (column * 48)) (Some (row * 48))
               dx dy 48 48] t) /\
     0 <= column < 16 /\ 0 <= row < 16 /\
     (id1 < TILE_ID_A1 -> 4 <= setNumber <= 10)) /\
  (0 <= id1 < TILE_ID_A5 -> 0 <= id2 < TILE_ID_A5 ->
   _addNormalTile layer id1 dx dy t = _addNormalTile layer id2 dx dy t ->
   id1 = id2) /\
  (TILE_ID_A5 <= id1 < TILE_ID_A5 + 256 ->
   TILE_ID_A5 <= id2 < TILE_ID_A5 + 256 ->
   _addNormalTile layer id1 dx dy t = _addNormalTile layer id2 dx dy t ->
   id1 = id2) /\
  (TILE_ID_A5 <= id1 < TILE_ID_A5 + 256 ->
   _addNormalTile layer (id1 + 256) dx dy t
   = _addNormalTile layer id1 dx dy t).
Proof.
  rewrite !addNormalTile_run. unfold_banks.
  assert (Hrem : forall id, 0 <= id ->
            Z.rem (id / 128) 2 = (id / 128) mod 2 /\
            Z.rem id 8 = id mod 8 /\
            Z.rem (Z.rem id 256 / 8) 16 = (id mod 256 / 8) mod 16).
  { intros id Hid.
    rewrite (Z.rem_mod_nonneg (id / 128)) by (try apply Z.div_pos; lia).
    rewrite (Z.rem_mod_nonneg id 8), (Z.rem_mod_nonneg id 256) by lia.
    rewrite (Z.rem_mod_nonneg (id mod 256 / 8))
      by (try apply Z.div_pos; try apply Z.mod_pos_bound; lia).
    repeat split. }
  assert (Hbounds : forall id,
            0 <= (id / 128) mod 2 < 2 /\ 0 <= id mod 8 < 8 /\
            0 <= (id mod 256 / 8) mod 16 < 16)
    by (intros id; repeat split; apply Z.mod_pos_bound; lia).
  split; [| split; [| split]].
  - intros Hid. eexists _, _, _. split; [reflexivity |].
    destruct (Hrem id1 Hid) as (-> & -> & ->).
    pose proof (Hbounds id1).
    split; [lia |]. split; [lia |]. intros Hlt.
    destruct ((id1 >=? 1536) && (id1 <? 2048)) eqn:E; [lia |].
    apply andb_false_iff in E.
    rewrite Z.geb_leb, Z.leb_gt, Z.ltb_ge in E.
    assert (0 <= id1 / 256 <= 5)
      by (split; [apply Z.div_pos; lia |
                  apply Z.lt_succ_r, Z.div_lt_upper_bound; lia]).
    lia.
  - intros H1 H2 Heq.
    apply Done_one_inj in Heq. revert Heq.
    replace ((id1 >=? 1536) && (id1 <? 2048)) with false
      by (rewrite Z.geb_leb; settle_comparisons; reflexivity).
    replace ((id2 >=? 1536) && (id2 <? 2048)) with false
      by (rewrite Z.geb_leb; settle_comparisons; reflexivity).
    destruct (Hrem id1 (proj1 H1)) as (-> & -> & ->).
    destruct (Hrem id2 (proj1 H2)) as (-> & -> & ->).
    intros Heq.
    pose proof (f_equal rect_setNumber Heq) as Hset.
    assert (Hsx : forall a b : Z, Some a = Some b -> a = b)
      by (intros a b E; congruence).
    pose proof (Hsx _ _ (f_equal rect_sx Heq)) as Hcol.
    pose proof (Hsx _ _ (f_equal rect_sy Heq)) as Hrow.
    cbn [rect_setNumber rect_sx rect_sy] in Hset, Hcol, Hrow.
    pose proof (Hbounds id1). pose proof (Hbounds id2).
    pose proof (tile_id_digits id1 (proj1 H1)).
    pose proof (tile_id_digits id2 (proj1 H2)).
    lia.
  - intros H1 H2 Heq.
    apply Done_one_inj in Heq. revert Heq.
    destruct (Hrem id1 ltac:(lia)) as (-> & -> & ->).
    destruct (Hrem id2 ltac:(lia)) as (-> & -> & ->).
    intros Heq.
    assert (Hsx : forall a b : Z, Some a = Some b -> a = b)
      by (intros a b E; congruence).
    pose proof (Hsx _ _ (f_equal rect_sx Heq)) as Hcol.
    pose proof (Hsx _ _ (f_equal rect_sy Heq)) as Hrow.
    cbn [rect_sx rect_sy] in Hcol, Hrow.
    pose proof (Hbounds id1). pose proof (Hbounds id2).
    pose proof (tile_id_digits id1 ltac:(lia)).
    pose proof (tile_id_digits id2 ltac:(lia)).
    assert (id1 / 256 = 6)
      by (symmetry; apply (Z.div_unique id1 256 6 (id1 - 1536)); lia).
    assert (id2 / 256 = 6)
      by (symmetry; apply (Z.div_unique id2 256 6 (id2 - 1536)); lia).
    lia.
  - intros H1.
    replace ((id1 + 256 >=? 1536) && (id1 + 256 <? 2048)) with true
      by (rewrite Z.geb_leb; settle_comparisons; reflexivity).
    replace ((id1 >=? 1536) && (id1 <? 2048)) with true
      by (rewrite Z.geb_leb; settle_comparisons; reflexivity).
    destruct (Hrem id1 ltac:(lia)) as (-> & -> & ->).
    destruct (Hrem (id1 + 256) ltac:(lia)) as (-> & -> & ->).
    replace (id1 + 256) with (id1 + 2 * 128) at 1 by lia.
    rewrite Z.div_add by lia.
    replace ((id1 / 128 + 2) mod 2) with ((id1 / 128) mod 2)
      by (replace (id1 / 128 + 2) with (id1 / 128 + 1 * 2) by lia;
          rewrite Z.mod_add by lia; reflexivity).
    replace ((id1 + 256) mod 8) with (id1 mod 8)
      by (replace (id1 + 256) with (id1 + 32 * 8) by lia;
          rewrite Z.mod_add by lia; reflexivity).
    replace ((id1 + 256) mod 256) with (id1 mod 256)
      by (replace (id1 + 256) with (id1 + 1 * 256) by lia;
          rewrite Z.mod_add by lia; reflexivity).
    reflexivity.
Qed.

Lemma addNormalTile_source_witness :
  (exists setNumber column row,
     _addNormalTile LowerLayer 300 0 0 deepWaterCell =
       Done tt
         (appendRects LowerLayer
            [mkRect setNumber (Some (column * 48)) (Some (row * 48))
               0 0 48 48] deepWaterCell) /\
     0 <= column < 16 /\ 0 <= row < 16) /\
  _addNormalTile LowerLayer 300 0 0 deepWaterCell
  <> _addNormalTile LowerLayer 556 0 0 deepWaterCell /\
  _addNormalTile LowerLayer 1536 0 0 deepWaterCell
  <> _addNormalTile LowerLayer 1537 0 0 deepWaterCell /\
  _addNormalTile LowerLayer (1600 + 256) 0 0 deepWaterCell
  = _addNormalTile LowerLayer 1600 0 0 deepWaterCell.
Proof.
  destruct (addNormalTile_source LowerLayer 300 556 0 0 deepWaterCell)
    as (Hone & Hinj & _).
  destruct (addNormalTile_source LowerLayer 1536 1537 0 0 deepWaterCell)
    as (_ & _ & Hinj5 & _).
  destruct (addNormalTile_source LowerLayer 1600 1600 0 0 deepWaterCell)
    as (_ & _ & _ & Hsame).
  split; [| split; [| split]].
  - destruct (Hone ltac:(lia)) as (s & c & r & Hrun & Hc & Hr & _).
    exists s, c, r. auto.
  - intros H. apply Hinj in H; [discriminate H | |]; unfold TILE_ID_A5; lia.
  - intros H. apply Hinj5 in H; [discriminate H | |]; unfold TILE_ID_A5; lia.
  - apply Hsame. unfold TILE_ID_A5. lia.
Defined.

(** ** How many commands a tile adds *)

Lemma autotileSource_isTable (t : Tilemap) (tileId : Z) :
  snd (autotileSource t tileId) = _isTableTile t tileId /\
  (_isTableTile t tileId = true ->
   selectedTable t tileId = FLOOR_AUTOTILE_TABLE).
Proof.
  unfold selectedTable, autotileSource, _isTableTile.
  destruct (isTileA1 tileId) eqn:H1.
  - assert (H2 : isTileA2 tileId = false).
    { revert H1. unfold_banks. rewrite !Z.geb_leb. intros H1.
      apply andb_true_iff in H1. destruct H1 as [_ H1].
      apply Z.ltb_lt in H1. apply andb_false_iff. left.
      apply Z.leb_gt. exact H1. }
    rewrite H2.
    repeat match goal with
    | |- context [if ?c then _ else _] => destruct c
    end; split; try reflexivity; discriminate.
  - destruct (isTileA2 tileId); [split; reflexivity |].
    repeat match goal with
    | |- context [if ?c then _ else _] => destruct c
    end; split; try reflexivity; discriminate.
Qed.

Lemma floor_lips_at_most_2 (shape : Z) (entry : AutotileEntry) :
  array_get FLOOR_AUTOTILE_TABLE shape = Some entry ->
  (length (filter isLipQuadrant entry) <= 2)%nat.
Proof.
  unfold array_get. destruct (shape <? 0); [discriminate |]. intros H.
  apply nth_error_In in H.
  assert (Hall : forallb
                   (fun e => Nat.leb (length (filter isLipQuadrant e)) 2)
                   FLOOR_AUTOTILE_TABLE = true)
    by (vm_compute; reflexivity).
  rewrite forallb_forall in Hall. apply Nat.leb_le, Hall, H.
Qed.

Lemma quadrant_step (layer : LayerRef) (c : bool) (r1 r2 r3 : Rect)
  (k : unit -> M unit) (u : Tilemap) :
  bind (if c then (addRect layer r1 ;; addRect layer r2)
        else addRect layer r3) k u
  = k tt (appendRects layer (if c then [r1; r2] else [r3]) u).
Proof.
  destruct c; [| reflexivity].
  unfold bind. rewrite !addRect_run, appendRects_app. reflexivity.
Qed.

Lemma ret_Done_inv (u t' : Tilemap) : ret tt u = Done tt t' -> t' = u.
Proof. unfold ret. congruence. Qed.

(** X11: what [_addTile] adds, always to the given layer alone: nothing
    for an id that is not visible, one command for a visible id that is
    not an autotile and, when it completes on an autotile, 4 commands, or
    for a table tile 4 and one more for each quadrant of its floor entry
    that lies on row 1 or 5, that is 6 at most. *)
Theorem addTile_command_count (t : Tilemap) (layer : LayerRef)
  (tileId dx dy : Z) :
  (isVisibleTile tileId = false -> _addTile layer tileId dx dy t = Done tt t) /\
  (isVisibleTile tileId = true -> isAutotile tileId = false ->
   exists r, _addTile layer tileId dx dy t = Done tt (appendRects layer [r] t)) /\
  (isVisibleTile tileId = true -> isAutotile tileId = true ->
   forall t', _addTile layer tileId dx dy t = Done tt t' ->
   exists rs entry,
     t' = appendRects layer rs t /\
     array_get (selectedTable t tileId) (getAutotileShape tileId)
     = Some entry /\
     (_isTableTile t tileId = false -> length rs = 4%nat) /\
     (_isTableTile t tileId = true ->
      length rs = (4 + length (filter isLipQuadrant entry))%nat /\
      (length rs <= 6)%nat)).
Proof.
  unfold _addTile. split; [| split].
  - intros ->. reflexivity.
  - intros -> ->. eexists. apply addNormalTile_run.
  - intros -> -> t' Hrun.
    destruct (array_get (selectedTable t tileId) (getAutotileShape tileId))
      as [entry |] eqn:Hentry;
      [| rewrite (addAutotile_undefined_entry _ _ _ _ _ Hentry) in Hrun;
         discriminate Hrun].
    pose proof (selectedTable_entry_length _ _ _ _ Hentry) as Hlen.
    destruct (autotileSource_isTable t tileId) as [HisT Hfloor].
    assert (Hlips : _isTableTile t tileId = true ->
                    (length (filter isLipQuadrant entry) <= 2)%nat).
    { intros Htable. apply (floor_lips_at_most_2 (getAutotileShape tileId)).
      rewrite <- (Hfloor Htable). exact Hentry. }
    revert Hrun Hentry HisT. unfold _addAutotile, withThis, selectedTable.
    destruct (autotileSource t tileId) as [[[[setNumber bx] by_] tbl] isT].
    cbn [snd]. intros Hrun Hentry HisT. rewrite <- HisT in Hlips |- *.
    clear HisT Hfloor. revert Hrun. rewrite Hentry.
    destruct entry as [| [qx0 qy0] [| [qx1 qy1] [| [qx2 qy2] [| [qx3 qy3] [|]]]]];
      try discriminate Hlen.
    revert Hlips. unfold isLipQuadrant. cbn [filter snd].
    rewrite forRange_4. eval_array_get. cbv beta iota zeta.
    rewrite !quadrant_step, !appendRects_app.
    intros Hlips Hrun. apply ret_Done_inv in Hrun. subst t'.
    eexists _, _. split; [reflexivity |]. split; [reflexivity |].
    rewrite !length_app.
    split.
    + intros Htable. rewrite Htable. reflexivity.
    + intros Htable. rewrite Htable. specialize (Hlips Htable).
      revert Hlips. unfold isLipQuadrant. cbn [andb filter snd].
      destruct ((qy0 =? 1) || (qy0 =? 5)), ((qy1 =? 1) || (qy1 =? 5)),
        ((qy2 =? 1) || (qy2 =? 5)), ((qy3 =? 1) || (qy3 =? 5));
        simpl; lia.
Qed.

Lemma addTile_command_count_witness :
  _addTile UpperLayer 9000 0 0 tableAboveWalkway = Done tt tableAboveWalkway /\
  (exists r,
     _addTile UpperLayer 1536 0 0 tableAboveWalkway
     = Done tt (appendRects UpperLayer [r] tableAboveWalkway)) /\
  (exists rs,
     _addTile UpperLayer TILE_ID_A2 0 0 tableAboveWalkway
     = Done tt (appendRects UpperLayer rs tableAboveWalkway) /\
     length rs = 4%nat).
Proof.
  destruct (addTile_command_count tableAboveWalkway UpperLayer 9000 0 0)
    as (Hnone & _).
  destruct (addTile_command_count tableAboveWalkway UpperLayer 1536 0 0)
    as (_ & Hone & _).
  destruct (addTile_command_count tableAboveWalkway UpperLayer TILE_ID_A2 0 0)
    as (_ & _ & Hfour).
  split; [apply Hnone; reflexivity |].
  split; [apply Hone; reflexivity |].
  destruct (_addTile UpperLayer TILE_ID_A2 0 0 tableAboveWalkway)
    as [[] t' | e t'] eqn:Hrun.
  - destruct (Hfour eq_refl eq_refl t' eq_refl)
      as (rs & entry & -> & Hentry & _ & Htable).
    exists rs. split; [reflexivity |].
    destruct (Htable eq_refl) as [Hlen _]. rewrite Hlen.
    vm_compute in Hentry. injection Hentry as <-. reflexivity.
  - vm_compute in Hrun. discriminate Hrun.
Defined.

(** X12: [_addTableEdge] never raises, whatever the id: it adds 2
    commands to the given layer for an A2 id and nothing for any other
    id. *)
Theorem addTableEdge_never_raises (t : Tilemap) (layer : LayerRef)
  (tileId dx dy : Z) :
  exists rs,
    _addTableEdge layer tileId dx dy t = Done tt (appendRects layer rs t) /\
    length rs = (if isTileA2 tileId then 2 else 0)%nat.
Proof.
  destruct (isTileA2 tileId) eqn:HA2.
  - destruct (addTableEdge_run t layer tileId dx dy HA2) as [Hlen Hrun].
    exists (tableEdgeRects tileId dx dy). split; assumption.
  - exists []. unfold _addTableEdge. rewrite HA2, appendRects_nil.
    split; reflexivity.
Qed.

(** ** Animation *)

Lemma update_keeps (spriteUpdate : Drawable -> Drawable) (n : nat)
  (t : Tilemap) :
  let t' := Nat.iter n (update spriteUpdate) t in
  children t' = map (Nat.iter n (updateChild spriteUpdate)) (children t) /\
  sameRects t' t /\
  _needsRepaint t' = _needsRepaint t /\
  _mapData t' = _mapData t /\ flags t' = flags t /\ origin t' = origin t.
Proof.
  induction n as [| n IH]; cbv zeta.
  - split; [| repeat split]. simpl. symmetry. apply map_id.
  - change (Nat.iter (S n) (update spriteUpdate) t)
      with (update spriteUpdate (Nat.iter n (update spriteUpdate) t)).
    cbv zeta in IH. destruct IH as (Hc & IH). split; [| exact IH].
    unfold update at 1. cbn [children set_children].
    rewrite Hc, map_map. reflexivity.
Qed.

Lemma iter_update_count (spriteUpdate : Drawable -> Drawable) (n : nat)
  (t : Tilemap) :
  - 9007199254740992 <= animationCount t ->
  animationCount t + Z.of_nat n <= 9007199254740992 ->
  animationCount (Nat.iter n (update spriteUpdate) t)
  = animationCount t + Z.of_nat n.
Proof.
  intros Hmin. induction n as [| n IH]; intros Hmax; [simpl; lia |].
  change (Nat.iter (S n) (update spriteUpdate) t)
    with (update spriteUpdate (Nat.iter n (update spriteUpdate) t)).
  unfold update at 1. cbn [animationCount set_animation set_children].
  rewrite IH by lia. rewrite roundToDouble_exact by lia. lia.
Qed.

(** X13: [update] counts the ticks, lets every sprite among the children
    update itself, and changes nothing else of the tilemap.  While the
    count stays within 2^53, [n] calls add [n] to it, and after
    [n >= 1] calls the animation frame is the floor of the count divided
    by 30; a count of 2^53 stays where it is.  So once [updateTransform]
    has completed, a call of [update] makes the next [updateTransform]
    repaint exactly when it moves the frame on, as long as the scroll
    origin stays. *)
Theorem update_advances_frame (spriteUpdate : Drawable -> Drawable)
  (sort : Sorter) (n : nat) (t : Tilemap) :
  let t' := Nat.iter n (update spriteUpdate) t in
  (- 9007199254740992 <= animationCount t ->
   animationCount t + Z.of_nat n <= 9007199254740992 ->
   animationCount t' = animationCount t + Z.of_nat n /\
   ((0 < n)%nat ->
    animationFrame t' = Some ((animationCount t + Z.of_nat n) / 30))) /\
  (animationCount t = 9007199254740992 ->
   animationCount t' = 9007199254740992) /\
  children t' = map (Nat.iter n (updateChild spriteUpdate)) (children t) /\
  sameRects t' t /\
  _needsRepaint t' = _needsRepaint t /\
  _mapData t' = _mapData t /\ flags t' = flags t /\ origin t' = origin t /\
  (forall t0 f,
     updateTransform sort t0 = Done tt t ->
     animationFrame t = Some f ->
     - 9007199254740992 <= animationCount t < 9007199254740992 ->
     (repaintDue (update spriteUpdate t) <->
      (animationCount t + 1) / 30 <> f)).
Proof.
  intros t'. subst t'.
  split; [| split].
  - intros Hmin Hmax.
    split; [apply iter_update_count; assumption |].
    destruct n as [| n]; [lia |]. intros _.
    change (Nat.iter (S n) (update spriteUpdate) t)
      with (update spriteUpdate (Nat.iter n (update spriteUpdate) t)).
    unfold update at 1. cbn [animationFrame set_animation set_children].
    rewrite iter_update_count by lia.
    rewrite roundToDouble_exact by lia. do 2 f_equal. lia.
  - intros Hfull. induction n as [| n IH]; [exact Hfull |].
    change (Nat.iter (S n) (update spriteUpdate) t)
      with (update spriteUpdate (Nat.iter n (update spriteUpdate) t)).
    unfold update at 1. cbn [animationCount set_animation set_children].
    rewrite IH. reflexivity.
  - destruct (update_keeps spriteUpdate n t) as (H0 & H1 & H2 & H3 & H4 & H5).
    repeat (split; [assumption |]).
    intros t0 f Hrun Hf Hcount.
    destruct (updateTransform_commits sort t0 t Hrun)
      as (Ho & Ha & Hn & Hla & Hlx & Hly).
    unfold repaintDue, update, startXOf, startYOf.
    cbn [_needsRepaint _lastAnimationFrame _lastStartX _lastStartY origin
         animationFrame set_animation set_children].
    rewrite roundToDouble_exact by lia.
    rewrite Hn, Hla, Hlx, Hly, <- Ha, Hf. unfold startXOf, startYOf.
    rewrite Ho. split.
    + intros [H | [H | [H | H]]]; try discriminate H;
        try (exfalso; apply H; reflexivity).
      intros E. apply H. rewrite E. reflexivity.
    + intros H. right. left. intros E. apply H. congruence.
Qed.

Lemma update_advances_frame_witness :
  animationFrame (Nat.iter 59 (update (fun d => d)) (initialize 816 624))
  = Some 1 /\
  animationCount
    (Nat.iter 3 (update (fun d => d))
       (set_animation 9007199254740992 None (initialize 816 624)))
  = 9007199254740992 /\
  exists t1,
    updateTransform insertionSort deepWaterCell = Done tt t1 /\
    (repaintDue (update (fun d => d) t1) <->
     (animationCount t1 + 1) / 30 <> 0).
Proof.
  split; [| split].
  - destruct (update_advances_frame (fun d => d) insertionSort 59
                (initialize 816 624)) as (Hcount & _).
    apply Hcount; simpl; lia.
  - destruct (update_advances_frame (fun d => d) insertionSort 3
                (set_animation 9007199254740992 None (initialize 816 624)))
      as (_ & Hfull & _).
    apply Hfull. reflexivity.
  - destruct (updateTransform insertionSort deepWaterCell)
      as [[] t1 | e t1] eqn:Hrun.
    + exists t1. split; [reflexivity |].
      destruct (update_advances_frame (fun d => d) insertionSort 0 t1)
        as (_ & _ & _ & _ & _ & _ & _ & _ & Hdue).
      destruct (updateTransform_commits insertionSort deepWaterCell t1 Hrun)
        as (_ & Ha & _).
      apply (Hdue deepWaterCell 0 Hrun).
      * rewrite Ha. reflexivity.
      * vm_compute in Hrun. injection Hrun as <-.
        cbn [animationCount]. lia.
    + vm_compute in Hrun. discriminate Hrun.
Defined.

(** X14: only the A1 autotiles are animated: the tileset place and the
    table that [_addAutotile] uses for any other id do not depend on the
    animation frame, and those of an A1 id come back every 12 frames. *)
Theorem autotile_animation_cycle (t : Tilemap) (tileId count frame : Z)
  (other : option Z) :
  (isTileA1 tileId = false ->
   autotileSource (set_animation count other t) tileId
   = autotileSource t tileId) /\
  (0 <= frame ->
   autotileSource (set_animation count (Some (frame + 12)) t) tileId
   = autotileSource (set_animation count (Some frame) t) tileId).
Proof.
  split.
  - intros HA1. unfold autotileSource. rewrite HA1. reflexivity.
  - intros Hframe. unfold autotileSource.
    cbn [animationFrame set_animation].
    change (_isTableTile (set_animation count (Some (frame + 12)) t) tileId)
      with (_isTableTile (set_animation count (Some frame) t) tileId).
    cbn [option_map].
    replace (Z.rem (frame + 12) 4) with (Z.rem frame 4).
    2:{ rewrite !Z.rem_mod_nonneg by lia.
        replace (frame + 12) with (frame + 3 * 4) by lia.
        rewrite Z.mod_add by lia. reflexivity. }
    replace (Z.rem (frame + 12) 3) with (Z.rem frame 3).
    2:{ rewrite !Z.rem_mod_nonneg by lia.
        replace (frame + 12) with (frame + 4 * 3) by lia.
        rewrite Z.mod_add by lia. reflexivity. }
    reflexivity.
Qed.

Lemma autotile_animation_cycle_witness :
  autotileSource (set_animation 0 (Some 7) deepWaterCell) 3000
  = autotileSource deepWaterCell 3000 /\
  autotileSource (set_animation 0 (Some 17) deepWaterCell) 2300
  = autotileSource (set_animation 0 (Some 5) deepWaterCell) 2300.
Proof.
  split.
  - apply (proj1 (autotile_animation_cycle deepWaterCell 3000 0 0 (Some 7))).
    reflexivity.
  - apply (proj2 (autotile_animation_cycle deepWaterCell 2300 0 5 None)).
    lia.
Defined.

(** ** Cells of the map data *)

(** X16: a coordinate inside the map reads its own cell of the flat
    array, whatever the wrap flags are: on a map of 5 planes whose data
    have the length 5 * width * height the index of the cell falls in the
    array, two coordinates inside the map that have the same index are
    the same, and the value read is the element at the index; and if the
    data are too short to hold the index, the cell reads 0. *)
Theorem readMapData_reads_cell (t : Tilemap) (data : list Z) (x y z : Z) :
  _mapData t = Some data ->
  0 <= x < _mapWidth t -> 0 <= y < _mapHeight t ->
  _readMapData t x y z = or_zero (array_get data (cellIndex t x y z)) /\
  (Z.of_nat (length data) <= cellIndex t x y z -> _readMapData t x y z = 0) /\
  (0 <= z < 5 ->
   Z.of_nat (length data) = 5 * _mapWidth t * _mapHeight t ->
   0 <= cellIndex t x y z < Z.of_nat (length data) /\
   exists v,
     nth_error data (Z.to_nat (cellIndex t x y z)) = Some v /\
     _readMapData t x y z = v) /\
  (forall x' y' z',
     0 <= x' < _mapWidth t -> 0 <= y' < _mapHeight t ->
     cellIndex t x' y' z' = cellIndex t x y z ->
     x' = x /\ y' = y /\ z' = z).
Proof.
  intros Hdata Hx Hy.
  assert (Hread : _readMapData t x y z
                  = or_zero (array_get data (cellIndex t x y z))).
  { unfold _readMapData, Number_mod, cellIndex. rewrite Hdata.
    assert (Hxm : (if horizontalWrap t then x mod _mapWidth t else x) = x)
      by (destruct (horizontalWrap t); [apply Z.mod_small; lia | reflexivity]).
    assert (Hym : (if verticalWrap t then y mod _mapHeight t else y) = y)
      by (destruct (verticalWrap t); [apply Z.mod_small; lia | reflexivity]).
    cbv zeta. rewrite Hxm, Hym.
    replace ((x >=? 0) && (x <? _mapWidth t) && (y >=? 0)
             && (y <? _mapHeight t)) with true; [reflexivity |].
    symmetry. rewrite !Z.geb_leb. rewrite !andb_true_iff.
    rewrite !Z.leb_le, !Z.ltb_lt. lia. }
  split; [exact Hread |]. split; [| split].
  - intros Hshort. rewrite Hread. unfold array_get.
    destruct (cellIndex t x y z <? 0); [reflexivity |].
    replace (nth_error data (Z.to_nat (cellIndex t x y z))) with (@None Z);
      [reflexivity |].
    symmetry. apply nth_error_None. lia.
  - intros Hz Hlen.
    assert (Hin : 0 <= cellIndex t x y z < Z.of_nat (length data)).
    { rewrite Hlen. unfold cellIndex. nia. }
    split; [exact Hin |].
    destruct (proj2 (array_get_Some_iff data (cellIndex t x y z)) Hin)
      as [v Hv].
    exists v. rewrite Hread, Hv. split; [| reflexivity].
    revert Hv. unfold array_get.
    destruct (cellIndex t x y z <? 0); [discriminate | auto].
  - intros x' y' z' Hx' Hy'. unfold cellIndex. intros Heq.
    assert (Hrow : z' * _mapHeight t + y' = z * _mapHeight t + y /\ x' = x).
    { apply (Z.div_mod_unique (_mapWidth t)); lia. }
    destruct Hrow as [Hrow ->].
    assert (Hplane : z' = z /\ y' = y).
    { apply (Z.div_mod_unique (_mapHeight t)); lia. }
    tauto.
Qed.

Lemma readMapData_reads_cell_witness :
  _readMapData plainRow 4 0 2 = 25 /\
  _readMapData (setData 10 1 [7; 8; 9] (initialize 816 624)) 4 0 2 = 0.
Proof.
  split.
  - destruct (readMapData_reads_cell plainRow (map Z.of_nat (seq 1 50))
                4 0 2 eq_refl)
      as (_ & _ & Hfull & _); [simpl; lia | simpl; lia |].
    destruct Hfull as (_ & v & Hv & ->); [lia | reflexivity |].
    vm_compute in Hv. injection Hv as <-. reflexivity.
  - destruct (readMapData_reads_cell
                (setData 10 1 [7; 8; 9] (initialize 816 624)) [7; 8; 9]
                4 0 2 eq_refl)
      as (_ & Hshort & _); [simpl; lia | simpl; lia |].
    apply Hshort. vm_compute. discriminate.
Defined.

(** ** What a repaint depends on *)

(** X17: [_addAllSpots] reads the setting only (sizes, map data, flags,
    animation frame, wrap flags): on two tilemaps with the same setting,
    whatever their layers held and whatever their scroll origin and
    repaint memo are, it ends the same way and leaves the same commands
    in the layers. *)
Theorem addAllSpots_reads_setting_only (startX startY : Z)
  (t1 t2 : Tilemap) :
  sameSetting t1 t2 ->
  (forall a,
     _addAllSpots startX startY t1 = Done tt a ->
     exists b, _addAllSpots startX startY t2 = Done tt b /\ sameRects a b) /\
  (forall e a,
     _addAllSpots startX startY t1 = Thrown e a ->
     exists b, _addAllSpots startX startY t2 = Thrown e b /\ sameRects a b).
Proof.
  intros Hs.
  pose proof (addAllSpots_sameDrawing startX startY t1 t2 Hs) as Hrel.
  split.
  - intros a Ha. rewrite Ha in Hrel.
    destruct (_addAllSpots startX startY t2) as [[] b | e b];
      [| contradiction].
    exists b. split; [reflexivity | apply Hrel].
  - intros e a Ha. rewrite Ha in Hrel.
    destruct (_addAllSpots startX startY t2) as [[] b | e' b];
      [contradiction |].
    destruct Hrel as [-> Hrel]. exists b. split; [reflexivity | apply Hrel].
Qed.

Lemma addAllSpots_reads_setting_only_witness :
  exists a b,
    _addAllSpots 0 0 deepWaterCell = Done tt a /\
    _addAllSpots 0 0
      (appendRects UpperLayer [mkRect 9 None None 1 2 3 4]
         (set_needsRepaint false deepWaterCell)) = Done tt b /\
    sameRects a b.
Proof.
  destruct (addAllSpots_reads_setting_only 0 0 deepWaterCell
              (appendRects UpperLayer [mkRect 9 None None 1 2 3 4]
                 (set_needsRepaint false deepWaterCell)))
    as [Hdone _]; [split; reflexivity |].
  destruct (_addAllSpots 0 0 deepWaterCell) as [[] a | e a] eqn:Hrun.
  - destruct (Hdone a eq_refl) as (b & Hb & Hsame).
    exists a, b. split; [reflexivity |]. split; assumption.
  - vm_compute in Hrun. discriminate Hrun.
Defined.

(** ** Where the layers are *)

Lemma placedAs_setting (t0 t1 t2 : Tilemap) :
  placedAs t0 t1 t2 -> sameSetting t1 t2.
Proof. intros [-> _]. split; reflexivity. Qed.

Lemma placedAs_addRect (t0 : Tilemap) (layer : LayerRef) (r : Rect)
  (t1 t2 : Tilemap) :
  placedAs t0 t1 t2 ->
  placedAs t0 (appendRects layer [r] t1) (appendRects layer [r] t2).
Proof.
  intros (-> & Hl & Hu). split; [reflexivity |].
  destruct layer; split; assumption.
Qed.

Lemma addAllSpots_keeps_place (startX startY : Z) (t : Tilemap) :
  match _addAllSpots startX startY t with
  | Done _ t' | Thrown _ t' =>
      samePlace (_lowerLayer t) (_lowerLayer t') /\
      samePlace (_upperLayer t) (_upperLayer t')
  end.
Proof.
  rewrite addAllSpots_loops.
  set (loops := forRange _ _).
  assert (Hloops : Respects (placedAs t) loops).
  { apply respects_forRange. intros i.
    apply respects_forRange. intros j.
    apply respects_addSpot; [apply placedAs_setting | apply placedAs_addRect]. }
  assert (Hstart : placedAs t (emptied t) (emptied t))
    by (repeat split).
  specialize (Hloops _ _ Hstart). unfold related_outcomes in Hloops.
  destruct (loops (emptied t)) as [[] t' | e t']; apply Hloops.
Qed.

Lemma updateTransform_places (sort : Sorter) (t t' : Tilemap) :
  updateTransform sort t = Done tt t' ->
  samePlace (_lowerLayer (moveLayers t)) (_lowerLayer t') /\
  samePlace (_upperLayer (moveLayers t)) (_upperLayer t').
Proof.
  destruct (updateTransform_cases sort t) as [[_ ->] | [_ ->]].
  - intros H. apply bind_Done_inv in H.
    destruct H as ([] & s & H & Hsort).
    apply bind_Done_inv in H. destruct H as ([] & a & Ha & H).
    injection Ha as <-.
    apply bind_Done_inv in H. destruct H as ([] & tb & Hspots & H).
    injection H as <-. injection Hsort as <-.
    pose proof (addAllSpots_keeps_place (startXOf t) (startYOf t)
                  (set_last (animationFrame t) (Some (startXOf t))
                     (Some (startYOf t)) (moveLayers t))) as Hplace.
    rewrite Hspots in Hplace. exact Hplace.
  - intros H. injection H as <-. repeat split.
Qed.

(** X8: the window covers the screen.  When [updateTransform] completes,
    the map column and row under a pixel [(px, py)] of the screen are
    among the columns and rows that [_addAllSpots] expands from [startX]
    and [startY], and the box of that cell, at the place where the layers
    have been put, contains the pixel. *)
Theorem window_covers_screen (sort : Sorter) (t t' : Tilemap) (px py : Z) :
  updateTransform sort t = Done tt t' ->
  0 <= px < _width t -> 0 <= py < _height t ->
  let ox := Qceiling (fst (origin t)) in
  let oy := Qceiling (snd (origin t)) in
  let x := (ox + px) / _tileWidth - startXOf t in
  let y := (oy + py) / _tileHeight - startYOf t in
  _addAllSpots (startXOf t) (startYOf t) t =
    forRange (tileRowsOf t) (fun y =>
      forRange (tileColsOf t) (fun x =>
        _addSpot (startXOf t) (startYOf t) x y)) (emptied t) /\
  0 <= x < tileColsOf t /\
  0 <= y < tileRowsOf t /\
  layer_x (_lowerLayer t') + x * _tileWidth <= px
    < layer_x (_lowerLayer t') + x * _tileWidth + _tileWidth /\
  layer_y (_lowerLayer t') + y * _tileHeight <= py
    < layer_y (_lowerLayer t') + y * _tileHeight + _tileHeight /\
  layer_x (_upperLayer t') = layer_x (_lowerLayer t') /\
  layer_y (_upperLayer t') = layer_y (_lowerLayer t').
Proof.
  intros Hrun Hpx Hpy ox oy x y. subst x y.
  split; [apply addAllSpots_loops |].
  destruct (updateTransform_places sort t t' Hrun)
    as ((_ & Hlx & Hly) & (_ & Hux & Huy)).
  rewrite <- Hlx, <- Hly, <- Hux, <- Huy.
  unfold tileColsOf, tileRowsOf, startXOf, startYOf, ceil_div, moveLayers,
    startXOf, startYOf.
  fold ox oy. cbn [layer_x layer_y _lowerLayer _upperLayer setLayer
                   Layer_setXY].
  unfold _tileWidth, _tileHeight, _margin.
  generalize dependent ox. generalize dependent oy. intros oy ox.
  repeat split; try reflexivity;
    Z.to_euclidean_division_equations; lia.
Qed.

Lemma window_covers_screen_witness :
  exists t',
    updateTransform insertionSort deepWaterCell = Done tt t' /\
    0 <= (0 + 815) / _tileWidth - startXOf deepWaterCell
      < tileColsOf deepWaterCell /\
    layer_x (_lowerLayer t')
      + ((0 + 815) / _tileWidth - startXOf deepWaterCell) * _tileWidth
      <= 815.
Proof.
  destruct (updateTransform insertionSort deepWaterCell)
    as [[] t' | e t'] eqn:Hrun.
  - destruct (window_covers_screen insertionSort deepWaterCell t' 815 0 Hrun)
      as (_ & Hx & _ & Hbox & _); [simpl; lia | simpl; lia |].
    exists t'. split; [reflexivity |]. split; [exact Hx | apply Hbox].
  - vm_compute in Hrun. discriminate Hrun.
Defined.

(** X18: when [updateTransform] completes, repaint or not, the two
    layers are at the same place, between 20 and 67 pixels before the
    corner of the screen on each axis, and their z are the ones they
    had. *)
Theorem updateTransform_places_layers (sort : Sorter) (t t' : Tilemap) :
  updateTransform sort t = Done tt t' ->
  layer_x (_lowerLayer t')
  = startXOf t * _tileWidth - Qceiling (fst (origin t)) /\
  layer_y (_lowerLayer t')
  = startYOf t * _tileHeight - Qceiling (snd (origin t)) /\
  layer_x (_upperLayer t') = layer_x (_lowerLayer t') /\
  layer_y (_upperLayer t') = layer_y (_lowerLayer t') /\
  - 67 <= layer_x (_lowerLayer t') <= - 20 /\
  - 67 <= layer_y (_lowerLayer t') <= - 20 /\
  layer_z (_lowerLayer t') = layer_z (_lowerLayer t) /\
  layer_z (_upperLayer t') = layer_z (_upperLayer t).
Proof.
  intros Hrun.
  destruct (updateTransform_places sort t t' Hrun)
    as ((Hlz & Hlx & Hly) & (Huz & Hux & Huy)).
  rewrite <- Hlx, <- Hly, <- Hux, <- Huy, <- Hlz, <- Huz.
  unfold moveLayers, startXOf, startYOf.
  cbn [layer_x layer_y layer_z _lowerLayer _upperLayer setLayer Layer_setXY].
  unfold _tileWidth, _tileHeight, _margin.
  generalize (Qceiling (fst (origin t))) (Qceiling (snd (origin t))).
  intros ox oy.
  repeat split; try reflexivity; Z.to_euclidean_division_equations; lia.
Qed.

Lemma updateTransform_places_layers_witness :
  exists t',
    updateTransform insertionSort deepWaterCell = Done tt t' /\
    layer_x (_lowerLayer t') = -48 /\
    layer_z (_upperLayer t') = 4.
Proof.
  destruct (updateTransform insertionSort deepWaterCell)
    as [[] t' | e t'] eqn:Hrun.
  - destruct (updateTransform_places_layers insertionSort deepWaterCell t' Hrun)
      as (Hx & _ & _ & _ & _ & _ & _ & Hz).
    exists t'. split; [reflexivity |]. split; [exact Hx | exact Hz].
  - vm_compute in Hrun. discriminate Hrun.
Defined.

(** ** Sorting the children *)

(** [updateTransform] ends with the sort of the children it was given,
    the layers being where it has just put them. *)
Lemma updateTransform_sorts (sort : Sorter) (t t' : Tilemap) :
  updateTransform sort t = Done tt t' ->
  exists s,
    _sortChildren sort s = Done tt t' /\
    children s = children t /\
    forall c, drawableOf s c = drawableOf (moveLayers t) c.
Proof.
  destruct (updateTransform_cases sort t) as [[_ ->] | [_ ->]].
  - intros H. apply bind_Done_inv in H.
    destruct H as ([] & s & H & Hsort).
    exists s. split; [exact Hsort |].
    apply bind_Done_inv in H. destruct H as ([] & a & Ha & H).
    injection Ha as <-.
    apply bind_Done_inv in H. destruct H as ([] & tb & Hspots & H).
    injection H as <-.
    pose proof (addAllSpots_keeps_place (startXOf t) (startYOf t)
                  (set_last (animationFrame t) (Some (startXOf t))
                     (Some (startYOf t)) (moveLayers t))) as Hplace.
    pose proof (addAllSpots_layersChanged (startXOf t) (startYOf t)
                  (set_last (animationFrame t) (Some (startXOf t))
                     (Some (startYOf t)) (moveLayers t))) as Hch.
    rewrite Hspots in Hplace, Hch.
    destruct Hplace as [(Hlz & _ & Hly) (Huz & _ & Huy)].
    split.
    + destruct Hch as (L & U & ->). reflexivity.
    + intros [| | d]; unfold drawableOf;
        cbn [_lowerLayer _upperLayer set_needsRepaint];
        cbn [_lowerLayer _upperLayer set_last] in Hlz, Hly, Huz, Huy;
        [rewrite <- Hlz, <- Hly | rewrite <- Huz, <- Huy |]; reflexivity.
  - intros H. exists (moveLayers t).
    split; [exact H |]. split; reflexivity.
Qed.

(** X15: with a sort that meets the contract of the language, a call of
    [updateTransform] that completes only reorders the children: it loses
    none and adds none.  The layers are compared where the call has just
    put them; when, so placed, no child without sprite id is at the z and
    y of a child with one, the children end up in the order of z, then y,
    then sprite id. *)
Theorem sortChildren_orders_children (sort : Sorter) (t t' : Tilemap) :
  sortContract sort ->
  updateTransform sort t = Done tt t' ->
  Permutation (children t) (children t') /\
  (forall c, drawableOf t' c = drawableOf (moveLayers t) c) /\
  (tiesAlike (moveLayers t) ->
   StronglySorted (childOrder (moveLayers t)) (children t')).
Proof.
  intros Hsort Hrun.
  destruct (updateTransform_sorts sort t t' Hrun) as (s & Hs & Hch & Hdraw).
  destruct (sortChildren_sorts sort s Hsort)
    as (sorted & Hrun' & Hperm & Hsorted).
  rewrite Hs in Hrun'. injection Hrun' as ->.
  cbn [children set_children].
  split; [rewrite <- Hch; exact Hperm |].
  split.
  - intros c. rewrite <- Hdraw. destruct c; reflexivity.
  - intros Hties.
    apply (StronglySorted_among (childOrder s)).
    + intros a b _ _. unfold childOrder. rewrite !Hdraw. auto.
    + apply Hsorted. intros a b Ha Hb. rewrite !Hdraw.
      rewrite Hch in Ha, Hb. apply Hties; assumption.
Qed.

Lemma sortChildren_orders_children_witness :
  exists t',
    updateTransform insertionSort spritesAmongLayers = Done tt t' /\
    Permutation (children spritesAmongLayers) (children t') /\
    children t' =
      [LowerLayerChild; SpriteChild (sprite 1 5 0);
       SpriteChild (sprite 1 5 1); SpriteChild (sprite 3 7 2);
       UpperLayerChild].
Proof.
  destruct (updateTransform insertionSort spritesAmongLayers)
    as [[] t' | e t'] eqn:Hrun.
  - exists t'. split; [reflexivity |].
    destruct (sortChildren_orders_children insertionSort spritesAmongLayers
                t' insertionSort_sortContract Hrun) as (Hperm & _).
    split; [exact Hperm |].
    vm_compute in Hrun. injection Hrun as <-. reflexivity.
  - vm_compute in Hrun. discriminate Hrun.
Defined.

(** ** Tileset bitmaps *)

Lemma listenToBitmaps_present (bitmaps : list Bitmap) :
  listenToBitmaps (map Some bitmaps)
  = (map (fun b => Some (if negb (bitmap_isReady b)
                         then addLoadListener b else b)) bitmaps,
     false).
Proof.
  induction bitmaps as [| b l IH]; simpl; [reflexivity |].
  rewrite IH. reflexivity.
Qed.

Lemma listenToBitmaps_missing (bitmaps : list (option Bitmap)) :
  In None bitmaps -> snd (listenToBitmaps bitmaps) = true.
Proof.
  induction bitmaps as [| [b |] l IH]; simpl.
  - contradiction.
  - intros [H | H]; [discriminate H |].
    specialize (IH H). destruct (listenToBitmaps l). exact IH.
  - reflexivity.
Qed.

Lemma isReady_after_listening (bitmaps : list Bitmap)
  (s : Tilemap) (n : bool) (lb : list (option Bitmap)) :
  isReady
    (mkTilemapWithBitmaps s
       (map (fun b => Some (if negb (bitmap_isReady b)
                            then addLoadListener b else b)) bitmaps) n lb)
  = forallb bitmap_isReady bitmaps.
Proof.
  unfold isReady. cbn [_bitmaps].
  induction bitmaps as [| b l IH]; simpl; [reflexivity |].
  rewrite IH. destruct b as [[] k]; reflexivity.
Qed.

(** X19: [setBitmaps] on bitmaps that are all there and all loaded gives
    them to the lower layer, registers no listener and requests a repaint,
    so that the next [updateTransform] repaints.  If some are not loaded,
    each of those gets exactly one listener, the tilemap is left as it
    was and the update stays pending; once they are loaded,
    [_updateBitmaps] (the listener) gives the bitmaps to the layer and
    requests the repaint, and a second call of it changes nothing.  On an
    array with a missing bitmap, which [isReady] passes over, [setBitmaps]
    raises a [TypeError]. *)
Theorem setBitmaps_requests_repaint (bitmaps : list Bitmap)
  (s : TilemapWithBitmaps) :
  (forallb bitmap_isReady bitmaps = true ->
   exists s',
     setBitmaps (map Some bitmaps) s = BitmapsDone s' /\
     _bitmaps s' = map Some bitmaps /\
     layerBitmaps s' = map Some bitmaps /\
     _needsBitmapsUpdate s' = false /\
     tilemap s' = set_needsRepaint true (tilemap s) /\
     repaintDue (tilemap s')) /\
  (forallb bitmap_isReady bitmaps = false ->
   exists s',
     setBitmaps (map Some bitmaps) s = BitmapsDone s' /\
     tilemap s' = tilemap s /\
     layerBitmaps s' = layerBitmaps s /\
     _needsBitmapsUpdate s' = true /\
     _bitmaps s' =
       map (fun b =>
              Some (mkBitmap (bitmap_isReady b)
                      (if bitmap_isReady b then bitmap_loadListeners b
                       else S (bitmap_loadListeners b))))
         bitmaps /\
     let s'' :=
       _updateBitmaps
         (mkTilemapWithBitmaps (tilemap s') (map loaded (_bitmaps s'))
            (_needsBitmapsUpdate s') (layerBitmaps s')) in
     _needsRepaint (tilemap s'') = true /\
     layerBitmaps s'' = _bitmaps s'' /\
     _needsBitmapsUpdate s'' = false /\
     _updateBitmaps s'' = s'') /\
  (forall before after,
     exists s',
       setBitmaps (map Some before ++ None :: after) s
       = BitmapsThrown TypeError s' /\
       tilemap s' = tilemap s /\
       isReady
         (mkTilemapWithBitmaps (tilemap s)
            (map (fun b => Some (mkBitmap true (bitmap_loadListeners b)))
               before ++ None :: map loaded after)
            (_needsBitmapsUpdate s) (layerBitmaps s)) = true).
Proof.
  split; [| split].
  - intros Hready. unfold setBitmaps. rewrite listenToBitmaps_present.
    cbv zeta. cbn [tilemap _bitmaps layerBitmaps].
    unfold _updateBitmaps. cbn [_needsBitmapsUpdate andb].
    rewrite isReady_after_listening, Hready.
    cbn [tilemap _bitmaps].
    assert (Hsame : map (fun b => Some (if negb (bitmap_isReady b)
                                        then addLoadListener b else b))
                      bitmaps = map Some bitmaps).
    { rewrite forallb_forall in Hready. apply map_ext_in.
      intros b Hb. specialize (Hready b Hb).
      destruct b as [[] k]; [reflexivity | discriminate Hready]. }
    rewrite Hsame. eexists. split; [reflexivity |].
    cbn [_bitmaps layerBitmaps _needsBitmapsUpdate tilemap].
    repeat split. left. reflexivity.
  - intros Hready. unfold setBitmaps. rewrite listenToBitmaps_present.
    cbv zeta. cbn [tilemap _bitmaps layerBitmaps].
    unfold _updateBitmaps at 1. cbn [_needsBitmapsUpdate andb].
    rewrite isReady_after_listening, Hready.
    eexists. split; [reflexivity |].
    cbn [_bitmaps layerBitmaps _needsBitmapsUpdate tilemap].
    split; [reflexivity |]. split; [reflexivity |]. split; [reflexivity |].
    split.
    { apply map_ext. intros [[] n]; reflexivity. }
    assert (Hloaded : forall n lb,
              isReady
                (mkTilemapWithBitmaps (tilemap s)
                   (map loaded
                      (map (fun b => Some (if negb (bitmap_isReady b)
                                           then addLoadListener b else b))
                         bitmaps)) n lb) = true).
    { intros n lb. unfold isReady. cbn [_bitmaps].
      apply forallb_forall. intros b Hb.
      apply in_map_iff in Hb. destruct Hb as (b0 & <- & Hb0).
      apply in_map_iff in Hb0. destruct Hb0 as (b1 & <- & _).
      reflexivity. }
    cbv zeta.
    match goal with
    | |- context [_updateBitmaps ?u] =>
        assert (Hu : _updateBitmaps u
                     = mkTilemapWithBitmaps
                         (set_needsRepaint true (tilemap s)) (_bitmaps u)
                         false (_bitmaps u))
          by (unfold _updateBitmaps; cbn [_needsBitmapsUpdate andb];
              rewrite Hloaded; reflexivity);
        rewrite !Hu
    end.
    repeat split.
  - intros before after. unfold setBitmaps.
    assert (Hlisten : exists l,
              listenToBitmaps (map Some before ++ None :: after)
              = (l, true)).
    { induction before as [| b l IH]; simpl; [eexists; reflexivity |].
      destruct IH as [l' ->]. eexists. reflexivity. }
    destruct Hlisten as [l ->]. eexists. split; [reflexivity |].
    split; [reflexivity |].
    unfold isReady. cbn [_bitmaps]. apply forallb_forall. intros b Hb.
    apply in_app_iff in Hb. destruct Hb as [Hb | [<- | Hb]].
    + apply in_map_iff in Hb. destruct Hb as (b0 & <- & _). reflexivity.
    + reflexivity.
    + apply in_map_iff in Hb. destruct Hb as ([b0 |] & <- & _); reflexivity.
Qed.

Lemma setBitmaps_requests_repaint_witness :
  (exists s',
     setBitmaps [Some (mkBitmap true 0); Some (mkBitmap true 0)]
       (initializeWithBitmaps 816 624) = BitmapsDone s' /\
     repaintDue (tilemap s')) /\
  (exists s',
     setBitmaps [Some (mkBitmap true 0); Some (mkBitmap false 0)]
       (initializeWithBitmaps 816 624) = BitmapsDone s' /\
     _bitmaps s' = [Some (mkBitmap true 0); Some (mkBitmap false 1)] /\
     _needsBitmapsUpdate s' = true).
Proof.
  split.
  - destruct (setBitmaps_requests_repaint
                [mkBitmap true 0; mkBitmap true 0]
                (initializeWithBitmaps 816 624)) as (Hready & _).
    destruct (Hready eq_refl) as (s' & Hrun & _ & _ & _ & _ & Hdue).
    exists s'. split; assumption.
  - destruct (setBitmaps_requests_repaint
                [mkBitmap true 0; mkBitmap false 0]
                (initializeWithBitmaps 816 624)) as (_ & Hwait & _).
    destruct (Hwait eq_refl) as (s' & Hrun & _ & _ & Hpending & Hb & _).
    exists s'. split; [exact Hrun |]. split; [exact Hb | exact Hpending].
Defined.

(** ** Where an autotile is read *)

Lemma water_surface_index (f : Z) :
  0 <= f ->
  exists w, array_get [0; 1; 2; 1] (Z.rem f 4) = Some w /\ 0 <= w <= 2.
Proof.
  intros Hf. rewrite Z.rem_mod_nonneg by lia.
  pose proof (Z.mod_pos_bound f 4 ltac:(lia)) as Hm.
  assert (Hcases : f mod 4 = 0 \/ f mod 4 = 1 \/ f mod 4 = 2 \/ f mod 4 = 3)
    by lia.
  destruct Hcases as [-> | [-> | [-> | ->]]];
    eexists; (split; [reflexivity | lia]).
Qed.

(** X20: once [update] has set a frame [f >= 0], the tileset place of
    every autotile id below [TILE_ID_MAX] is a pair of numbers, with
    [0 <= bx <= 14] and [0 <= by <= 13], in the tileset of its bank (0 for
    A1 to 3 for A4).  Before the first [update] the frame is [undefined]
    and the place of a water tile of kind 0 is [NaN]. *)
Theorem autotile_source_defined (t : Tilemap) (tileId f : Z) :
  (animationFrame t = Some f -> 0 <= f ->
   TILE_ID_A1 <= tileId < TILE_ID_MAX ->
   exists setNumber bx by_ table isTable,
     autotileSource t tileId
     = (setNumber, Some bx, Some by_, table, isTable) /\
     0 <= bx <= 14 /\ 0 <= by_ <= 13 /\
     setNumber =
       (if isTileA1 tileId then 0 else if isTileA2 tileId then 1
        else if isTileA3 tileId then 2 else 3)) /\
  (animationFrame t = None -> getAutotileKind tileId = 0 ->
   isTileA1 tileId = true ->
   autotileSource t tileId
   = (0, NaN, Some 0, FLOOR_AUTOTILE_TABLE, false)).
Proof.
  split.
  - intros Hframe Hf Hid.
    destruct (autotile_kind_bounds tileId (proj1 Hid)) as [Hk Hk0].
    destruct (water_surface_index f Hf) as (w & Hw & Hwb).
    unfold autotileSource. rewrite Hframe, Hw. cbn [option_map].
    set (k := getAutotileKind tileId) in *.
    rewrite (Z.rem_mod_nonneg k 8), (Z.rem_mod_nonneg k 2),
      (Z.rem_mod_nonneg f 3) by lia.
    rewrite (Z.rem_mod_nonneg (k / 8) 2)
      by (try apply Z.div_pos; lia).
    rewrite (Z.rem_mod_nonneg (k mod 8 / 2) 2)
      by (try apply Z.div_pos; try apply Z.mod_pos_bound; lia).
    pose proof (Z.mod_pos_bound f 3 ltac:(lia)).
    unfold_banks.
    assert (Hcase : tileId < 2816 \/ 2816 <= tileId < 4352 \/
                    4352 <= tileId < 5888 \/ 5888 <= tileId < 8192)
      by lia.
    destruct Hcase as [H' | [H' | [H' | H']]];
      rewrite ?Z.geb_leb; settle_comparisons; cbn [andb];
      repeat match goal with
      | |- context [if ?c then _ else _] => destruct c eqn:?
      end;
      cbn [jsnum_mul jsnum_add];
      eexists _, _, _, _, _; (split; [reflexivity |]);
      (split; [| split]); try reflexivity;
      Z.to_euclidean_division_equations; lia.
  - intros Hframe Hkind HA1. unfold autotileSource.
    rewrite HA1, Hframe, Hkind. reflexivity.
Qed.

Lemma autotile_source_defined_witness :
  (exists setNumber bx by_ table isTable,
     autotileSource deepWaterCell 7000
     = (setNumber, Some bx, Some by_, table, isTable) /\
     0 <= bx <= 14 /\ 0 <= by_ <= 13) /\
  autotileSource (initialize 816 624) TILE_ID_A1
  = (0, NaN, Some 0, FLOOR_AUTOTILE_TABLE, false).
Proof.
  split.
  - destruct (proj1 (autotile_source_defined deepWaterCell 7000 0)
                eq_refl ltac:(lia)
                ltac:(unfold TILE_ID_A1, TILE_ID_MAX; lia))
      as (s & bx & by_ & tb & it & Hsrc & Hbx & Hby & _).
    exists s, bx, by_, tb, it. auto.
  - apply (proj2 (autotile_source_defined (initialize 816 624)
                    TILE_ID_A1 0)); reflexivity.
Defined.
